(** * nlp-resume-parser: a shallow embedding of the text-to-structure engine

    The repository holds three generations of one resume parser:
    - [Simple]   : the chrono/fuzzball prototype (second half of part_000),
    - [Strict]   : the section-boundary parser with the pruning assembler
                   (first half of part_000),
    - [Enhanced] : resumeParser2.js, with its primary and secondary approach.

    JavaScript strings are sequences of UTF-16 code units; they are modelled
    as [list N].  Regular expressions are embedded as a small syntax with a
    backtracking matcher that follows the ECMAScript priorities (leftmost
    start, alternatives left to right, greedy quantifiers).  The third-party
    packages (chrono-node, fuzzball) are not part of the repository and are
    taken as an interface, the class [Env]; what chrono reads from the
    process, the [Clock] of a run, is a parameter of that interface.  The
    date extractors are given twice: as the functions they compute, and in
    [Throwing] with the exceptions that their steps can raise. *)

From Stdlib Require Import String Ascii.
From Stdlib Require Import List NArith ZArith Bool Arith Lia Sorted.
Import ListNotations.

Set Implicit Arguments.

(* ------------------------------------------------------------------ *)
(** ** JavaScript strings *)

Module Js.

Definition jstr := list N.

(** ASCII literal of the source, as code units. *)
Definition lit (s : string) : jstr :=
  List.map N_of_ascii (list_ascii_of_string s).

Definition bullet : N := 8226.   (* U+2022 *)
Definition enDash : N := 8211.   (* U+2013 *)
Definition emDash : N := 8212.   (* U+2014 *)

Fixpoint eqb (a b : jstr) : bool :=
  match a, b with
  | [], [] => true
  | x :: a', y :: b' => N.eqb x y && eqb a' b'
  | _, _ => false
  end.

Definition inRange (lo hi c : N) : bool := N.leb lo c && N.leb c hi.

Definition isDigit (c : N) : bool := inRange 48 57 c.
Definition isUpperAZ (c : N) : bool := inRange 65 90 c.
Definition isLowerAZ (c : N) : bool := inRange 97 122 c.
Definition isAlpha (c : N) : bool := isUpperAZ c || isLowerAZ c.
Definition isAscii (c : N) : bool := N.ltb c 128.

Definition lowerAscii (c : N) : N := if isUpperAZ c then (c + 32)%N else c.
Definition upperAscii (c : N) : N := if isLowerAZ c then (c - 32)%N else c.

(** WhiteSpace and LineTerminator of ECMAScript: what [trim] strips and
    what the class [\s] matches. *)
Definition isSpace (c : N) : bool :=
  inRange 9 13 c || N.eqb c 32 || N.eqb c 160 || N.eqb c 5760
  || inRange 8192 8202 c || N.eqb c 8232 || N.eqb c 8233
  || N.eqb c 8239 || N.eqb c 8287 || N.eqb c 12288 || N.eqb c 65279.

(** LineTerminator: what the class [.] excludes. *)
Definition isLineTerminator (c : N) : bool :=
  N.eqb c 10 || N.eqb c 13 || N.eqb c 8232 || N.eqb c 8233.

Fixpoint trimStart (s : jstr) : jstr :=
  match s with
  | c :: s' => if isSpace c then trimStart s' else s
  | [] => []
  end.

Definition trimEnd (s : jstr) : jstr := rev (trimStart (rev s)).

Definition trim (s : jstr) : jstr := trimEnd (trimStart s).

Fixpoint startsWith (p s : jstr) : bool :=
  match p, s with
  | [], _ => true
  | x :: p', y :: s' => N.eqb x y && startsWith p' s'
  | _ :: _, [] => false
  end.

(** [indexOfFrom i sub s]: first index [>= i] (counted from the start of
    the original string, [s] being its suffix at [i]) where [sub] occurs. *)
Fixpoint indexOfFrom (i : nat) (sub s : jstr) : option nat :=
  if startsWith sub s then Some i
  else match s with
       | [] => None
       | _ :: s' => indexOfFrom (S i) sub s'
       end.

(** [s.indexOf(sub)]; [None] stands for the result -1. *)
Definition indexOf (sub s : jstr) : option nat := indexOfFrom 0 sub s.

Definition includes (sub s : jstr) : bool :=
  match indexOf sub s with Some _ => true | None => false end.

(** [s.substring(i)] and [s.slice(i)] for [0 <= i]. *)
Definition substring (i : nat) (s : jstr) : jstr := skipn i s.

(** [s.substring(i, j)] for [0 <= i <= j]. *)
Definition substr (i j : nat) (s : jstr) : jstr := firstn (j - i) (skipn i s).

(** [s.split(sep)] for a non-empty string separator. *)
Fixpoint splitOnAux (fuel : nat) (sep s cur : jstr) : list jstr :=
  match fuel with
  | O => [rev cur ++ s]
  | S fuel' =>
      match s with
      | [] => [rev cur]
      | c :: s' =>
          if startsWith sep s
          then rev cur :: splitOnAux fuel' sep (skipn (length sep) s) []
          else splitOnAux fuel' sep s' (c :: cur)
      end
  end.

Definition splitOn (sep s : jstr) : list jstr :=
  splitOnAux (S (length s)) sep s [].

(** [arr.join(sep)]. *)
Fixpoint join (sep : jstr) (l : list jstr) : jstr :=
  match l with
  | [] => []
  | [x] => x
  | x :: l' => x ++ sep ++ join sep l'
  end.

(** [arr.filter(Boolean)] on an array of strings: the non-empty ones. *)
Definition nonEmpty (s : jstr) : bool :=
  match s with [] => false | _ => true end.

(** [[...new Set(arr)]]: first occurrences, in order. *)
Fixpoint dedupAux (seen : list jstr) (l : list jstr) : list jstr :=
  match l with
  | [] => []
  | x :: l' =>
      if existsb (eqb x) seen then dedupAux seen l'
      else x :: dedupAux (x :: seen) l'
  end.

Definition dedup (l : list jstr) : list jstr := dedupAux [] l.

(** [x || y] on a possibly undefined string: the empty string is falsy. *)
Definition orStr (o : option jstr) (y : jstr) : jstr :=
  match o with Some (c :: s) => c :: s | _ => y end.

(** [x || empty]. *)
Definition orEmpty (o : option jstr) : jstr := orStr o [].

End Js.

Import Js.

(* ------------------------------------------------------------------ *)
(** ** Regular expressions *)

Module Regex.

(** The fragment of ECMAScript patterns the sources use.  [Chr p] is any
    class or literal, [Grp n r] the n-th capturing group; non-capturing
    groups are plain structure.  The sources use no flag but [g] and [i];
    without [m], [^] and [$] are the ends of the input. *)
Inductive regex : Type :=
| Eps : regex
| Chr : (N -> bool) -> regex
| Seq : regex -> regex -> regex
| Alt : regex -> regex -> regex
| Star : regex -> regex
| Grp : nat -> regex -> regex
| Bol : regex
| Eol : regex.

Definition Plus (r : regex) : regex := Seq r (Star r).
Definition Opt (r : regex) : regex := Alt r Eps.

(** [r{n}]. *)
Fixpoint Times (n : nat) (r : regex) : regex :=
  match n with
  | O => Eps
  | S n' => Seq r (Times n' r)
  end.

(** [r{0,n}], greedy. *)
Fixpoint UpTo (n : nat) (r : regex) : regex :=
  match n with
  | O => Eps
  | S n' => Opt (Seq r (UpTo n' r))
  end.

(** [r{lo,hi}] and [r{lo,}]. *)
Definition Rep (lo hi : nat) (r : regex) : regex :=
  Seq (Times lo r) (UpTo (hi - lo) r).
Definition AtLeast (lo : nat) (r : regex) : regex :=
  Seq (Times lo r) (Star r).

Definition ch (c : N) : regex := Chr (N.eqb c).
(** A literal character under the [i] flag.  Canonicalize leaves a
    non-ASCII unit alone when its upper case would be ASCII, so an ASCII
    letter of the pattern matches its two ASCII cases only. *)
Definition chi (c : N) : regex := Chr (fun x => N.eqb (lowerAscii x) (lowerAscii c)).

Fixpoint seqOf (f : N -> regex) (s : jstr) : regex :=
  match s with
  | [] => Eps
  | [c] => f c
  | c :: s' => Seq (f c) (seqOf f s')
  end.

(** A literal word, case-sensitive and under [i]. *)
Definition word (s : string) : regex := seqOf ch (lit s).
Definition wordi (s : string) : regex := seqOf chi (lit s).

Fixpoint alts (l : list regex) : regex :=
  match l with
  | [] => Chr (fun _ => false)
  | [r] => r
  | r :: l' => Alt r (alts l')
  end.

Definition digit : regex := Chr isDigit.               (* \d *)
Definition space : regex := Chr isSpace.               (* \s *)
Definition nonSpace : regex := Chr (fun c => negb (isSpace c)).  (* [^\s] *)
Definition alpha : regex := Chr isAlpha.               (* [A-Za-z], also under i *)
Definition dot : regex := Chr (fun c => negb (isLineTerminator c)).  (* . *)

(** Captures: group number to the half-open span of the match. *)
Definition caps := list (nat * (nat * nat)).

Fixpoint getCap (n : nat) (c : caps) : option (nat * nat) :=
  match c with
  | [] => None
  | (m, sp) :: c' => if Nat.eqb n m then Some sp else getCap n c'
  end.

Section Matcher.
Variable R : Type.

(** The loop of a greedy [a*]: [step] matches one more [a]; an iteration
    that consumes nothing is rejected, as in ECMAScript. *)
Fixpoint starLoop (step : nat -> jstr -> caps -> (nat -> jstr -> caps -> option R) -> option R)
         (k : nat -> jstr -> caps -> option R)
         (fuel : nat) (pos : nat) (rest : jstr) (c : caps) : option R :=
  match fuel with
  | O => k pos rest c
  | S fuel' =>
      match step pos rest c
                 (fun pos' rest' c' =>
                    if Nat.eqb pos' pos then None
                    else starLoop step k fuel' pos' rest' c') with
      | Some x => Some x
      | None => k pos rest c
      end
  end.

(** Backtracking matcher in continuation-passing style: [pos] is the
    index of the next unit, [rest] the input from there on. *)
Fixpoint run (r : regex) (pos : nat) (rest : jstr) (c : caps)
         (k : nat -> jstr -> caps -> option R) {struct r} : option R :=
  match r with
  | Eps => k pos rest c
  | Chr p =>
      match rest with
      | x :: rest' => if p x then k (S pos) rest' c else None
      | [] => None
      end
  | Seq a b => run a pos rest c (fun pos' rest' c' => run b pos' rest' c' k)
  | Alt a b =>
      match run a pos rest c k with
      | Some x => Some x
      | None => run b pos rest c k
      end
  | Star a => starLoop (run a) k (length rest) pos rest c
  | Grp n a =>
      run a pos rest c (fun pos' rest' c' => k pos' rest' ((n, (pos, pos')) :: c'))
  | Bol => if Nat.eqb pos 0 then k pos rest c else None
  | Eol => match rest with [] => k pos rest c | _ :: _ => None end
  end.
End Matcher.

(** What a match is, apart from the order in which the matcher tries
    things: [matches r pos rest c pos' rest' c'] when [r] can consume the
    input from [pos] to [pos'], taking the captures from [c] to [c']. *)
Inductive matches : regex -> nat -> jstr -> caps -> nat -> jstr -> caps -> Prop :=
| MEps pos rest c : matches Eps pos rest c pos rest c
| MChr (p : N -> bool) x pos rest c :
    p x = true -> matches (Chr p) pos (x :: rest) c (S pos) rest c
| MSeq a b pos rest c pos1 rest1 c1 pos2 rest2 c2 :
    matches a pos rest c pos1 rest1 c1 ->
    matches b pos1 rest1 c1 pos2 rest2 c2 ->
    matches (Seq a b) pos rest c pos2 rest2 c2
| MAltL a b pos rest c pos1 rest1 c1 :
    matches a pos rest c pos1 rest1 c1 -> matches (Alt a b) pos rest c pos1 rest1 c1
| MAltR a b pos rest c pos1 rest1 c1 :
    matches b pos rest c pos1 rest1 c1 -> matches (Alt a b) pos rest c pos1 rest1 c1
| MStarStop a pos rest c : matches (Star a) pos rest c pos rest c
| MStarStep a pos rest c pos1 rest1 c1 pos2 rest2 c2 :
    matches a pos rest c pos1 rest1 c1 ->
    pos1 <> pos ->
    matches (Star a) pos1 rest1 c1 pos2 rest2 c2 ->
    matches (Star a) pos rest c pos2 rest2 c2
| MGrp n a pos rest c pos1 rest1 c1 :
    matches a pos rest c pos1 rest1 c1 ->
    matches (Grp n a) pos rest c pos1 rest1 ((n, (pos, pos1)) :: c1)
| MBol rest c : matches Bol 0 rest c 0 rest c
| MEol pos c : matches Eol pos [] c pos [] c.

(** A match: where it starts and ends, and its captures. *)
Record matched : Type := { mstart : nat; mend : nat; mcaps : caps }.

(** The matcher anchored at [pos] (what [split] and the sticky search use). *)
Definition matchAt (r : regex) (pos : nat) (rest : jstr) : option matched :=
  run r pos rest [] (fun pos' _ c => Some {| mstart := pos; mend := pos'; mcaps := c |}).

(** Leftmost match at or after [pos]. *)
Fixpoint searchFrom (r : regex) (pos : nat) (rest : jstr) : option matched :=
  match matchAt r pos rest with
  | Some m => Some m
  | None =>
      match rest with
      | [] => None
      | _ :: rest' => searchFrom r (S pos) rest'
      end
  end.

(** [regex.exec(s)] / [s.match(regex)] without [g]. *)
Definition exec (r : regex) (s : jstr) : option matched := searchFrom r 0 s.

(** [regex.test(s)]. *)
Definition test (r : regex) (s : jstr) : bool :=
  match exec r s with Some _ => true | None => false end.

(** [m[0]] and [m[n]]; an unset group is [undefined]. *)
Definition whole (s : jstr) (m : matched) : jstr := substr (mstart m) (mend m) s.
Definition group (n : nat) (s : jstr) (m : matched) : option jstr :=
  match getCap n (mcaps m) with
  | Some (i, j) => Some (substr i j s)
  | None => None
  end.

(** [s.match(regex)?.[0]], also the first element under [g]. *)
Definition firstMatch (r : regex) (s : jstr) : option jstr :=
  match exec r s with Some m => Some (whole s m) | None => None end.

(** All matches of [s.match(/.../g)], left to right; an empty match
    advances by one unit. *)
Fixpoint allFrom (fuel : nat) (r : regex) (s : jstr) (pos : nat) : list matched :=
  match fuel with
  | O => []
  | S fuel' =>
      match searchFrom r pos (skipn pos s) with
      | None => []
      | Some m =>
          m :: allFrom fuel' r s (if Nat.eqb (mend m) (mstart m) then S (mend m) else mend m)
      end
  end.

Definition matchAll (r : regex) (s : jstr) : list matched :=
  allFrom (S (length s)) r s 0.

(** [s.match(/.../g)]: [None] is [null]. *)
Definition matchG (r : regex) (s : jstr) : option (list jstr) :=
  match matchAll r s with
  | [] => None
  | ms => Some (List.map (whole s) ms)
  end.

(** [s.replace(regex, '')] without [g]. *)
Definition removeFirst (r : regex) (s : jstr) : jstr :=
  match exec r s with
  | Some m => firstn (mstart m) s ++ skipn (mend m) s
  | None => s
  end.

(** [s.replace(/.../g, '')]. *)
Fixpoint removeSpans (ms : list matched) (s : jstr) (pos : nat) : jstr :=
  match ms with
  | [] => skipn pos s
  | m :: ms' => substr pos (mstart m) s ++ removeSpans ms' s (mend m)
  end.

Definition removeAll (r : regex) (s : jstr) : jstr :=
  removeSpans (matchAll r s) s 0.

(** [s.split(regex)] for a pattern without capturing groups
    (SplitMatcher at [q]; a match ending at [p] is skipped). *)
Fixpoint splitLoop (fuel : nat) (r : regex) (s : jstr) (p q : nat) : list jstr :=
  match fuel with
  | O => [skipn p s]
  | S fuel' =>
      if Nat.ltb q (length s) then
        match matchAt r q (skipn q s) with
        | None => splitLoop fuel' r s p (S q)
        | Some m =>
            let e := Nat.min (mend m) (length s) in
            if Nat.eqb e p then splitLoop fuel' r s p (S q)
            else substr p q s :: splitLoop fuel' r s e e
        end
      else [skipn p s]
  end.

Definition split (r : regex) (s : jstr) : list jstr :=
  match s with
  | [] => match matchAt r 0 [] with Some _ => [] | None => [[]] end
  | _ => splitLoop (S (2 * length s)) r s 0 0
  end.

End Regex.

Import Regex.

(** [seqs [a; b; c]] is the concatenation [abc]. *)
Fixpoint seqs (l : list regex) : regex :=
  match l with
  | [] => Eps
  | [r] => r
  | r :: l' => Seq r (seqs l')
  end.

(** Code unit of an ASCII character of a pattern. *)
Definition cu (a : ascii) : N := N_of_ascii a.

(* ------------------------------------------------------------------ *)
(** ** What lies outside the repository *)

(** chrono-node and fuzzball are dependencies, and the case mapping of
    non-ASCII text is a table of the JavaScript runtime.  A [Date] is its
    time value, milliseconds since the epoch; chrono returns a valid date
    or [null] ([None]).  A parsed result of [chrono.parse] is kept as its
    [start?.date()], [None] when [start] is undefined. *)
Class Env : Type := {
  chrono_parseDate : jstr -> option Z;
  chrono_parse : jstr -> list (option Z);
  fuzz_ratio : jstr -> jstr -> Z;
  fuzz_token_set_ratio : jstr -> jstr -> Z;
  unicodeLower : jstr -> jstr;
  unicodeUpper : jstr -> jstr
}.

(** The clock of a run: the instant that [new Date()] would return, in
    milliseconds since the epoch, and how far local time is ahead of UTC,
    in minutes.  The repository never reads it; chrono does, because
    [chrono.parseDate(token)] and [chrono.parse(text)] are called without
    a reference date.  The libraries of a run are an [Env] that depends on
    the clock of that run. *)
Record Clock : Type := { instant : Z; zoneOffset : Z }.

Section CaseMapping.
Context {E : Env}.

(** [s.toLowerCase()] and [s.toUpperCase()]: the ASCII letters are
    mapped here, a string with a non-ASCII unit goes to the runtime's
    table. *)
Definition toLowerCase (s : jstr) : jstr :=
  if forallb isAscii s then List.map lowerAscii s else unicodeLower s.

Definition toUpperCase (s : jstr) : jstr :=
  if forallb isAscii s then List.map upperAscii s else unicodeUpper s.
End CaseMapping.

(* ------------------------------------------------------------------ *)
(** ** Date.prototype.toISOString *)

Module IsoDate.
Open Scope Z_scope.

Definition msPerDay : Z := 86400000.

(** Exactly [w] decimal digits of [z], most significant first. *)
Fixpoint digits (w : nat) (z : Z) (acc : jstr) : jstr :=
  match w with
  | O => acc
  | S w' => digits w' (z / 10) (Z.to_N (48 + z mod 10) :: acc)
  end.

(** Year, month and day of a day number counted from 1970-01-01
    (proleptic Gregorian calendar). *)
Definition civil (days : Z) : Z * Z * Z :=
  let z := days + 719468 in
  let era := z / 146097 in
  let doe := z - era * 146097 in
  let yoe := (doe - doe / 1460 + doe / 36524 - doe / 146096) / 365 in
  let doy := doe - (365 * yoe + yoe / 4 - yoe / 100) in
  let mp := (5 * doy + 2) / 153 in
  let d := doy - (153 * mp + 2) / 5 + 1 in
  let m := if mp <? 10 then mp + 3 else mp - 9 in
  let y := yoe + era * 400 + (if m <=? 2 then 1 else 0) in
  (y, m, d).

Definition yearDigits (y : Z) : jstr :=
  if (0 <=? y) && (y <=? 9999) then digits 4 y []
  else if y <? 0 then cu "-" :: digits 6 (- y) []
  else cu "+" :: digits 6 y [].

(** [new Date(t).toISOString()] for a valid time value [t]. *)
Definition toISOString (t : Z) : jstr :=
  let '(y, m, d) := civil (t / msPerDay) in
  let ms := t mod msPerDay in
  yearDigits y ++ [cu "-"] ++ digits 2 m [] ++ [cu "-"] ++ digits 2 d []
  ++ [cu "T"] ++ digits 2 (ms / 3600000) [] ++ [cu ":"]
  ++ digits 2 (ms / 60000 mod 60) [] ++ [cu ":"]
  ++ digits 2 (ms / 1000 mod 60) [] ++ [cu "."]
  ++ digits 3 (ms mod 1000) [] ++ [cu "Z"].

(** [date.toISOString().split('T')[0]]. *)
Definition isoDay (t : Z) : jstr := hd [] (splitOn [cu "T"] (toISOString t)).

End IsoDate.

(* ------------------------------------------------------------------ *)
(** ** The data model shared by the parsers *)

Inductive SectionType : Type :=
| summary | education | experience | articleship | skills
| projects | certifications | languages | hobbies.

Definition SectionType_eqb (a b : SectionType) : bool :=
  match a, b with
  | summary, summary | education, education | experience, experience
  | articleship, articleship | skills, skills | projects, projects
  | certifications, certifications | languages, languages
  | hobbies, hobbies => true
  | _, _ => false
  end.

(** A detected section: [endIndex] is filled in after the scan. *)
Record Section_ : Type := {
  type : SectionType;
  startIndex : nat;
  header : jstr;
  endIndex : nat
}.

Record DateRange : Type := { startDate : jstr; endDate : jstr }.

(** [location] exists in resumeParser2.js only, [cgpa] only when found. *)
Record Experience : Type := {
  company : jstr;
  position : jstr;
  location : option jstr;
  expStart : jstr;
  expEnd : jstr;
  overview : list jstr
}.

Record Education : Type := {
  institution : jstr;
  degree : jstr;
  fieldOfStudy : jstr;
  eduStart : jstr;
  eduEnd : jstr;
  cgpa : option jstr
}.

Record Project : Type := {
  title : jstr;
  description : list jstr;
  technologies : jstr;
  link : jstr
}.

Record Certification : Type := { name : jstr; issuer : jstr; date : jstr }.

Record Contact : Type := {
  email : jstr; phone : jstr; linkedin : jstr; github : jstr
}.

(** A value of a field of the resume object. *)
Inductive field : Type :=
| FStr : jstr -> field
| FStrs : list jstr -> field
| FEdu : list Education -> field
| FExp : list Experience -> field
| FProj : list Project -> field
| FCert : list Certification -> field.

(** The resume object: its keys in insertion order. *)
Definition resume := list (string * field).

Fixpoint get (k : string) (r : resume) : option field :=
  match r with
  | [] => None
  | (k', v) :: r' => if String.eqb k k' then Some v else get k r'
  end.

(** [Array.isArray(v) && v.length === 0]. *)
Definition isEmptyArray (v : field) : bool :=
  match v with
  | FStr _ => false
  | FStrs l => Nat.eqb (length l) 0
  | FEdu l => Nat.eqb (length l) 0
  | FExp l => Nat.eqb (length l) 0
  | FProj l => Nat.eqb (length l) 0
  | FCert l => Nat.eqb (length l) 0
  end.

(** [typeof v === 'string' && v.trim() === '']. *)
Definition isBlankString (v : field) : bool :=
  match v with
  | FStr s => Js.eqb (trim s) []
  | _ => false
  end.

(** The strings of a list-valued field, [[]] for anything else. *)
Definition strings (o : option field) : list jstr :=
  match o with Some (FStrs l) => l | _ => [] end.

(** Patterns that the three files share. *)
Module Pat.

Definition dash : regex :=
  Chr (fun c => N.eqb c enDash || N.eqb c (cu "-") || N.eqb c emDash).

(** [[A-Za-z]{3,9}\s+\d{4}] *)
Definition monthYear : regex := seqs [Rep 3 9 alpha; Plus space; Times 4 digit].

(** [/[a-zA-Z0-9._%+-]+@[a-zA-Z0-9.-]+\.[a-zA-Z]{2,}/g] *)
Definition emailRegex : regex :=
  seqs [Plus (Chr (fun c => isAlpha c || isDigit c || existsb (N.eqb c) (lit "._%+-")));
        ch (cu "@");
        Plus (Chr (fun c => isAlpha c || isDigit c || existsb (N.eqb c) (lit ".-")));
        ch (cu ".");
        AtLeast 2 alpha].

Definition dashOrSpace : regex := Chr (fun c => N.eqb c (cu "-") || isSpace c).

(** [/\+91[-\s]?[6-9]\d{9}|\+\d{1,3}[-\s]?\d{8,15}/g] *)
Definition phoneRegex : regex :=
  Alt (seqs [word "+91"; Opt dashOrSpace; Chr (inRange 54 57); Times 9 digit])
      (seqs [ch (cu "+"); Rep 1 3 digit; Opt dashOrSpace; Rep 8 15 digit]).

(** [[^\s|\]]+] *)
Definition urlTail : regex :=
  Plus (Chr (fun c => negb (isSpace c || N.eqb c (cu "|") || N.eqb c (cu "]")))).

(** [/(?:https?:\/\/)?(?:www\.)?linkedin\.com\/[^\s|\]]+/gi] *)
Definition siteRegex (host : string) : regex :=
  seqs [Opt (seqs [wordi "http"; Opt (chi (cu "s")); wordi "://"]);
        Opt (wordi "www.");
        wordi host;
        urlTail].

Definition linkedinRegex : regex := siteRegex "linkedin.com/".
Definition githubRegex : regex := siteRegex "github.com/".

(** [/([A-Za-z]{3,9}\s+\d{4})\s*[–\-—]\s*([A-Za-z]{3,9}\s+\d{4}|Present|Current)/i] *)
Definition dateRangePattern : regex :=
  seqs [Grp 1 monthYear; Star space; dash; Star space;
        Grp 2 (alts [monthYear; wordi "Present"; wordi "Current"])].

(** [/([A-Za-z]{3,9}\s+\d{4})/i] *)
Definition singleDatePattern : regex := Grp 1 monthYear.

(** [B\.?Tech] and the like under [i]. *)
Definition dotted (a : ascii) (rest : string) : regex :=
  seqs [chi (cu a); Opt (ch (cu ".")); wordi rest].

(** [B\.?Tech|Bachelor|Master|M\.?Tech|B\.?Sc|M\.?Sc|B\.?A|M\.?A|BBA|MBA|ACA] *)
Definition degreeWords : list regex :=
  [dotted "B" "Tech"; wordi "Bachelor"; wordi "Master"; dotted "M" "Tech";
   dotted "B" "Sc"; dotted "M" "Sc"; dotted "B" "A"; dotted "M" "A";
   wordi "BBA"; wordi "MBA"; wordi "ACA"].

(** [/(Computer Science|Engineering|Commerce|Arts|Science|Management|Accounting)/i] *)
Definition fieldPattern : regex :=
  Grp 1 (alts [wordi "Computer Science"; wordi "Engineering"; wordi "Commerce";
               wordi "Arts"; wordi "Science"; wordi "Management"; wordi "Accounting"]).

(** [/CGPA\s*:?\s*([\d.]+)/i] *)
Definition cgpaPattern : regex :=
  seqs [wordi "CGPA"; Star space; Opt (ch (cu ":")); Star space;
        Grp 1 (Plus (Chr (fun c => isDigit c || N.eqb c (cu "."))))].

(** [/\r?\n/] *)
Definition newline : regex := Seq (Opt (ch 13)) (ch 10).

(** [/\s+/] *)
Definition spaces : regex := Plus space.

(** [/[,|]+/] and [/[,|•]+/] *)
Definition commaBar : regex :=
  Plus (Chr (fun c => N.eqb c (cu ",") || N.eqb c (cu "|"))).
Definition commaBarBullet : regex :=
  Plus (Chr (fun c => N.eqb c (cu ",") || N.eqb c (cu "|") || N.eqb c bullet)).

(** [/GitHub[^\s]*/i] and [/Live[^\s]*/i] *)
Definition githubMark : regex := Seq (wordi "GitHub") (Star nonSpace).
Definition liveMark : regex := Seq (wordi "Live") (Star nonSpace).

(** [/^•\s*/] *)
Definition leadingBullet : regex := seqs [Bol; ch bullet; Star space].

(** [/\./g] *)
Definition anyDot : regex := ch (cu ".").

End Pat.

(** [text.split(/\r?\n/).map(l => l.trim()).filter(Boolean)]: the line
    normalizer every entry point starts with. *)
Definition normalize (text : jstr) : list jstr :=
  filter nonEmpty (List.map trim (Regex.split Pat.newline text)).

(** [x?.[0] || empty]: the first match, or the empty string. *)
Definition firstOrEmpty (r : regex) (text : jstr) : jstr :=
  orEmpty (firstMatch r text).

(** The contact extractor, identical in part_000 and resumeParser2.js. *)
Definition extractContactInfo (text : jstr) : Contact :=
  {| email := firstOrEmpty Pat.emailRegex text;
     phone := firstOrEmpty Pat.phoneRegex text;
     linkedin := firstOrEmpty Pat.linkedinRegex text;
     github := firstOrEmpty Pat.githubRegex text |}.

(** [date ? date.toISOString().split('T')[0] : empty]. *)
Definition isoOrEmpty (d : option Z) : jstr :=
  match d with Some t => IsoDate.isoDay t | None => [] end.

(* ------------------------------------------------------------------ *)
(** ** part_000, first program: section boundaries and pruning assembler *)

Module Strict.
Section WithEnv.
Context {E : Env}.

Definition sectionKeywords : list (SectionType * list jstr) :=
  [ (summary, List.map lit ["summary"; "profile"; "about"; "objective"; "career objective";
                       "job objective"; "profile summary"; "professional summary"]%string);
    (education, List.map lit ["education"; "academic"; "qualification";
                         "educational background"; "academic background"]%string);
    (experience, List.map lit ["experience"; "work experience"; "employment";
                          "professional experience"; "career history"; "work history"]%string);
    (articleship, List.map lit ["articleship"; "article assistant"; "training"; "internship"]%string);
    (skills, List.map lit ["skills"; "technical skills"; "core competencies"; "competencies";
                      "technologies"; "expertise"]%string);
    (projects, List.map lit ["projects"; "key projects"; "notable projects";
                        "project experience"]%string);
    (certifications, List.map lit ["certifications"; "certificates"; "awards"; "accolades";
                              "achievements"; "honors"; "achievement";
                              "position of responsibility"]%string);
    (languages, List.map lit ["languages"; "language"; "spoken languages"; "language known"]%string);
    (hobbies, List.map lit ["hobbies"; "interests"; "personal interests"; "activities"]%string) ].

(** The test of one keyword against the lowered line. *)
Definition qualifies (line keyword : jstr) : bool :=
  Js.eqb line keyword
  || (includes keyword line && Nat.leb (length line) (length keyword + 10))
  || Z.gtb (fuzz_ratio line keyword) 85.

(** The inner loop over the keywords of one section type: it pushes
    once, at the first keyword that qualifies, and breaks. *)
Fixpoint scanKeywords (mk : Section_) (line : jstr) (keywords : list jstr) : list Section_ :=
  match keywords with
  | [] => []
  | keyword :: rest =>
      if qualifies line keyword then [mk] else scanKeywords mk line rest
  end.

(** The loop over [Object.entries(sectionKeywords)] for line [i]: the
    [break] leaves the keyword loop only, the next type is still tried. *)
Definition scanLine (i : nat) (raw : jstr) : list Section_ :=
  let line := toLowerCase (trim raw) in
  flat_map (fun '(sectionType, keywords) =>
              scanKeywords {| type := sectionType; startIndex := i;
                              header := trim raw; endIndex := 0 |} line keywords)
           sectionKeywords.

Fixpoint scanLines (i : nat) (lines : list jstr) : list Section_ :=
  match lines with
  | [] => []
  | raw :: rest => scanLine i raw ++ scanLines (S i) rest
  end.

(** The second loop: each end is the start of the next entry. *)
Fixpoint addEndIndices (total : nat) (sections : list Section_) : list Section_ :=
  match sections with
  | [] => []
  | s :: rest =>
      {| type := type s; startIndex := startIndex s; header := header s;
         endIndex := match rest with
                     | next :: _ => startIndex next
                     | [] => total
                     end |} :: addEndIndices total rest
  end.

Definition detectSectionBoundaries (lines : list jstr) : list Section_ :=
  addEndIndices (length lines) (scanLines 0 lines).

(** [lines[start+1 .. end-1]], trimmed, the empty ones left out. *)
Definition sliceContent (s : Section_) (lines : list jstr) : list jstr :=
  filter nonEmpty
    (List.map trim (firstn (endIndex s - S (startIndex s)) (skipn (S (startIndex s)) lines))).

Definition getSectionContent (sections : list Section_) (lines : list jstr)
           (sectionType : SectionType) : list jstr :=
  match find (fun s => SectionType_eqb (type s) sectionType) sections with
  | None => []
  | Some s => sliceContent s lines
  end.

(** [/[@+\d]|resume|cv|curriculum/i] *)
Definition notAName : regex :=
  alts [Chr (fun c => N.eqb c (cu "@") || N.eqb c (cu "+") || isDigit c);
        wordi "resume"; wordi "cv"; wordi "curriculum"].

(** [word.length > 0 && word[0] === word[0].toUpperCase()
     && word.slice(1) === word.slice(1).toLowerCase()] *)
Definition properCase (w : jstr) : bool :=
  match w with
  | [] => false
  | c :: rest => Js.eqb [c] (toUpperCase [c]) && Js.eqb rest (toLowerCase rest)
  end.

(** The body of the loop of [extractName] for one line: does it return? *)
Definition looksLikeName (line : jstr) : bool :=
  if Regex.test notAName line || Nat.ltb (length line) 3 || Nat.ltb 50 (length line)
  then false
  else
    let words := Regex.split Pat.spaces line in
    Nat.leb 2 (length words) && Nat.leb (length words) 4 && forallb properCase words.

Fixpoint firstName (window : list jstr) : option jstr :=
  match window with
  | [] => None
  | raw :: rest =>
      if looksLikeName (trim raw) then Some (trim raw) else firstName rest
  end.

Definition extractName (lines : list jstr) : jstr :=
  match firstName (firstn (Nat.min 5 (length lines)) lines) with
  | Some line => line
  | None => match lines with l0 :: _ => trim l0 | [] => [] end
  end.

(** [m[2].toLowerCase().includes('present') || ...includes('current')] *)
Definition isOpenEnd (token : jstr) : bool :=
  includes (lit "present") (toLowerCase token)
  || includes (lit "current") (toLowerCase token).

Definition extractDatesFromText (text : jstr) : DateRange :=
  match exec Pat.dateRangePattern text with
  | Some m =>
      let g1 := orEmpty (group 1 text m) in
      let g2 := orEmpty (group 2 text m) in
      {| startDate := isoOrEmpty (chrono_parseDate g1);
         endDate := if isOpenEnd g2 then lit "Present"
                    else isoOrEmpty (chrono_parseDate g2) |}
  | None =>
      match exec Pat.singleDatePattern text with
      | Some m =>
          {| startDate := isoOrEmpty (chrono_parseDate (orEmpty (group 1 text m)));
             endDate := [] |}
      | None => {| startDate := []; endDate := [] |}
      end
  end.

(** [/^[A-Z][a-z\s]+$/] *)
Definition headerLike : regex :=
  seqs [Bol; Chr isUpperAZ; Plus (Chr (fun c => isLowerAZ c || isSpace c)); Eol].

(** The loop state of [parseWorkExperience]. *)
Record ExpState : Type := {
  experiences : list Experience;
  currentExp : option Experience;
  collectingBullets : bool
}.

Definition pushBullet (e : Experience) (b : jstr) : Experience :=
  {| company := company e; position := position e; location := location e;
     expStart := expStart e; expEnd := expEnd e; overview := overview e ++ [b] |}.

Definition flush (st : ExpState) : list Experience :=
  match currentExp st with
  | Some e => experiences st ++ [e]
  | None => experiences st
  end.

(** One iteration, at index [i] of [lines].  The [location] computed by
    the source is never stored in the entry. *)
Definition expStep (lines : list jstr) (i : nat) (st : ExpState) : ExpState :=
  let line := trim (nth i lines []) in
  if Regex.test Pat.dateRangePattern line then
    let company := match i with O => [] | S j => trim (nth j lines []) end in
    let position :=
      if Nat.ltb (i + 1) (length lines) then
        let nextLine := trim (nth (i + 1) lines []) in
        if negb (startsWith [bullet] nextLine) && Nat.ltb 0 (length nextLine)
        then nextLine else []
      else [] in
    let dates := extractDatesFromText line in
    {| experiences := flush st;
       currentExp := Some {| company := company; position := position; location := None;
                             expStart := startDate dates; expEnd := endDate dates;
                             overview := [] |};
       collectingBullets := true |}
  else
    match collectingBullets st, currentExp st with
    | true, Some e =>
        if startsWith [bullet] line then
          {| experiences := experiences st;
             currentExp := Some (pushBullet e (trim (substring 1 line)));
             collectingBullets := true |}
        else if Nat.ltb 0 (length line) && negb (Regex.test headerLike line) then
          if Nat.ltb 0 (length (overview e)) then
            {| experiences := experiences st;
               currentExp := Some (pushBullet e line);
               collectingBullets := true |}
          else st
        else if Regex.test headerLike line && Nat.ltb (length line) 30 then
          {| experiences := experiences st; currentExp := currentExp st;
             collectingBullets := false |}
        else st
    | _, _ => st
    end.

Definition expLoop (lines : list jstr) : ExpState :=
  fold_left (fun st i => expStep lines i st) (seq 0 (length lines))
            {| experiences := []; currentExp := None; collectingBullets := false |}.

Definition parseWorkExperience (lines : list jstr) : list Experience :=
  flush (expLoop lines).

(** [/B\.?Tech|Bachelor|...|ACA/i] *)
Definition degreePattern : regex := alts Pat.degreeWords.

(** [/\d{4}/g] and [/\d{4}.*/] *)
Definition yearPattern : regex := Times 4 digit.
Definition yearToEnd : regex := Seq (Times 4 digit) (Star dot).

(** [years && years.length >= 2 ? years[k] + suffix : empty] *)
Definition yearField (years : option (list jstr)) (k : nat) (suffix : string) : jstr :=
  match years with
  | Some ys => if Nat.leb 2 (length ys) then nth k ys [] ++ lit suffix else []
  | None => []
  end.

Definition educationEntry (line : jstr) : Education :=
  let years := matchG yearPattern line in
  let degreeMatch := firstMatch degreePattern line in
  let fieldMatch := firstMatch Pat.fieldPattern line in
  let institution0 := trim (hd [] (Regex.split degreePattern line)) in
  let institution :=
    match institution0 with
    | [] => trim (removeFirst yearToEnd (removeFirst degreePattern line))
    | _ => institution0
    end in
  let cgpaMatch := exec Pat.cgpaPattern line in
  {| institution := orStr (Some institution) (trim line);
     degree := match degreeMatch with
               | Some d => removeAll Pat.anyDot d
               | None => []
               end;
     fieldOfStudy := orEmpty fieldMatch;
     eduStart := yearField years 0 "-01-01";
     eduEnd := yearField years 1 "-12-31";
     cgpa := match cgpaMatch with
             | Some m => group 1 line m
             | None => None
             end |}.

Definition parseEducation (lines : list jstr) : list Education :=
  List.map educationEntry (filter (Regex.test degreePattern) lines).

(** [/^([^:]+):\s*(.+)$/] *)
Definition categoryPattern : regex :=
  seqs [Bol; Grp 1 (Plus (Chr (fun c => negb (N.eqb c (cu ":"))))); ch (cu ":");
        Star space; Grp 2 (Plus dot); Eol].

Definition skillsOfLine (line : jstr) : list jstr :=
  match exec categoryPattern line with
  | Some m =>
      filter (fun s => Nat.ltb 0 (length s))
             (List.map trim (Regex.split Pat.commaBar (orEmpty (group 2 line m))))
  | None =>
      filter (fun s => Nat.ltb 0 (length s) && Nat.ltb (length s) 50)
             (List.map trim (Regex.split Pat.commaBarBullet line))
  end.

Definition parseSkills (lines : list jstr) : list jstr :=
  dedup (flat_map skillsOfLine lines).

(** [parts[1] ? parts[1].trim() : empty] *)
Definition secondPart (parts : list jstr) : jstr :=
  match nth_error parts 1 with
  | Some (c :: p) => trim (c :: p)
  | _ => []
  end.

Definition isProjectTitle (line : jstr) : bool :=
  includes (lit "|") line || includes (lit "GitHub") line || includes (lit "Live") line
  || (Regex.test (Seq Bol (Chr isUpperAZ)) line && negb (startsWith [bullet] line)).

Definition newProject (line : jstr) : Project :=
  let parts := splitOn (lit "|") line in
  {| title := trim (hd [] parts);
     description := [];
     technologies := secondPart parts;
     link := orStr (firstMatch Pat.githubMark line)
                   (orStr (firstMatch Pat.liveMark line) []) |}.

Definition addDescription (p : Project) (b : jstr) : Project :=
  {| title := title p; description := description p ++ [b];
     technologies := technologies p; link := link p |}.

(** The loop state of [parseProjects]: the array and [currentProject]. *)
Definition projStep (st : list Project * option Project) (raw : jstr)
  : list Project * option Project :=
  let line := trim raw in
  let '(done, current) := st in
  if isProjectTitle line then
    (match current with Some p => done ++ [p] | None => done end,
     Some (newProject line))
  else
    match current with
    | Some p =>
        if startsWith [bullet] line
        then (done, Some (addDescription p (trim (substring 1 line))))
        else st
    | None => st
    end.

Definition parseProjects (lines : list jstr) : list Project :=
  let '(done, current) := fold_left projStep lines ([], None) in
  match current with Some p => done ++ [p] | None => done end.

Definition certificationOf (line : jstr) : list Certification :=
  if startsWith [bullet] line || Nat.ltb 10 (length (trim line)) then
    let cleanLine := trim (removeFirst Pat.leadingBullet line) in
    if Nat.ltb 0 (length cleanLine)
    then [{| name := cleanLine; issuer := []; date := [] |}]
    else []
  else [].

Definition parseCertifications (lines : list jstr) : list Certification :=
  flat_map certificationOf lines.

Definition extractJobRoles (workExperience : list Experience) : list jstr :=
  List.map trim
    (filter (fun p => nonEmpty p && Nat.ltb 0 (length (trim p)))
            (List.map position workExperience)).

(** [content.join(' ').split(/[,|]+/).map(x => x.trim()).filter(Boolean)] *)
Definition splitList (content : list jstr) : list jstr :=
  filter nonEmpty (List.map trim (Regex.split Pat.commaBar (join (lit " ") content))).

(** The object literal of [parseResume], before the clean-up. *)
Definition assemble (text : jstr) : resume :=
  let lines := normalize text in
  let sections := detectSectionBoundaries lines in
  let contactInfo := extractContactInfo text in
  let content := getSectionContent sections lines in
  let workExperience := parseWorkExperience (content experience) in
  [ ("name", FStr (extractName lines));
    ("email", FStr (email contactInfo));
    ("phone", FStr (phone contactInfo));
    ("address", FStr []);
    ("summary", FStr (join (lit " ") (content summary)));
    ("linkedin", FStr (linkedin contactInfo));
    ("jobRole", FStrs (extractJobRoles workExperience));
    ("education", FEdu (parseEducation (content education)));
    ("workExperience", FExp workExperience);
    ("skills", FStrs (parseSkills (content skills)));
    ("projects", FProj (parseProjects (content projects)));
    ("certifications", FCert (parseCertifications (content certifications)));
    ("languages", FStrs (splitList (content languages)));
    ("hobbies", FStrs (splitList (content hobbies))) ]%string.

(** [Object.keys(resume).forEach(key => ... delete resume[key])] *)
Definition cleanUp (r : resume) : resume :=
  filter (fun kv => negb (isEmptyArray (snd kv) || isBlankString (snd kv))) r.

Definition parseResume (text : jstr) : resume := cleanUp (assemble text).

End WithEnv.
End Strict.

(* ------------------------------------------------------------------ *)
(** ** part_000, second program: the chrono/fuzzball prototype

    Its section slicer and its date extractor; the assembler of this
    program calls the [compromise] package for the name and is not part
    of what follows. *)

Module Simple.
Section WithEnv.
Context {E : Env}.

Definition sectionMatch (line section : jstr) : bool :=
  Z.gtb (fuzz_token_set_ratio (toLowerCase line) (toLowerCase section)) 80.

(** The loop once [found] is set: stop at a line that matches one of the
    keywords passed in, or at an empty line. *)
Fixpoint collect (sectionKeywords : list jstr) (lines : list jstr) : list jstr :=
  match lines with
  | [] => []
  | line :: rest =>
      if existsb (sectionMatch line) sectionKeywords || Nat.eqb (length line) 0
      then []
      else line :: collect sectionKeywords rest
  end.

(** The loop while [found] is false. *)
Fixpoint extractSection (lines : list jstr) (sectionKeywords : list jstr) : list jstr :=
  match lines with
  | [] => []
  | line :: rest =>
      if existsb (sectionMatch line) sectionKeywords
      then collect sectionKeywords rest
      else extractSection rest sectionKeywords
  end.

(** The fields of this extractor can be [undefined] ([None]): the
    source reads [results[k].start?.date()]. *)
Record Dates : Type := { startOf : option jstr; endOf : option jstr }.

Definition extractDates (text : jstr) : Dates :=
  match chrono_parse text with
  | r0 :: r1 :: _ =>
      {| startOf := option_map IsoDate.isoDay r0;
         endOf := option_map IsoDate.isoDay r1 |}
  | [r0] => {| startOf := option_map IsoDate.isoDay r0; endOf := Some [] |}
  | [] => {| startOf := Some []; endOf := Some [] |}
  end.

End WithEnv.
End Simple.

(* ------------------------------------------------------------------ *)
(** ** resumeParser2.js: primary and secondary approach *)

Module Enhanced.
Section WithEnv.
Context {E : Env}.

Definition sectionKeywords : list (SectionType * list jstr) :=
  [ (summary, List.map lit ["summary"; "profile"; "about"; "objective"; "career objective";
                       "job objective"; "profile summary"; "professional summary"]%string);
    (education, List.map lit ["education"; "academic"; "qualification";
                         "educational background"; "academic background"]%string);
    (experience, List.map lit ["experience"; "work experience"; "employment";
                          "professional experience"; "career history"; "work history"]%string);
    (articleship, List.map lit ["articleship"; "article assistant"; "training"; "internship"]%string);
    (skills, List.map lit ["skills"; "technical skills"; "core competencies"; "competencies";
                      "technologies"; "expertise"]%string);
    (projects, List.map lit ["projects"; "key projects"; "notable projects";
                        "project experience"]%string);
    (certifications, List.map lit ["certifications"; "certificates"; "awards"; "accolades";
                              "achievements"; "honors"; "achievement";
                              "position of responsibility";
                              "achievements & position of responsibilities"]%string);
    (languages, List.map lit ["languages"; "language"; "spoken languages"; "language known"]%string);
    (hobbies, List.map lit ["hobbies"; "interests"; "personal interests"; "activities"]%string) ].

Definition isExactMatch (line keyword : jstr) : bool := Js.eqb line keyword.
Definition isCloseMatch (line keyword : jstr) : bool :=
  includes keyword line && Nat.leb (length line) (length keyword + 15).
Definition isFuzzyMatch (line keyword : jstr) : bool :=
  Z.gtb (fuzz_ratio line keyword) 90.

Definition qualifies (line keyword : jstr) : bool :=
  isExactMatch line keyword || isCloseMatch line keyword || isFuzzyMatch line keyword.

(** The keyword loop of one section type: one push, then [break]. *)
Fixpoint scanKeywords (mk : Section_) (line : jstr) (keywords : list jstr) : list Section_ :=
  match keywords with
  | [] => []
  | keyword :: rest =>
      if qualifies line keyword then [mk] else scanKeywords mk line rest
  end.

(** [line.length < 3 || line.startsWith('•') || line.match(/^\d/)] *)
Definition skipped (line : jstr) : bool :=
  Nat.ltb (length line) 3 || startsWith [bullet] line || Regex.test (Seq Bol digit) line.

Definition scanLine (i : nat) (raw : jstr) : list Section_ :=
  let line := toLowerCase (trim raw) in
  if skipped line then []
  else
    flat_map (fun '(sectionType, keywords) =>
                scanKeywords {| type := sectionType; startIndex := i;
                                header := trim raw; endIndex := 0 |} line keywords)
             sectionKeywords.

Fixpoint scanLines (i : nat) (lines : list jstr) : list Section_ :=
  match lines with
  | [] => []
  | raw :: rest => scanLine i raw ++ scanLines (S i) rest
  end.

(** [sections.sort((a, b) => a.startIndex - b.startIndex)], stable. *)
Fixpoint insertByStart (s : Section_) (sorted : list Section_) : list Section_ :=
  match sorted with
  | [] => [s]
  | t :: rest =>
      if Nat.ltb (startIndex s) (startIndex t) then s :: sorted
      else t :: insertByStart s rest
  end.

Definition sortByStart (sections : list Section_) : list Section_ :=
  fold_left (fun acc s => insertByStart s acc) sections [].

Fixpoint addEndIndices (total : nat) (sections : list Section_) : list Section_ :=
  match sections with
  | [] => []
  | s :: rest =>
      {| type := type s; startIndex := startIndex s; header := header s;
         endIndex := match rest with
                     | next :: _ => startIndex next
                     | [] => total
                     end |} :: addEndIndices total rest
  end.

Definition detectSections (lines : list jstr) : list Section_ :=
  addEndIndices (length lines) (sortByStart (scanLines 0 lines)).

(** The four patterns of [extractDateRange], in the order tried. *)
Definition patterns : list regex :=
  [ seqs [Grp 1 Pat.monthYear; Star space; Pat.dash; Star space;
          Grp 2 (alts [wordi "Present"; wordi "Current"; wordi "Ongoing"])];
    seqs [Grp 1 Pat.monthYear; Star space; Pat.dash; Star space; Grp 2 Pat.monthYear];
    seqs [Grp 1 (Times 4 digit); Star space; Pat.dash; Star space; Grp 2 (Times 4 digit)];
    seqs [Grp 1 Pat.monthYear; Star space; Pat.dash; Star space; Grp 2 Pat.monthYear] ].

(** [match[2] && (...includes('present') || ...('current') || ...('ongoing'))] *)
Definition isOpenEnd (g2 : option jstr) : bool :=
  match g2 with
  | Some (c :: t) =>
      let low := toLowerCase (c :: t) in
      includes (lit "present") low || includes (lit "current") low
      || includes (lit "ongoing") low
  | _ => false
  end.

(** [chrono.parseDate(match[k])]; no group of the patterns is optional. *)
Definition resolve (g : option jstr) : option Z :=
  match g with Some token => chrono_parseDate token | None => None end.

Definition rangeOf (text : jstr) (m : matched) : DateRange :=
  {| startDate := isoOrEmpty (resolve (group 1 text m));
     endDate := if isOpenEnd (group 2 text m) then lit "Present"
                else isoOrEmpty (resolve (group 2 text m)) |}.

Fixpoint firstPattern (ps : list regex) (text : jstr) : DateRange :=
  match ps with
  | [] => {| startDate := []; endDate := [] |}
  | pattern :: rest =>
      match exec pattern text with
      | Some m => rangeOf text m
      | None => firstPattern rest text
      end
  end.

Definition extractDateRange (text : jstr) : DateRange := firstPattern patterns text.

(** A boundary of the secondary approach, and the raw section built
    from it. *)
Record Boundary : Type := { bname : jstr; index : nat; originalName : jstr }.
Record RawSection : Type := { rheader : jstr; content : list jstr; rawText : jstr }.

Definition commonSections : list jstr :=
  List.map lit ["experience"; "education"; "skills"; "projects"; "achievements";
           "certifications"]%string.

(** The loop over [commonSections] for one line: first hit, then [break]. *)
Fixpoint boundaryOf (i : nat) (raw line : jstr) (sections : list jstr) : list Boundary :=
  match sections with
  | [] => []
  | section :: rest =>
      if includes section line && Nat.ltb (length line) (length section + 20)
      then [{| bname := section; index := i; originalName := raw |}]
      else boundaryOf i raw line rest
  end.

Fixpoint boundaries (i : nat) (lines : list jstr) : list Boundary :=
  match lines with
  | [] => []
  | raw :: rest => boundaryOf i raw (toLowerCase raw) commonSections ++ boundaries (S i) rest
  end.

(** [rawSections[section.name] = ...] for each boundary in turn: a later
    boundary of the same name overwrites the earlier one. *)
Fixpoint fillRaw (lines : list jstr) (bs : list Boundary) (acc : list (jstr * RawSection))
  : list (jstr * RawSection) :=
  match bs with
  | [] => acc
  | b :: rest =>
      let startIdx := index b + 1 in
      let endIdx := match rest with next :: _ => index next | [] => length lines end in
      let slice := firstn (endIdx - startIdx) (skipn startIdx lines) in
      fillRaw lines rest
              ((bname b, {| rheader := originalName b; content := slice;
                            rawText := join [10%N] slice |})
                 :: filter (fun kv => negb (Js.eqb (fst kv) (bname b))) acc)
  end.

Definition extractRawSections (text : jstr) : list (jstr * RawSection) :=
  let lines := normalize text in
  fillRaw lines (boundaries 0 lines) [].

(** [rawSections.experience] and the like; [None] is [undefined]. *)
Fixpoint rawSection (nm : string) (rs : list (jstr * RawSection)) : option RawSection :=
  match rs with
  | [] => None
  | (k, v) :: rest => if Js.eqb k (lit nm) then Some v else rawSection nm rest
  end.

(** [while (i < lines.length && lines[i].startsWith('•')) bullets.push(...)]:
    the bullets and what is left. *)
Fixpoint takeBullets (rest : list jstr) : list jstr * list jstr :=
  match rest with
  | raw :: tl =>
      if startsWith [bullet] raw then
        let '(bs, others) := takeBullets tl in (trim (substring 1 raw) :: bs, others)
      else ([], rest)
  | [] => ([], [])
  end.

(** Position and location after a confirmed date line. *)
Definition takeTitle (after : list jstr) : jstr * jstr * list jstr :=
  match after with
  | p :: a1 =>
      if negb (startsWith [bullet] p) then
        match a1 with
        | q :: a2 =>
            if negb (startsWith [bullet] q) && Nat.ltb (length (trim q)) 30
            then (trim p, trim q, a2)
            else (trim p, [], a1)
        | [] => (trim p, [], a1)
        end
      else ([], [], after)
  | [] => ([], [], after)
  end.

(** [line && !line.startsWith('•') && !line.match(/\d{4}/) && line.length > 2] *)
Definition companyLike (line : jstr) : bool :=
  nonEmpty line && negb (startsWith [bullet] line)
  && negb (Regex.test (Times 4 digit) line) && Nat.ltb 2 (length line).

(** The [while] loop of [parseRawExperience] on the lines from [i] on;
    every turn moves [i] forward, so [fuel] = number of lines suffices. *)
Fixpoint rawExperience (fuel : nat) (rest : list jstr) : list Experience :=
  match fuel with
  | O => []
  | S fuel' =>
      match rest with
      | [] => []
      | raw :: tl =>
          let line := trim raw in
          match tl with
          | next :: after =>
              if companyLike line && Regex.test Pat.dateRangePattern (trim next) then
                let '(position, location, after2) := takeTitle after in
                let '(bullets, after3) := takeBullets after2 in
                let dates := extractDateRange (trim next) in
                {| company := line; position := position; location := Some location;
                   expStart := startDate dates; expEnd := endDate dates;
                   overview := bullets |} :: rawExperience fuel' after3
              else rawExperience fuel' tl
          | [] => rawExperience fuel' tl
          end
      end
  end.

Definition parseRawExperience (lines : list jstr) : list Experience :=
  rawExperience (length lines) lines.

(** [/B\.?Tech|...|ACA|University|College/i], the line filter, and
    [/(B\.?Tech|...|ACA)/i], the degree itself. *)
Definition degreePattern : regex :=
  alts (Pat.degreeWords ++ [wordi "University"; wordi "College"]).
Definition degreeOnly : regex := Grp 1 (alts Pat.degreeWords).

(** [/(\d{4})\s*[–\-—]\s*(\d{4})/] *)
Definition yearPattern : regex :=
  seqs [Grp 1 (Times 4 digit); Star space; Pat.dash; Star space; Grp 2 (Times 4 digit)].

(** [s.replace(sub, '')] with a string pattern: its first occurrence. *)
Definition removeSubstring (sub s : jstr) : jstr :=
  match indexOf sub s with
  | Some i => firstn i s ++ skipn (i + length sub) s
  | None => s
  end.

Definition rawEducationEntry (line : jstr) : Education :=
  let yearMatch := exec yearPattern line in
  let degreeMatch := firstMatch degreeOnly line in
  let fieldMatch := firstMatch Pat.fieldPattern line in
  let cgpaMatch := exec Pat.cgpaPattern line in
  let institution1 :=
    match degreeMatch with
    | Some d => trim (hd [] (splitOn d line))
    | None => line
    end in
  let institution2 :=
    match yearMatch with
    | Some m => trim (removeSubstring (whole line m) institution1)
    | None => institution1
    end in
  {| institution := orStr (Some institution2) (trim line);
     degree := match degreeMatch with
               | Some d => removeAll Pat.anyDot d
               | None => []
               end;
     fieldOfStudy := orEmpty fieldMatch;
     eduStart := match yearMatch with
                 | Some m => orEmpty (group 1 line m) ++ lit "-01-01"
                 | None => []
                 end;
     eduEnd := match yearMatch with
               | Some m => orEmpty (group 2 line m) ++ lit "-12-31"
               | None => []
               end;
     cgpa := match cgpaMatch with
             | Some m => group 1 line m
             | None => None
             end |}.

Definition parseRawEducation (lines : list jstr) : list Education :=
  List.map rawEducationEntry
      (filter (fun line => negb (Nat.eqb (length (trim line)) 0)
                           && Regex.test degreePattern line) lines).

(** [parts[1] ? parts[1].trim() : empty] *)
Definition secondPart (parts : list jstr) : jstr :=
  match nth_error parts 1 with
  | Some (c :: p) => trim (c :: p)
  | _ => []
  end.

(** [/GitHub[^\s]*|Live[^\s]*/gi] *)
Definition linkMarks : regex := Alt Pat.githubMark Pat.liveMark.

Definition rawProject (line : jstr) (bullets : list jstr) : Project :=
  let parts := splitOn (lit "|") line in
  let technologies := secondPart parts in
  {| title := trim (hd [] parts);
     description := bullets;
     technologies := trim (removeAll linkMarks technologies);
     link := orStr (firstMatch Pat.githubMark technologies)
                   (orStr (firstMatch Pat.liveMark technologies) []) |}.

Fixpoint rawProjects (fuel : nat) (rest : list jstr) : list Project :=
  match fuel with
  | O => []
  | S fuel' =>
      match rest with
      | [] => []
      | raw :: tl =>
          let line := trim raw in
          if includes (lit "|") line && negb (startsWith [bullet] line) then
            let '(bullets, after) := takeBullets tl in
            rawProject line bullets :: rawProjects fuel' after
          else rawProjects fuel' tl
      end
  end.

Definition parseRawProjects (lines : list jstr) : list Project :=
  rawProjects (length lines) lines.

(** [/[@+\d]|resume|cv/i] *)
Definition notAName : regex :=
  alts [Chr (fun c => N.eqb c (cu "@") || N.eqb c (cu "+") || isDigit c);
        wordi "resume"; wordi "cv"].

(** [w[0] === w[0].toUpperCase()].  A token of a trimmed line is never
    empty; on an empty one the source would throw. *)
Definition startsUpper (w : jstr) : bool :=
  match w with
  | [] => false
  | c :: _ => Js.eqb [c] (toUpperCase [c])
  end.

(** The predicate handed to [lines.find]. *)
Definition looksLikeName (line : jstr) : bool :=
  let words := Regex.split Pat.spaces line in
  Nat.leb 2 (length words) && Nat.leb (length words) 4
  && negb (Regex.test notAName line)
  && forallb startsUpper words.

(** [lines.find(...) || lines[0] || empty] *)
Definition findName (lines : list jstr) : jstr :=
  orStr (find looksLikeName lines) (orStr (nth_error lines 0) []).

(** [s.split(/[,|•]+/).map(s => s.trim()).filter(s => s.length > 1 && s.length < 50)] *)
Definition skillList (s : jstr) : list jstr :=
  filter (fun s => Nat.ltb 1 (length s) && Nat.ltb (length s) 50)
         (List.map trim (Regex.split Pat.commaBarBullet s)).

Definition certificationOf (line : jstr) : list Certification :=
  if startsWith [bullet] line || Nat.ltb 10 (length (trim line))
  then [{| name := trim (removeFirst Pat.leadingBullet line); issuer := []; date := [] |}]
  else [].

Definition jobRolesOf (workExperience : list Experience) : list jstr :=
  filter (fun pos => nonEmpty pos && Nat.ltb 0 (length (trim pos)))
         (List.map position workExperience).

(** The object both approaches return. *)
Definition record (name_ : jstr) (contactInfo : Contact) (workExperience : list Experience)
           (education_ : list Education) (skills_ : list jstr) (projects_ : list Project)
           (certifications_ : list Certification) : resume :=
  [ ("name", FStr name_);
    ("email", FStr (email contactInfo));
    ("phone", FStr (phone contactInfo));
    ("address", FStr []);
    ("summary", FStr []);
    ("linkedin", FStr (linkedin contactInfo));
    ("jobRole", FStrs (jobRolesOf workExperience));
    ("education", FEdu education_);
    ("workExperience", FExp workExperience);
    ("skills", FStrs (dedup skills_));
    ("projects", FProj projects_);
    ("certifications", FCert certifications_);
    ("languages", FStrs []);
    ("hobbies", FStrs []) ]%string.

(** [/\n|:/] *)
Definition newlineOrColon : regex := Alt (ch 10) (ch (cu ":")).

(** The skills loop of the secondary approach. *)
Definition secondarySkills (rs : list (jstr * RawSection)) : list jstr :=
  match rawSection "skills" rs with
  | Some sec =>
      flat_map (fun line => if nonEmpty (trim line) then skillList line else [])
               (Regex.split newlineOrColon (rawText sec))
  | None => []
  end.

(** [(achievements?.rawText || empty) + (certifications?.rawText || empty)],
    split into its non-blank lines. *)
Definition secondaryCertifications (rs : list (jstr * RawSection)) : list Certification :=
  match rawSection "achievements" rs, rawSection "certifications" rs with
  | None, None => []
  | a, c =>
      let achievementsText :=
        orEmpty (option_map rawText a) ++ orEmpty (option_map rawText c) in
      flat_map certificationOf
               (filter (fun line => nonEmpty (trim line))
                       (splitOn [10%N] achievementsText))
  end.

Definition parseResumeSecondaryApproach (text : jstr) : resume :=
  let lines := normalize text in
  let contactInfo := extractContactInfo text in
  let rawSections := extractRawSections text in
  let sectionContent nm :=
    match rawSection nm rawSections with Some sec => Some (content sec) | None => None end in
  record (findName lines) contactInfo
         (match sectionContent "experience"%string with
          | Some c => parseRawExperience c | None => [] end)
         (match sectionContent "education"%string with
          | Some c => parseRawEducation c | None => [] end)
         (secondarySkills rawSections)
         (match sectionContent "projects"%string with
          | Some c => parseRawProjects c | None => [] end)
         (secondaryCertifications rawSections).

(** [getSectionLines] of the primary approach. *)
Definition getSectionLines (sections : list Section_) (lines : list jstr)
           (sectionType : SectionType) : list jstr :=
  match find (fun s => SectionType_eqb (type s) sectionType) sections with
  | None => []
  | Some section =>
      filter (fun line => nonEmpty (trim line))
             (firstn (endIndex section - S (startIndex section))
                     (skipn (S (startIndex section)) lines))
  end.

(** The skills loop of the primary approach: the text after the first
    colon of the line, when there is one. *)
Definition primarySkillsOfLine (line : jstr) : list jstr :=
  let skillText :=
    match indexOf (lit ":") line with
    | Some colonIndex => substring (colonIndex + 1) line
    | None => line
    end in
  skillList skillText.

Definition primarySkills (skillsLines : list jstr) : list jstr :=
  flat_map primarySkillsOfLine skillsLines.

Definition parseResume (text : jstr) : resume :=
  let lines := normalize text in
  let sections := detectSections lines in
  let contactInfo := extractContactInfo text in
  let sectionLines := getSectionLines sections lines in
  record (findName lines) contactInfo
         (parseRawExperience (sectionLines experience))
         (parseRawEducation (sectionLines education))
         (primarySkills (sectionLines skills))
         (parseRawProjects (sectionLines projects))
         (flat_map certificationOf (sectionLines certifications)).

End WithEnv.
End Enhanced.

(* ------------------------------------------------------------------ *)
(** ** The date extractors with their exceptions

    The three date extractors once more, this time with what JavaScript
    does where the definitions above read a value without asking: a method
    call on [undefined] is a [TypeError], and [toISOString] on an Invalid
    Date is a [RangeError].  A date object is truthy whether it is valid or
    not, so the test [date ? ... : empty] guards against [null] only. *)

Module Throwing.

Inductive error : Type := TypeError | RangeError.

Inductive outcome (A : Type) : Type :=
| Returns (a : A)
| Throws (e : error).
Arguments Returns {A} a.
Arguments Throws {A} e.

Definition bind {A B : Type} (x : outcome A) (f : A -> outcome B) : outcome B :=
  match x with
  | Returns a => f a
  | Throws e => Throws e
  end.

Local Notation "x <- e1 ;; e2" := (bind e1 (fun x => e2))
  (at level 61, e1 at next level, right associativity).

(** The time value of a valid date lies within 8.64e15 ms of the epoch;
    a date object outside of that is an Invalid Date. *)
Definition validTime (t : Z) : bool :=
  (Z.leb (-8640000000000000) t && Z.leb t 8640000000000000)%Z.

(** [date.toISOString().split('T')[0]] *)
Definition isoDay (t : Z) : outcome jstr :=
  if validTime t then Returns (IsoDate.isoDay t) else Throws RangeError.

(** [date ? date.toISOString().split('T')[0] : empty] *)
Definition isoOrEmpty (d : option Z) : outcome jstr :=
  match d with
  | Some t => isoDay t
  | None => Returns []
  end.

(** A capture group that is read as a string ([m[k].toLowerCase()]) or
    handed to chrono: an unset group is counted as a [TypeError]. *)
Definition defined (g : option jstr) : outcome jstr :=
  match g with
  | Some token => Returns token
  | None => Throws TypeError
  end.

Section WithEnv.
Context {E : Env}.

(** part_000, [extractDatesFromText]. *)
Definition extractDatesFromText (text : jstr) : outcome DateRange :=
  match exec Pat.dateRangePattern text with
  | Some m =>
      g1 <- defined (group 1 text m) ;;
      g2 <- defined (group 2 text m) ;;
      s <- isoOrEmpty (chrono_parseDate g1) ;;
      e <- (if Strict.isOpenEnd g2 then Returns (lit "Present")
            else isoOrEmpty (chrono_parseDate g2)) ;;
      Returns {| startDate := s; endDate := e |}
  | None =>
      match exec Pat.singleDatePattern text with
      | Some m =>
          g1 <- defined (group 1 text m) ;;
          s <- isoOrEmpty (chrono_parseDate g1) ;;
          Returns {| startDate := s; endDate := [] |}
      | None => Returns {| startDate := []; endDate := [] |}
      end
  end.

(** resumeParser2.js, [extractDateRange]: the body of the loop for the
    pattern that matched, and the loop. *)
Definition rangeOf (text : jstr) (m : matched) : outcome DateRange :=
  g1 <- defined (group 1 text m) ;;
  s <- isoOrEmpty (chrono_parseDate g1) ;;
  e <- (if Enhanced.isOpenEnd (group 2 text m) then Returns (lit "Present")
        else g2 <- defined (group 2 text m) ;; isoOrEmpty (chrono_parseDate g2)) ;;
  Returns {| startDate := s; endDate := e |}.

Fixpoint firstPattern (ps : list regex) (text : jstr) : outcome DateRange :=
  match ps with
  | [] => Returns {| startDate := []; endDate := [] |}
  | pattern :: rest =>
      match exec pattern text with
      | Some m => rangeOf text m
      | None => firstPattern rest text
      end
  end.

Definition extractDateRange (text : jstr) : outcome DateRange :=
  firstPattern Enhanced.patterns text.

(** part_000, second program, [extractDates]:
    [results[k].start?.date().toISOString().split("T")[0]]. *)
Definition dayOf (r : option Z) : outcome (option jstr) :=
  match r with
  | Some t => d <- isoDay t ;; Returns (Some d)
  | None => Returns None
  end.

Definition extractDates (text : jstr) : outcome Simple.Dates :=
  match chrono_parse text with
  | r0 :: r1 :: _ =>
      s <- dayOf r0 ;;
      e <- dayOf r1 ;;
      Returns {| Simple.startOf := s; Simple.endOf := e |}
  | [r0] =>
      s <- dayOf r0 ;;
      Returns {| Simple.startOf := s; Simple.endOf := Some [] |}
  | [] => Returns {| Simple.startOf := Some []; Simple.endOf := Some [] |}
  end.

End WithEnv.
End Throwing.

(* ------------------------------------------------------------------ *)
(** ** A stand-in for the libraries *)

Module Standin.
Open Scope Z_scope.

(** Day number of a civil date, the inverse of [IsoDate.civil]. *)
Definition daysFromCivil (y m d : Z) : Z :=
  let y' := if m <=? 2 then y - 1 else y in
  let era := y' / 400 in
  let yoe := y' - era * 400 in
  let doy := (153 * (if 2 <? m then m - 3 else m + 9) + 2) / 5 + d - 1 in
  let doe := yoe * 365 + yoe / 4 - yoe / 100 + doy in
  era * 146097 + doe - 719468.

Definition months : list (jstr * Z) :=
  [ (lit "jan", 1); (lit "feb", 2); (lit "mar", 3); (lit "apr", 4); (lit "may", 5);
    (lit "jun", 6); (lit "jul", 7); (lit "aug", 8); (lit "sep", 9); (lit "oct", 10);
    (lit "nov", 11); (lit "dec", 12) ].

Fixpoint monthOf (w : jstr) (table : list (jstr * Z)) : option Z :=
  match table with
  | [] => None
  | (k, m) :: rest => if Js.eqb k w then Some m else monthOf w rest
  end.

Definition decimal (s : jstr) : Z :=
  fold_left (fun acc c => 10 * acc + (Z.of_N c - 48)) s 0.

Definition monthYearToken : regex :=
  seqs [Bol; Grp 1 (Rep 3 9 alpha); Plus space; Grp 2 (Times 4 digit); Eol].

(** Modelled from the spec: the date parser of chrono-node, as far as
    section 4.3 and Example 1 of section 8 describe it.  A Month Year token
    is resolved to the first day of that month (Jan 2023 gives 2023-01-01),
    at noon, in a process whose time zone is UTC; a token that is not a
    month name followed by a year is not a date. *)
Definition parseMonthYear (token : jstr) : option Z :=
  match exec monthYearToken token with
  | Some m =>
      match monthOf (List.map lowerAscii (firstn 3 (orEmpty (group 1 token m)))) months with
      | Some mo =>
          Some (daysFromCivil (decimal (orEmpty (group 2 token m))) mo 1 * IsoDate.msPerDay
                + 12 * 3600000)
      | None => None
      end
  | None => None
  end.

(** Modelled from the spec: [chrono.parse], the dates found in a text, here
    at most the one Month Year token the text contains. *)
Definition parseAll (text : jstr) : list (option Z) :=
  match exec Pat.singleDatePattern text with
  | Some m =>
      match parseMonthYear (whole text m) with
      | Some t => [Some t]
      | None => []
      end
  | None => []
  end.

(** Modelled from the spec: the fuzzy similarity score of fuzzball on its
    0 to 100 scale, here only its two ends: 100 on equal strings, 0 on
    different ones. *)
Definition score (a b : jstr) : Z := if Js.eqb a b then 100 else 0.

Definition env : Env :=
  {| chrono_parseDate := parseMonthYear;
     chrono_parse := parseAll;
     fuzz_ratio := score;
     fuzz_token_set_ratio := score;
     unicodeLower := fun s => s;
     unicodeUpper := fun s => s |}.

(** Modelled from the spec: the same parsers in a run whose local time is
    [zoneOffset] minutes ahead of UTC.  The noon of a Month Year token is
    the noon of the local clock, so its time value is that much earlier
    than noon UTC; the instant of the run plays no part in such a token. *)
Definition parseMonthYearAt (c : Clock) (token : jstr) : option Z :=
  option_map (fun t => t - zoneOffset c * 60000) (parseMonthYear token).

Definition parseAllAt (c : Clock) (text : jstr) : list (option Z) :=
  List.map (option_map (fun t => t - zoneOffset c * 60000)) (parseAll text).

Definition envAt (c : Clock) : Env :=
  {| chrono_parseDate := parseMonthYearAt c;
     chrono_parse := parseAllAt c;
     fuzz_ratio := score;
     fuzz_token_set_ratio := score;
     unicodeLower := fun s => s;
     unicodeUpper := fun s => s |}.

End Standin.

(* ------------------------------------------------------------------ *)
(** ** The vocabulary of the properties *)

(** A text, given by its lines. *)
Definition text_of_lines (l : list string) : jstr := join [10%N] (List.map lit l).

(** A string that does not begin with white space. *)
Definition clean (s : jstr) : Prop :=
  match s with
  | [] => True
  | c :: _ => isSpace c = false
  end.

(** What the filter of both skills loops lets through. *)
Definition skillSized (s : jstr) : Prop :=
  1 < length (trim s) /\ length (trim s) < 50.

(** Line [i] holds a date range: it opens an entry. *)
Definition isAnchor (lines : list jstr) (i : nat) : bool :=
  Regex.test Pat.dateRangePattern (trim (nth i lines [])).

(** The line before line [i], trimmed; the empty string before line 0. *)
Definition precedingLine (lines : list jstr) (i : nat) : jstr :=
  match i with
  | O => []
  | S j => trim (nth j lines [])
  end.

(** An empty string or an empty list. *)
Definition isEmptyValue (v : field) : bool :=
  match v with
  | FStr [] | FStrs [] | FEdu [] | FExp [] | FProj [] | FCert [] => true
  | _ => false
  end.

(** No field of the record is empty. *)
Definition sparse (r : resume) : Prop :=
  forall k v, In (k, v) r -> isEmptyValue v = false.

(** A line of an experience section: a range that ends in Ongoing, written
    with an en dash, and an earlier, closed range after it. *)
Definition ongoingLine : jstr :=
  lit "Jan 2023 " ++ [enDash] ++ lit " Ongoing, Feb 2020 - Mar 2021".

(** The content of an experience section with that line. *)
Definition ongoingJob : list jstr := [lit "Acme Corp"; ongoingLine; lit "Engineer"].

(** A resume with that section. *)
Definition ongoingResume : jstr :=
  join [10%N] ([lit "Jane Doe"; lit "Experience"] ++ ongoingJob).

(** The work experience of a resume record. *)
Definition experienceOf (r : resume) : list Experience :=
  match get "workExperience" r with
  | Some (FExp entries) => entries
  | _ => []
  end.

(** The units of an ISO date and time: digits, sign, and the separators
    of [toISOString]. *)
Definition isoUnit (x : N) : bool :=
  isDigit x || existsb (N.eqb x) (lit "-+T:.Z").

(** A span keeps its type and start when the ends are filled in. *)
Definition sameSpan (s t : Section_) : Prop :=
  type t = type s /\ startIndex t = startIndex s /\ header t = header s.

(** A document of one line, a header of the keyword table. *)
Definition projectExperience : list jstr := [lit "Project Experience"].

(** Line [i] is labelled twice: a span of type experience and a span of
    type projects both start there. *)
Definition doubleLabelled (sections : list Section_) (i : nat) : Prop :=
  exists s1 s2,
    In s1 sections /\ In s2 sections
    /\ startIndex s1 = i /\ startIndex s2 = i
    /\ type s1 = experience /\ type s2 = projects.

(** Seven lines, the first six of one token each; the only line with two
    to four capitalised tokens is the seventh. *)
Definition lateName : jstr :=
  text_of_lines ["john.doe@example.com"; "linkedin.com/in/johndoe"; "Portfolio";
                 "Summary"; "Engineer"; "Skills"; "Software Engineer"]%string.

(** Two lines, the second in capitals. *)
Definition shouting : jstr := text_of_lines ["resume"; "JOHN DOE"]%string.

(** The keyword lists the prototype passes for its summary and education
    sections, and a document with these two sections. *)
Definition summaryKeywords : list jstr := List.map lit ["summary"; "profile"; "about"]%string.

Definition educationKeywords : list jstr := List.map lit ["education"; "academics"]%string.

Definition twoSections : list jstr :=
  List.map lit ["Summary"; "Builds compilers"; "Education"; "State University"]%string.

(** The fuzzy matcher takes [hdr], and no other line of [lines], for a
    header of the section with keywords [kws]. *)
Definition recognises {E : Env} (kws : list jstr) (hdr : jstr) (lines : list jstr) : Prop :=
  Forall (fun line => existsb (Simple.sectionMatch line) kws = Js.eqb line hdr) lines.

(** A skills line with a label. *)
Definition labelled : jstr := lit "Languages: C++, Python, Go".

(** Every unit of [w] is in the class [p]. *)
Definition allOf (p : N -> bool) (w : jstr) : Prop := Forall (fun x => p x = true) w.

(** A month-and-year token: three to nine letters, white space, four digits. *)
Definition isMonthYear (w : jstr) : Prop :=
  exists letters spaces digits,
    w = letters ++ spaces ++ digits
    /\ 3 <= length letters <= 9 /\ allOf isAlpha letters
    /\ spaces <> [] /\ allOf isSpace spaces
    /\ length digits = 4 /\ allOf isDigit digits.

(** En dash, hyphen or em dash. *)
Definition isDash (d : N) : Prop := d = enDash \/ d = cu "-" \/ d = emDash.

(** Present, Current or Ongoing, in any letter case. *)
Definition sentinel (tok : jstr) : Prop :=
  List.map lowerAscii tok = lit "present"
  \/ List.map lowerAscii tok = lit "current"
  \/ List.map lowerAscii tok = lit "ongoing".

(** A date range whose end token is one of the sentinel words. *)
Definition openRange (w : jstr) : Prop :=
  exists my ws1 d ws2 tok,
    w = my ++ ws1 ++ d :: ws2 ++ tok
    /\ isMonthYear my /\ allOf isSpace ws1 /\ isDash d /\ allOf isSpace ws2
    /\ sentinel tok.

(** The fragment contains such a range. *)
Definition containsOpenRange (text : jstr) : Prop :=
  exists pre w post, text = pre ++ w ++ post /\ openRange w.

(** The first pattern of [extractDateRange]. *)
Definition openPattern : regex :=
  seqs [Grp 1 Pat.monthYear; Star space; Pat.dash; Star space;
        Grp 2 (alts [wordi "Present"; wordi "Current"; wordi "Ongoing"])].

(** Its second group. *)
Definition sentinelWords : regex :=
  alts [wordi "Present"; wordi "Current"; wordi "Ongoing"].

(** Spans in the order of their lines. *)
Definition byStart (a b : Section_) : Prop := startIndex a <= startIndex b.

(** No span of [sections] starts strictly inside the span [s]. *)
Definition isolated (sections : list Section_) (s : Section_) : Prop :=
  forall t, In t sections -> ~ (startIndex s < startIndex t < endIndex s).

(** A line of the content of [s]: it lies strictly between the header of
    [s] and its end. *)
Definition contentLine (lines : list jstr) (s : Section_) (c : jstr) : Prop :=
  exists i raw,
    startIndex s < i < endIndex s /\ nth_error lines i = Some raw /\ c = trim raw.

(** A digit, an at sign or a plus sign. *)
Definition forbiddenChar (c : N) : bool :=
  N.eqb c (cu "@") || N.eqb c (cu "+") || isDigit c.

(** The line holds the keyword, in any letter case. *)
Definition mentions (keyword : string) (line : jstr) : Prop :=
  exists pre tok post,
    line = pre ++ tok ++ post /\ List.map lowerAscii tok = List.map lowerAscii (lit keyword).

(** The class [[@+\d]] of the pattern that rules a line out as a name. *)
Definition notANameChar : regex :=
  Chr (fun c => N.eqb c (cu "@") || N.eqb c (cu "+") || isDigit c).

(** The keys of the resume object, in the order of the object literal. *)
Definition schemaKeys : list string :=
  ["name"; "email"; "phone"; "address"; "summary"; "linkedin"; "jobRole"; "education";
   "workExperience"; "skills"; "projects"; "certifications"; "languages"; "hobbies"]%string.

(** [l] is [m] with some elements left out. *)
Inductive subseq {A : Type} : list A -> list A -> Prop :=
| subseq_nil : subseq [] []
| subseq_keep x l m : subseq l m -> subseq (x :: l) (x :: m)
| subseq_drop x l m : subseq l m -> subseq l (x :: m).

(** A token as the skills parsers keep it: not empty, no white space at
    either end. *)
Definition trimmedToken (s : jstr) : Prop := s <> [] /\ trim s = s.

(** Each span ends where the next one starts, the last one at [total]. *)
Fixpoint chained (total : nat) (sections : list Section_) : Prop :=
  match sections with
  | [] => True
  | s :: rest =>
      endIndex s = match rest with t :: _ => startIndex t | [] => total end
      /\ chained total rest
  end.

(** A span of a document of [total] lines. *)
Definition inBounds (total : nat) (s : Section_) : Prop :=
  startIndex s < total /\ startIndex s <= endIndex s <= total.

(** The spans of a document are in line order, chained, and in bounds. *)
Definition wellFormedSpans (total : nat) (sections : list Section_) : Prop :=
  StronglySorted byStart sections /\ chained total sections
  /\ Forall (inBounds total) sections.

(** Boundaries on different lines, in line order. *)
Definition byIndex (a b : Enhanced.Boundary) : Prop := Enhanced.index a < Enhanced.index b.

(** The raw section that [extractRawSections] stores for the boundary [b]
    when the boundaries after it are [post]. *)
Definition rawSectionOf (lines : list jstr) (b : Enhanced.Boundary)
           (post : list Enhanced.Boundary) : Enhanced.RawSection :=
  let startIdx := Enhanced.index b + 1 in
  let endIdx := match post with next :: _ => Enhanced.index next | [] => length lines end in
  let slice := firstn (endIdx - startIdx) (skipn startIdx lines) in
  {| Enhanced.rheader := Enhanced.originalName b; Enhanced.content := slice;
     Enhanced.rawText := join [10%N] slice |}.

(** The line is a header for the prototype, which was given [kws]. *)
Definition headerFor {E : Env} (kws : list jstr) (line : jstr) : bool :=
  existsb (Simple.sectionMatch line) kws.

(** The line ends the block the prototype collects. *)
Definition stops {E : Env} (kws : list jstr) (line : jstr) : Prop :=
  headerFor kws line = true \/ line = [].

(** An entry of the loose experience parser: its company passed the test
    of a company line and is a line of the section; its location, when a
    line was taken for it, is shorter than 30 units. *)
Definition looseEntry (lines : list jstr) (e : Experience) : Prop :=
  Enhanced.companyLike (company e) = true
  /\ (exists raw, In raw lines /\ company e = trim raw)
  /\ (exists loc, location e = Some loc /\ length loc < 30).

(** The title and the technologies hold no separator. *)
Definition separatorFree (p : Project) : Prop :=
  ~ In (cu "|") (title p) /\ ~ In (cu "|") (technologies p).

(** A certification as part_000 emits it. *)
Definition bareCertification (c : Certification) : Prop :=
  trimmedToken (name c) /\ issuer c = [] /\ date c = [].

(** [w] is a piece of [text]. *)
Definition occursIn (w text : jstr) : Prop := exists pre post, text = pre ++ w ++ post.

(** A contact field: empty, or a piece of the text with the property [P]. *)
Definition foundIn (text : jstr) (P : jstr -> Prop) (w : jstr) : Prop :=
  w = [] \/ (occursIn w text /\ P w).

(** A year as the patterns of the education parsers read it: four digits. *)
Definition isYear (w : jstr) : Prop := length w = 4 /\ allOf isDigit w.

(** Patterns without a capturing group. *)
Fixpoint capfree (r : regex) : bool :=
  match r with
  | Seq a b | Alt a b => capfree a && capfree b
  | Star a => capfree a
  | Grp _ _ => false
  | _ => true
  end.

(** The line after line [i] as the position of an entry: trimmed, and
    dropped when it is a bullet, blank or missing. *)
Definition followingLine (lines : list jstr) (i : nat) : jstr :=
  if Nat.ltb (i + 1) (length lines) then
    let nextLine := trim (nth (i + 1) lines []) in
    if negb (startsWith [bullet] nextLine) && Nat.ltb 0 (length nextLine)
    then nextLine else []
  else [].

(** The entry that the date-range line [i] opens, before any bullet is
    collected. *)
Definition entryAt {E : Env} (lines : list jstr) (i : nat) : Experience :=
  {| company := precedingLine lines i; position := followingLine lines i;
     location := None;
     expStart := startDate (Strict.extractDatesFromText (trim (nth i lines [])));
     expEnd := endDate (Strict.extractDatesFromText (trim (nth i lines [])));
     overview := [] |}.

(** The text of a bullet line. *)
Definition bulletText (raw : jstr) : jstr := trim (substring 1 (trim raw)).

(** A description is empty or opens with the text of a bullet line of
    [lines]. *)
Definition opensWithBullet (lines : list jstr) (e : Experience) : Prop :=
  overview e = []
  \/ (exists raw, In raw lines
                  /\ startsWith [bullet] (trim raw) = true
                  /\ hd_error (overview e) = Some (bulletText raw)).

(** The length of the longest prefix of [s] in the class [p]. *)
Fixpoint runLen (p : N -> bool) (s : jstr) : nat :=
  match s with
  | x :: t => if p x then S (runLen p t) else 0
  | [] => 0
  end.

(** Four digits at the head of [s]: the year, and what follows it. *)
Definition yearAtHead (s : jstr) : option (jstr * jstr) :=
  match s with
  | a :: b :: c :: d :: rest =>
      if isDigit a && isDigit b && isDigit c && isDigit d
      then Some ([a; b; c; d], rest) else None
  | _ => None
  end.

(** The first run of four digits of [s], read from the left, and what
    follows it. *)
Fixpoint nextYear (s : jstr) : option (jstr * jstr) :=
  match s with
  | [] => None
  | _ :: t =>
      match yearAtHead s with
      | Some found => Some found
      | None => nextYear t
      end
  end.

(** The year tokens of a line: runs of four digits that do not overlap,
    read from the left ([fuel] bounds their number). *)
Fixpoint yearsOf (fuel : nat) (s : jstr) : list jstr :=
  match fuel with
  | O => []
  | S fuel' =>
      match nextYear s with
      | Some (y, rest) => y :: yearsOf fuel' rest
      | None => []
      end
  end.

(** The first two year tokens of a line, when it has two. *)
Definition firstTwoYears (line : jstr) : option (jstr * jstr) :=
  match nextYear line with
  | Some (y0, rest) =>
      match nextYear rest with
      | Some (y1, _) => Some (y0, y1)
      | None => None
      end
  | None => None
  end.

(** En dash, hyphen or em dash, as a test. *)
Definition isDashUnit (d : N) : bool :=
  N.eqb d enDash || N.eqb d (cu "-") || N.eqb d emDash.

(** A year range at the head of [s]: four digits, white space if any, a
    dash, white space if any, four digits. *)
Definition yearRangeAtHead (s : jstr) : option (jstr * jstr) :=
  match yearAtHead s with
  | Some (y0, r) =>
      match trimStart r with
      | d :: r' =>
          if isDashUnit d then
            match yearAtHead (trimStart r') with
            | Some (y1, _) => Some (y0, y1)
            | None => None
            end
          else None
      | [] => None
      end
  | None => None
  end.

(** The first year range of a line, read from the left. *)
Fixpoint firstYearRange (s : jstr) : option (jstr * jstr) :=
  match s with
  | [] => None
  | _ :: t =>
      match yearRangeAtHead s with
      | Some found => Some found
      | None => firstYearRange t
      end
  end.

(** The dates of an education entry from two years: the first day of the
    one and the last day of the other; without them, two empty strings. *)
Definition yearDates (years : option (jstr * jstr)) : jstr * jstr :=
  match years with
  | Some (y0, y1) => (y0 ++ lit "-01-01", y1 ++ lit "-12-31")
  | None => ([], [])
  end.

(** The two dates of an entry. *)
Definition eduDates (e : Education) : jstr * jstr := (eduStart e, eduEnd e).

(** A resume with one job, dated by month and year. *)
Definition datedResume : jstr :=
  text_of_lines
    ["Jane Doe"; "Experience"; "Acme Corp"; "Jan 2023 - Mar 2024"; "Engineer"]%string.

(** On the lines of [text] the fuzzy score passes the threshold of a
    detector only for the keyword that the line is equal to.  (The
    thresholds are 85 in part_000 and 90 in resumeParser2.js.) *)
Definition fuzzyOnEqualOnly {E : Env} (text : jstr) : Prop :=
  Forall (fun raw => forall kw,
              (85 < fuzz_ratio (toLowerCase (trim raw)) kw)%Z ->
              toLowerCase (trim raw) = kw)
         (normalize text).

(** The libraries with a fuzzy score that passes no threshold. *)
Definition mute (E : Env) : Env :=
  {| chrono_parseDate := @chrono_parseDate E;
     chrono_parse := @chrono_parse E;
     fuzz_ratio := fun _ _ => 0%Z;
     fuzz_token_set_ratio := @fuzz_token_set_ratio E;
     unicodeLower := @unicodeLower E;
     unicodeUpper := @unicodeUpper E |}.

(** Two runs: at the same instant, one on a clock set to UTC and one on a
    clock fourteen hours ahead of it (Pacific/Kiritimati). *)
Definition utcRun : Clock := {| instant := 1793491200000; zoneOffset := 0 |}.
Definition kiritimatiRun : Clock := {| instant := 1793491200000; zoneOffset := 840 |}.

(** chrono as its interface describes it: what [parseDate] returns is
    [null] or a valid date, and every result of [parse] has its start, a
    valid date. *)
Definition chronoContract {E : Env} : Prop :=
  (forall token t, chrono_parseDate token = Some t -> Throwing.validTime t = true)
  /\ (forall text r, In r (chrono_parse text) ->
                     exists t, r = Some t /\ Throwing.validTime t = true).

(** A date field of the pattern-based extractors: the empty string, or
    the ISO day of a date that chrono returned for a token of the text. *)
Definition dateField {E : Env} (text v : jstr) : Prop :=
  v = []
  \/ exists token t,
      occursIn token text /\ chrono_parseDate token = Some t /\ v = IsoDate.isoDay t.

(** An end field may also be the sentinel. *)
Definition endField {E : Env} (text v : jstr) : Prop :=
  v = lit "Present" \/ dateField text v.

(** A date field of the prototype: the empty string, or the ISO day of a
    date that chrono found in the text. *)
Definition foundDate {E : Env} (text v : jstr) : Prop :=
  v = [] \/ exists t, In (Some t) (chrono_parse text) /\ v = IsoDate.isoDay t.

(** Every match of [r] sets the group [n]. *)
Fixpoint sets (n : nat) (r : regex) : bool :=
  match r with
  | Grp m a => Nat.eqb n m || sets n a
  | Seq a b => sets n a || sets n b
  | Alt a b => sets n a && sets n b
  | _ => false
  end.

(** The keywords that the prototype passes for the experience section,
    and a resume whose experience section has one line, with one date. *)
Definition experienceKeywords : list jstr := List.map lit ["experience"; "work"; "employment"]%string.
Definition oneDateLine : jstr := lit "Acme Corp, Jan 2023".
Definition oneDateResume : list jstr := [lit "Jane Doe"; lit "Experience"; oneDateLine].

(* ================================================================== *)
(** * Properties *)

(** ** The model on the examples of the specification *)

Example toISOString_epoch :
  IsoDate.toISOString 0 = lit "1970-01-01T00:00:00.000Z".
Proof. reflexivity. Qed.

Example isoDay_2023 : IsoDate.isoDay 1672574400000 = lit "2023-01-01".
Proof. reflexivity. Qed.

Example isoDay_leap : IsoDate.isoDay 1709251199999 = lit "2024-02-29".
Proof. reflexivity. Qed.

Example split_newlines :
  Regex.split (Seq (Opt (ch 13)) (ch 10)) (lit "ab" ++ [13%N; 10%N] ++ lit "c" ++ [10%N])
  = [lit "ab"; lit "c"; []].
Proof. reflexivity. Qed.

Example trim_example : trim (lit "  a b  ") = lit "a b".
Proof. reflexivity. Qed.

(** Example 1: a range that is still open. *)
Example example1_open_range :
  Enhanced.extractDateRange (E := Standin.env) (lit "Jan 2023 " ++ [enDash] ++ lit " Present")
  = {| startDate := lit "2023-01-01"; endDate := lit "Present" |}.
Proof. vm_compute. reflexivity. Qed.

(** Example 2: one education line. *)
Example example2_education :
  Strict.parseEducation (lit "B.Tech Computer Science 2018 2022 CGPA: 8.5" :: nil)
  = [ {| institution := lit "Computer Science";
         degree := lit "BTech"; fieldOfStudy := lit "Computer Science";
         eduStart := lit "2018-01-01"; eduEnd := lit "2022-12-31";
         cgpa := Some (lit "8.5") |} ].
Proof. vm_compute. reflexivity. Qed.

(** Example 3: a header directly followed by the next header. *)
Example example3_empty_section :
  let lines := List.map lit ["EDUCATION"; "SKILLS"]%string in
  Strict.getSectionContent
    (Strict.detectSectionBoundaries (E := Standin.env) lines) lines education = [].
Proof. reflexivity. Qed.

(** Example 5: the name is the title-cased line, not the e-mail line. *)
Example example5_name :
  Strict.extractName (E := Standin.env)
    (List.map lit ["jane@example.org"; "Jane Roe"; "Engineer"]%string)
  = lit "Jane Roe".
Proof. reflexivity. Qed.

(** A bullet of the first entry right before the second date range: it
    becomes the company of the second entry. *)
Example bullet_as_company {E : Env} :
  List.map company
      (Strict.parseWorkExperience
         [lit "Acme Corp"; lit "Jan 2020 - Mar 2021"; lit "Engineer";
          bullet :: lit " shipped the parser"; lit "Jun 2021 - Present"; lit "Lead"])
  = [lit "Acme Corp"; bullet :: lit " shipped the parser"].
Proof. reflexivity. Qed.

(** The pruned record of part_000 on a four-line text. *)
Example pruned_record :
  List.map fst
      (Strict.parseResume (E := Standin.env)
         (text_of_lines ["John Doe"; "john@x.org"; "Skills"; "C, Go"]%string))
  = ["name"; "email"; "skills"]%string.
Proof. reflexivity. Qed.

(* ------------------------------------------------------------------ *)
(** ** Strings: trimming and de-duplication *)

Lemma trimStart_clean (s : jstr) : clean (trimStart s).
Proof.
  induction s as [|c s IH]; simpl; [exact I|].
  destruct (isSpace c) eqn:Hc; [exact IH | exact Hc].
Qed.

Lemma trimStart_of_clean (s : jstr) : clean s -> trimStart s = s.
Proof.
  destruct s as [|c s]; simpl; [reflexivity|].
  intros ->. reflexivity.
Qed.

Lemma trimStart_suffix (s : jstr) : exists p, s = p ++ trimStart s.
Proof.
  induction s as [|c s [p Hp]]; simpl.
  - exists []. reflexivity.
  - destruct (isSpace c).
    + exists (c :: p). simpl. f_equal. exact Hp.
    + exists []. reflexivity.
Qed.

Lemma trim_clean_both (s : jstr) :
  clean (trim s) /\ clean (rev (trim s)).
Proof.
  unfold trim, trimEnd.
  set (t := trimStart s).
  assert (Ht : clean t) by apply trimStart_clean.
  set (u := trimStart (rev t)).
  assert (Hu : clean u) by apply trimStart_clean.
  rewrite rev_involutive. split; [|exact Hu].
  destruct (trimStart_suffix (rev t)) as [p Hp]. fold u in Hp.
  apply (f_equal (@rev N)) in Hp.
  rewrite rev_involutive, rev_app_distr in Hp.
  destruct (rev u) as [|c w]; [exact I|].
  rewrite Hp in Ht. exact Ht.
Qed.

Lemma trim_idempotent (s : jstr) : trim (trim s) = trim s.
Proof.
  destruct (trim_clean_both s) as [H1 H2].
  unfold trim at 1. unfold trimEnd.
  rewrite (trimStart_of_clean _ H1), (trimStart_of_clean _ H2).
  apply rev_involutive.
Qed.

Lemma dedupAux_incl (l seen : list jstr) (x : jstr) :
  In x (dedupAux seen l) -> In x l.
Proof.
  revert seen. induction l as [|y l IH]; intros seen; simpl; [tauto|].
  destruct (existsb (Js.eqb y) seen).
  - intros H. right. eauto.
  - intros [H|H]; [left; exact H | right; eauto].
Qed.

Lemma dedup_incl (l : list jstr) (x : jstr) : In x (dedup l) -> In x l.
Proof. apply dedupAux_incl. Qed.

(* ------------------------------------------------------------------ *)
(** ** The matcher against the relation [matches] *)

Section MatcherFacts.
Variable R : Type.

(** A match consumes a prefix of the input and counts its units. *)
Lemma matches_span r pos rest c pos' rest' c' :
  matches r pos rest c pos' rest' c' ->
  exists w, rest = w ++ rest' /\ pos' = pos + length w.
Proof.
  induction 1 as
      [pos rest c | p x pos rest c Hp
      | a b pos rest c pos1 rest1 c1 pos2 rest2 c2 _ [w1 [E1 P1]] _ [w2 [E2 P2]]
      | a b pos rest c pos1 rest1 c1 _ IH | a b pos rest c pos1 rest1 c1 _ IH
      | a pos rest c
      | a pos rest c pos1 rest1 c1 pos2 rest2 c2 _ [w1 [E1 P1]] _ _ [w2 [E2 P2]]
      | n a pos rest c pos1 rest1 c1 _ IH | rest c | pos c].
  - exists []. split; [reflexivity | simpl; lia].
  - exists [x]. split; [reflexivity | simpl; lia].
  - exists (w1 ++ w2). subst. rewrite <- app_assoc, length_app. split; [reflexivity | lia].
  - exact IH.
  - exact IH.
  - exists []. split; [reflexivity | simpl; lia].
  - exists (w1 ++ w2). subst. rewrite <- app_assoc, length_app. split; [reflexivity | lia].
  - exact IH.
  - exists []. split; [reflexivity | reflexivity].
  - exists []. split; [reflexivity | simpl; lia].
Qed.

(** Soundness: what the matcher hands to its continuation is a match. *)
Lemma run_sound (r : regex) :
  forall pos rest c (k : nat -> jstr -> caps -> option R) x,
    run r pos rest c k = Some x ->
    exists pos' rest' c', matches r pos rest c pos' rest' c' /\ k pos' rest' c' = Some x.
Proof.
  induction r as [|p|a IHa b IHb|a IHa b IHb|a IHa|n a IHa| |];
    intros pos rest c k x H; simpl in H.
  - exists pos, rest, c. split; [constructor | exact H].
  - destruct rest as [|y rest]; [discriminate|].
    destruct (p y) eqn:Hp; [|discriminate].
    exists (S pos), rest, c. split; [constructor; exact Hp | exact H].
  - apply IHa in H. destruct H as (p1 & r1 & c1 & M1 & H).
    apply IHb in H. destruct H as (p2 & r2 & c2 & M2 & H).
    exists p2, r2, c2. split; [econstructor; eassumption | exact H].
  - destruct (run a pos rest c k) eqn:Ha.
    + injection H as ->. apply IHa in Ha. destruct Ha as (p1 & r1 & c1 & M1 & H).
      exists p1, r1, c1. split; [apply MAltL; exact M1 | exact H].
    + apply IHb in H. destruct H as (p1 & r1 & c1 & M1 & H).
      exists p1, r1, c1. split; [apply MAltR; exact M1 | exact H].
  - remember (length rest) as fuel eqn:Hfuel. clear Hfuel.
    revert pos rest c x H.
    induction fuel as [|fuel IHf]; intros pos rest0 c x H; simpl in H.
    + exists pos, rest0, c. split; [constructor | exact H].
    + match type of H with
      | match ?t with _ => _ end = _ => destruct t eqn:Hstep
      end.
      * injection H as ->. apply IHa in Hstep.
        destruct Hstep as (p1 & r1 & c1 & M1 & H).
        destruct (Nat.eqb p1 pos) eqn:Hp; [discriminate|].
        apply Nat.eqb_neq in Hp.
        apply IHf in H. destruct H as (p2 & r2 & c2 & M2 & H).
        exists p2, r2, c2. split; [eapply MStarStep; eassumption | exact H].
      * exists pos, rest0, c. split; [constructor | exact H].
  - apply IHa in H. destruct H as (p1 & r1 & c1 & M1 & H).
    eexists _, _, _. split; [constructor; exact M1 | exact H].
  - destruct (Nat.eqb pos 0) eqn:Hp; [|discriminate].
    apply Nat.eqb_eq in Hp. subst.
    exists 0, rest, c. split; [constructor | exact H].
  - destruct rest; [|discriminate].
    exists pos, [], c. split; [constructor | exact H].
Qed.

(** The loop of [a*] succeeds as soon as a repetition exists, given that
    the matcher of [a] is complete and the fuel covers the input. *)
Lemma starLoop_complete (a : regex)
      (IHa : forall pos rest c pos' rest' c',
          matches a pos rest c pos' rest' c' ->
          forall (k : nat -> jstr -> caps -> option R) x,
            k pos' rest' c' = Some x -> exists y, run a pos rest c k = Some y)
      (k : nat -> jstr -> caps -> option R) sr pos rest c pos' rest' c' :
  matches sr pos rest c pos' rest' c' ->
  sr = Star a ->
  forall x, k pos' rest' c' = Some x ->
  forall fuel, length rest <= fuel ->
  exists y, starLoop (run a) k fuel pos rest c = Some y.
Proof.
  induction 1 as
      [| | | |
       | a0 pos rest c
       | a0 pos rest c pos1 rest1 c1 pos2 rest2 c2 M1 _ Hne M2 IH2
       | | |]; intros Hsr; try discriminate Hsr.
  - intros x Hk fuel _. destruct fuel as [|fuel]; simpl; [eauto|].
    match goal with
    | |- exists y, match ?t with _ => _ end = _ => destruct t
    end; eauto.
  - injection Hsr as ->. intros x Hk fuel Hfuel.
    destruct (matches_span M1) as [w [Hw Hpos]].
    assert (Hlen : length w <> 0) by (intros Hz; apply Hne; lia).
    subst rest. rewrite length_app in Hfuel.
    destruct fuel as [|fuel]; [lia|].
    destruct (IH2 eq_refl x Hk fuel ltac:(lia)) as [y Hy].
    simpl.
    destruct (IHa _ _ _ _ _ _ M1
                  (fun pos' rest' c' =>
                     if Nat.eqb pos' pos then None
                     else starLoop (run a) k fuel pos' rest' c') y) as [z Hz].
    { apply Nat.eqb_neq in Hne. rewrite Hne. exact Hy. }
    rewrite Hz. eauto.
Qed.

(** Completeness: if some match lets the continuation succeed, the
    matcher succeeds (maybe with a match it tries earlier). *)
Lemma run_complete (r : regex) :
  forall pos rest c pos' rest' c',
    matches r pos rest c pos' rest' c' ->
    forall (k : nat -> jstr -> caps -> option R) x,
      k pos' rest' c' = Some x -> exists y, run r pos rest c k = Some y.
Proof.
  induction r as [|p|a IHa b IHb|a IHa b IHb|a IHa|n a IHa| |];
    intros pos rest c pos' rest' c' M k x Hk.
  - inversion M; subst. simpl. eauto.
  - inversion M as [|? ? ? ? ? Hp| | | | | | | |]; subst. simpl. rewrite Hp. eauto.
  - inversion M as [| |? ? ? ? ? p1 r1 c1 ? ? ? M1 M2| | | | | | |]; subst. simpl.
    destruct (IHb _ _ _ _ _ _ M2 k x Hk) as [y Hy].
    exact (IHa _ _ _ _ _ _ M1 _ y Hy).
  - simpl. inversion M as [| | |? ? ? ? ? ? ? ? M1|? ? ? ? ? ? ? ? M1| | | | |]; subst.
    + destruct (IHa _ _ _ _ _ _ M1 k x Hk) as [y Hy]. rewrite Hy. eauto.
    + destruct (run a pos rest c k); [eauto|].
      exact (IHb _ _ _ _ _ _ M1 k x Hk).
  - simpl. eapply starLoop_complete; eauto.
  - inversion M as [| | | | | | |? ? ? ? ? p1 r1 c1 M1| |]; subst. simpl.
    exact (IHa _ _ _ _ _ _ M1 _ x Hk).
  - inversion M; subst. simpl. eauto.
  - inversion M; subst. simpl. eauto.
Qed.

End MatcherFacts.

(** The leftmost search returns a match of the pattern at some index. *)
Lemma searchFrom_sound (r : regex) (rest : jstr) :
  forall pos m,
    searchFrom r pos rest = Some m ->
    exists i rest',
      i <= length rest /\ mstart m = pos + i
      /\ matches r (pos + i) (skipn i rest) [] (mend m) rest' (mcaps m).
Proof.
  induction rest as [|x rest IH]; intros pos m H; simpl in H.
  - destruct (matchAt r pos []) eqn:Hm; [|discriminate].
    injection H as ->. unfold matchAt in Hm.
    apply run_sound in Hm. destruct Hm as (p1 & r1 & c1 & M & Hk).
    injection Hk as <-. exists 0, r1. simpl. rewrite Nat.add_0_r.
    split; [lia | split; [reflexivity | exact M]].
  - destruct (matchAt r pos (x :: rest)) eqn:Hm.
    + injection H as ->. unfold matchAt in Hm.
      apply run_sound in Hm. destruct Hm as (p1 & r1 & c1 & M & Hk).
      injection Hk as <-. exists 0, r1. simpl. rewrite Nat.add_0_r.
      split; [lia | split; [reflexivity | exact M]].
    + apply IH in H. destruct H as (i & r1 & Hi & Hs & M).
      exists (S i), r1. simpl. replace (pos + S i) with (S pos + i) by lia.
      split; [lia | split; [exact Hs | exact M]].
Qed.

(** And it finds one whenever the pattern matches somewhere. *)
Lemma searchFrom_complete (r : regex) (rest : jstr) :
  forall pos i pos' rest' c',
    i <= length rest ->
    matches r (pos + i) (skipn i rest) [] pos' rest' c' ->
    exists m, searchFrom r pos rest = Some m.
Proof.
  induction rest as [|x rest IH]; intros pos i pos' rest' c' Hi M.
  - assert (i = 0) by (simpl in Hi; lia). subst i.
    simpl in M. rewrite Nat.add_0_r in M. simpl. unfold matchAt.
    destruct (run_complete M
                (fun p _ c => Some {| mstart := pos; mend := p; mcaps := c |}) eq_refl)
      as [y Hy].
    rewrite Hy. eauto.
  - simpl. destruct (matchAt r pos (x :: rest)) eqn:Hm; [eauto|].
    destruct i as [|i].
    + simpl in M. rewrite Nat.add_0_r in M. unfold matchAt in Hm.
      destruct (run_complete M
                  (fun p _ c => Some {| mstart := pos; mend := p; mcaps := c |}) eq_refl)
        as [y Hy].
      congruence.
    + simpl in M, Hi. replace (pos + S i) with (S pos + i) in M by lia.
      eapply IH; [|exact M]. lia.
Qed.

Lemma exec_sound (r : regex) (s : jstr) (m : matched) :
  exec r s = Some m ->
  exists rest',
    mstart m <= length s
    /\ matches r (mstart m) (skipn (mstart m) s) [] (mend m) rest' (mcaps m).
Proof.
  intros H. apply searchFrom_sound in H. destruct H as (i & r1 & Hi & Hs & M).
  simpl in Hs, M. subst i. exists r1. split; assumption.
Qed.

Lemma exec_complete (r : regex) (pre rest : jstr) pos' rest' c' :
  matches r (length pre) rest [] pos' rest' c' ->
  exists m, exec r (pre ++ rest) = Some m.
Proof.
  intros M. unfold exec.
  apply (@searchFrom_complete r (pre ++ rest) 0 (length pre) pos' rest' c').
  - rewrite length_app. lia.
  - simpl. rewrite skipn_app, skipn_all, Nat.sub_diag. simpl. exact M.
Qed.

(* ------------------------------------------------------------------ *)
(** ** Building and reading matches of the patterns *)

Lemma seqOf_chi_cons (c : N) (s : jstr) :
  forall pos rest cs pos' rest' cs',
    matches (seqOf chi (c :: s)) pos rest cs pos' rest' cs' <->
    matches (Seq (chi c) (seqOf chi s)) pos rest cs pos' rest' cs'.
Proof.
  intros. destruct s as [|d s]; [|tauto]. simpl. split; intros M.
  - econstructor; [exact M | constructor].
  - inversion M as [| |? ? ? ? ? p1 r1 c1 ? ? ? M1 M2| | | | | | |]; subst.
    inversion M2; subst. exact M1.
Qed.

(** A literal word under [i] matches the spellings of the word in either
    case, and nothing else. *)
Lemma matches_wordi_intro (s tok : jstr) :
  List.map lowerAscii tok = List.map lowerAscii s ->
  forall pos rest cs,
    matches (seqOf chi s) pos (tok ++ rest) cs (pos + length tok) rest cs.
Proof.
  revert tok. induction s as [|c s IH]; intros tok Heq pos rest cs.
  - destruct tok; [|discriminate]. simpl. rewrite Nat.add_0_r. constructor.
  - destruct tok as [|x tok]; [discriminate|]. simpl in Heq.
    injection Heq as Hx Htok.
    apply seqOf_chi_cons. econstructor.
    + unfold chi. constructor. apply N.eqb_eq. exact Hx.
    + simpl. replace (pos + S (length tok)) with (S pos + length tok) by lia.
      apply IH. exact Htok.
Qed.

Lemma matches_wordi_inv (s : jstr) :
  forall pos rest cs pos' rest' cs',
    matches (seqOf chi s) pos rest cs pos' rest' cs' ->
    exists tok, rest = tok ++ rest' /\ List.map lowerAscii tok = List.map lowerAscii s
                /\ pos' = pos + length tok /\ cs' = cs.
Proof.
  induction s as [|c s IH]; intros pos rest cs pos' rest' cs' M.
  - simpl in M. inversion M; subst. exists []. simpl. repeat split; lia.
  - apply seqOf_chi_cons in M.
    inversion M as [| |? ? ? ? ? p1 r1 c1 ? ? ? M1 M2| | | | | | |]; subst.
    unfold chi in M1. inversion M1 as [|? x ? ? ? Hx| | | | | | | |]; subst.
    apply N.eqb_eq in Hx.
    apply IH in M2. destruct M2 as (tok & -> & Htok & -> & ->).
    exists (x :: tok). simpl. rewrite Hx, Htok. repeat split; lia.
Qed.

Section ClassRuns.
Variable p : N -> bool.

Lemma matches_star_run (w : jstr) :
  Forall (fun x => p x = true) w ->
  forall pos rest cs,
    matches (Star (Chr p)) pos (w ++ rest) cs (pos + length w) rest cs.
Proof.
  induction 1 as [|x w Hx _ IH]; intros pos rest cs; simpl.
  - rewrite Nat.add_0_r. constructor.
  - eapply MStarStep.
    + constructor. exact Hx.
    + lia.
    + replace (pos + S (length w)) with (S pos + length w) by lia. apply IH.
Qed.

Lemma matches_plus_run (w : jstr) :
  w <> [] -> Forall (fun x => p x = true) w ->
  forall pos rest cs,
    matches (Plus (Chr p)) pos (w ++ rest) cs (pos + length w) rest cs.
Proof.
  intros Hne Hall pos rest cs. destruct w as [|x w]; [congruence|].
  inversion Hall as [|? ? Hx Hw]; subst.
  unfold Plus. simpl. econstructor.
  - constructor. exact Hx.
  - replace (pos + S (length w)) with (S pos + length w) by lia.
    apply matches_star_run. exact Hw.
Qed.

Lemma matches_times_run (w : jstr) :
  Forall (fun x => p x = true) w ->
  forall pos rest cs,
    matches (Times (length w) (Chr p)) pos (w ++ rest) cs (pos + length w) rest cs.
Proof.
  induction 1 as [|x w Hx _ IH]; intros pos rest cs; simpl.
  - rewrite Nat.add_0_r. constructor.
  - econstructor.
    + constructor. exact Hx.
    + replace (pos + S (length w)) with (S pos + length w) by lia. apply IH.
Qed.

Lemma matches_upto_run (w : jstr) :
  Forall (fun x => p x = true) w ->
  forall n pos rest cs,
    length w <= n ->
    matches (UpTo n (Chr p)) pos (w ++ rest) cs (pos + length w) rest cs.
Proof.
  induction 1 as [|x w Hx _ IH]; intros n pos rest cs Hn; simpl.
  - rewrite Nat.add_0_r. destruct n; simpl; [constructor|].
    apply MAltR. constructor.
  - destruct n as [|n]; [simpl in Hn; lia|]. simpl.
    apply MAltL. econstructor.
    + constructor. exact Hx.
    + replace (pos + S (length w)) with (S pos + length w) by lia.
      apply IH. simpl in Hn. lia.
Qed.

Lemma matches_rep_run (lo hi : nat) (w : jstr) :
  Forall (fun x => p x = true) w ->
  lo <= length w <= hi ->
  forall pos rest cs,
    matches (Rep lo hi (Chr p)) pos (w ++ rest) cs (pos + length w) rest cs.
Proof.
  intros Hall [Hlo Hhi] pos rest cs.
  assert (Hf : length (firstn lo w) = lo) by (rewrite length_firstn; lia).
  assert (Hs : length (skipn lo w) = length w - lo) by apply length_skipn.
  assert (Hsplit : Forall (fun x => p x = true) (firstn lo w ++ skipn lo w))
    by (rewrite firstn_skipn; exact Hall).
  apply Forall_app in Hsplit. destruct Hsplit as [Hhead Htail].
  rewrite <- (firstn_skipn lo w) at 1.
  unfold Rep. rewrite <- app_assoc. econstructor.
  - rewrite <- Hf at 1. apply matches_times_run. exact Hhead.
  - replace (pos + length w) with (pos + length (firstn lo w) + length (skipn lo w)) by lia.
    apply matches_upto_run; [exact Htail | lia].
Qed.

End ClassRuns.

(* ------------------------------------------------------------------ *)
(** ** The record assembler *)

Lemma isEmptyValue_pruned (v : field) :
  isEmptyValue v = true -> isEmptyArray v || isBlankString v = true.
Proof.
  destruct v as [s|l|l|l|l|l]; simpl;
    try (destruct l; [reflexivity | discriminate]).
  destruct s; [reflexivity | discriminate].
Qed.

(** The clean-up of part_000 establishes the invariant, whatever the
    parsers found. *)
Lemma cleanUp_sparse (r : resume) : sparse (Strict.cleanUp r).
Proof.
  intros k v Hin. unfold Strict.cleanUp in Hin.
  apply filter_In in Hin. destruct Hin as [_ Hkeep]. simpl in Hkeep.
  destruct (isEmptyValue v) eqn:Hv; [|reflexivity].
  apply isEmptyValue_pruned in Hv. rewrite Hv in Hkeep. discriminate.
Qed.

(** parseResume of part_000 returns no empty field: its clean-up loop
    deletes every key whose value is an empty list or a blank string. *)
Lemma Strict_parseResume_sparse {E : Env} (text : jstr) : sparse (Strict.parseResume text).
Proof. apply cleanUp_sparse. Qed.

(** C1, on resumeParser2.js: both entry points return the address and
    summary fields as empty strings and the languages and hobbies fields as
    empty lists, for every input text; the record is never sparse. *)
Theorem C1_enhanced_record_has_empty_fields {E : Env} (text : jstr) :
  (get "address" (Enhanced.parseResume text) = Some (FStr [])
   /\ get "summary" (Enhanced.parseResume text) = Some (FStr [])
   /\ get "languages" (Enhanced.parseResume text) = Some (FStrs [])
   /\ get "hobbies" (Enhanced.parseResume text) = Some (FStrs []))
  /\ (get "address" (Enhanced.parseResumeSecondaryApproach text) = Some (FStr [])
      /\ get "summary" (Enhanced.parseResumeSecondaryApproach text) = Some (FStr [])
      /\ get "languages" (Enhanced.parseResumeSecondaryApproach text) = Some (FStrs [])
      /\ get "hobbies" (Enhanced.parseResumeSecondaryApproach text) = Some (FStrs []))
  /\ ~ sparse (Enhanced.parseResume text)
  /\ ~ sparse (Enhanced.parseResumeSecondaryApproach text).
Proof.
  split; [repeat split|]. split; [repeat split|].
  split; intros H.
  - specialize (H "address"%string (FStr [])). simpl in H.
    assert (Habs : true = false) by (apply H; do 3 right; left; reflexivity).
    discriminate.
  - specialize (H "address"%string (FStr [])). simpl in H.
    assert (Habs : true = false) by (apply H; do 3 right; left; reflexivity).
    discriminate.
Qed.

(* ------------------------------------------------------------------ *)
(** ** The date extractors *)

Lemma digits_units (w : nat) :
  forall z acc x, In x (IsoDate.digits w z acc) -> In x acc \/ isDigit x = true.
Proof.
  induction w as [|w IH]; intros z acc x H; cbn [IsoDate.digits] in H; [left; exact H|].
  apply IH in H. destruct H as [[<-|H]|H]; [right | left; exact H | right; exact H].
  pose proof (Z.mod_pos_bound z 10 ltac:(lia)) as Hm.
  unfold isDigit, inRange. apply andb_true_iff. split; apply N.leb_le; lia.
Qed.

Lemma toISOString_units (t : Z) (x : N) :
  In x (IsoDate.toISOString t) -> isoUnit x = true.
Proof.
  unfold IsoDate.toISOString.
  destruct (IsoDate.civil (t / IsoDate.msPerDay)) as [[y m] d].
  assert (Hd : forall w z, In x (IsoDate.digits w z []) -> isoUnit x = true).
  { intros w z H. apply digits_units in H. destruct H as [[]|H].
    unfold isoUnit. rewrite H. reflexivity. }
  assert (Hc : forall c, existsb (N.eqb c) (lit "-+T:.Z") = true -> In x [c] -> isoUnit x = true).
  { intros c Hc [<-|[]]. unfold isoUnit. rewrite Hc. apply orb_true_r. }
  repeat rewrite in_app_iff.
  intros H.
  repeat match type of H with
         | _ \/ _ => destruct H as [H|H]
         end;
    try (eapply Hd; exact H); try (eapply Hc; [|exact H]; reflexivity).
  unfold IsoDate.yearDigits in H.
  destruct ((0 <=? y)%Z && (y <=? 9999)%Z); [eapply Hd; exact H|].
  destruct (y <? 0)%Z; (destruct H as [<-|H]; [reflexivity | eapply Hd; exact H]).
Qed.

Lemma splitOnAux_units (sep : jstr) (fuel : nat) :
  forall s cur piece x,
    In piece (splitOnAux fuel sep s cur) -> In x piece -> In x cur \/ In x s.
Proof.
  induction fuel as [|fuel IH]; intros s cur piece x Hp Hx; cbn [splitOnAux] in Hp.
  - destruct Hp as [<-|[]]. apply in_app_iff in Hx.
    destruct Hx as [Hx|Hx]; [left; apply in_rev; exact Hx | right; exact Hx].
  - destruct s as [|c s'].
    + destruct Hp as [<-|[]]. left. apply in_rev. exact Hx.
    + destruct (startsWith sep (c :: s')).
      * destruct Hp as [<-|Hp]; [left; apply in_rev; exact Hx|].
        destruct (IH _ _ _ _ Hp Hx) as [[]|H]. right.
        rewrite <- (firstn_skipn (length sep) (c :: s')). apply in_or_app. right. exact H.
      * destruct (IH _ _ _ _ Hp Hx) as [[<-|H]|H];
          [right; left; reflexivity | left; exact H | right; right; exact H].
Qed.

(** A date field holds the units of an ISO date only. *)
Lemma isoOrEmpty_units (d : option Z) (x : N) :
  In x (isoOrEmpty d) -> isoUnit x = true.
Proof.
  destruct d as [t|]; cbn [isoOrEmpty]; [|intros []].
  unfold IsoDate.isoDay, splitOn. intros H.
  destruct (splitOnAux (S (length (IsoDate.toISOString t))) [cu "T"]
                       (IsoDate.toISOString t) []) as [|piece l] eqn:Hs; [destruct H|].
  cbn [hd] in H.
  assert (Hp : In piece (splitOnAux (S (length (IsoDate.toISOString t))) [cu "T"]
                                    (IsoDate.toISOString t) []))
    by (rewrite Hs; left; reflexivity).
  destruct (splitOnAux_units _ _ _ _ _ _ Hp H) as [[]|Hin].
  eapply toISOString_units. exact Hin.
Qed.

(** What chrono resolves is never the sentinel. *)
Lemma isoOrEmpty_is_not_Present (d : option Z) : isoOrEmpty d <> lit "Present".
Proof.
  intros H.
  assert (Hp : In (cu "P") (isoOrEmpty d)) by (rewrite H; left; reflexivity).
  apply isoOrEmpty_units in Hp. discriminate Hp.
Qed.

(** C2, on part_000: Ongoing is missing from the end words of its range
    pattern.  A line with a range that ends in Ongoing reaches
    extractDatesFromText whenever a second, closed range on the line lets it
    pass the test of parseWorkExperience; the extractor then reads the
    closed range, and the entry ends on a resolved date (or on the empty
    string when chrono resolves nothing), never on Present.
    parseRawExperience of resumeParser2.js, whose extractor lists Ongoing,
    gives Present for the same lines.  The last two parts run the two
    parseResume functions on a resume with these lines. *)
Theorem C2_ongoing_is_not_a_sentinel_in_part_000 {E : Env} :
  isAnchor ongoingJob 1 = true
  /\ List.map (fun e => (expStart e, expEnd e)) (Strict.parseWorkExperience ongoingJob)
     = [(isoOrEmpty (chrono_parseDate (lit "Feb 2020")),
         isoOrEmpty (chrono_parseDate (lit "Mar 2021")))]
  /\ isoOrEmpty (chrono_parseDate (lit "Mar 2021")) <> lit "Present"
  /\ List.map expEnd (Enhanced.parseRawExperience ongoingJob) = [lit "Present"]
  /\ List.map expEnd (experienceOf (Strict.parseResume (E := Standin.env) ongoingResume))
     = [lit "2021-03-01"]
  /\ List.map expEnd (experienceOf (Enhanced.parseResume (E := Standin.env) ongoingResume))
     = [lit "Present"].
Proof.
  split; [reflexivity|]. split; [reflexivity|].
  split; [apply isoOrEmpty_is_not_Present|]. split; [reflexivity|].
  split; vm_compute; reflexivity.
Qed.

(* ------------------------------------------------------------------ *)
(** ** Open date ranges in resumeParser2.js *)

Lemma openPattern_unfold :
  openPattern
  = Seq (Grp 1 Pat.monthYear)
        (Seq (Star space) (Seq Pat.dash (Seq (Star space) (Grp 2 sentinelWords)))).
Proof. reflexivity. Qed.

Lemma sentinelWords_unfold :
  sentinelWords
  = Alt (seqOf chi (lit "Present"))
        (Alt (seqOf chi (lit "Current")) (seqOf chi (lit "Ongoing"))).
Proof. reflexivity. Qed.

Lemma monthYear_matches (my : jstr) :
  isMonthYear my ->
  forall pos rest cs,
    matches Pat.monthYear pos (my ++ rest) cs (pos + length my) rest cs.
Proof.
  intros (letters & spaces & digits & -> & Hlen & Hl & Hne & Hs & Hd4 & Hd) pos rest cs.
  change Pat.monthYear with (Seq (Rep 3 9 alpha) (Seq (Plus space) (Times 4 digit))).
  rewrite !length_app, <- !app_assoc.
  econstructor; [apply matches_rep_run; [exact Hl | exact Hlen]|].
  econstructor; [apply matches_plus_run; [exact Hne | exact Hs]|].
  replace (pos + (length letters + (length spaces + length digits)))
    with (pos + length letters + length spaces + length digits) by lia.
  rewrite <- Hd4 at 1. apply matches_times_run. exact Hd.
Qed.

Lemma sentinel_matches (tok : jstr) :
  sentinel tok ->
  forall pos rest cs,
    matches sentinelWords pos (tok ++ rest) cs (pos + length tok) rest cs.
Proof.
  intros [H|[H|H]] pos rest cs; rewrite sentinelWords_unfold.
  - apply MAltL. apply matches_wordi_intro. exact H.
  - apply MAltR, MAltL. apply matches_wordi_intro. exact H.
  - apply MAltR, MAltR. apply matches_wordi_intro. exact H.
Qed.

Lemma dash_matches (d : N) :
  isDash d ->
  forall pos rest cs, matches Pat.dash pos (d :: rest) cs (S pos) rest cs.
Proof.
  intros Hd pos rest cs. unfold Pat.dash. constructor.
  destruct Hd as [-> | [-> | ->] ]; reflexivity.
Qed.

(** An open range is a match of the first pattern. *)
Lemma openRange_matches (w : jstr) :
  openRange w ->
  forall pos rest, exists cs',
    matches openPattern pos (w ++ rest) [] (pos + length w) rest cs'.
Proof.
  intros (my & ws1 & d & ws2 & tok & -> & Hmy & H1 & Hd & H2 & Htok) pos rest.
  eexists. rewrite openPattern_unfold.
  rewrite <- !app_assoc. simpl app. rewrite <- !app_assoc.
  econstructor; [constructor; apply monthYear_matches; exact Hmy|].
  econstructor; [apply matches_star_run; exact H1|].
  econstructor; [apply dash_matches; exact Hd|].
  econstructor; [apply matches_star_run; exact H2|].
  replace (pos + length (my ++ ws1 ++ d :: ws2 ++ tok))
    with (S (pos + length my + length ws1) + length ws2 + length tok)
    by (rewrite !length_app; simpl; rewrite length_app; lia).
  constructor. apply sentinel_matches. exact Htok.
Qed.

Lemma matches_skipn (s : jstr) r pos rest c pos' rest' c' :
  matches r pos rest c pos' rest' c' ->
  rest = skipn pos s -> rest' = skipn pos' s.
Proof.
  intros M Hrest. destruct (matches_span M) as [w [Hw ->]].
  rewrite Nat.add_comm, <- skipn_skipn, <- Hrest, Hw.
  rewrite skipn_app, skipn_all, Nat.sub_diag. reflexivity.
Qed.

(** What the second group of a match of the first pattern holds. *)
Lemma openPattern_group2 (text : jstr) (m : matched) :
  exec openPattern text = Some m ->
  exists tok, group 2 text m = Some tok /\ sentinel tok.
Proof.
  intros H. apply exec_sound in H. destruct H as (rest' & _ & M).
  rewrite openPattern_unfold in M.
  inversion M as [| |? ? ? ? ? p1 r1 c1 ? ? ? M1 N1| | | | | | |]; subst.
  inversion N1 as [| |? ? ? ? ? p2 r2 c2 ? ? ? M2 N2| | | | | | |]; subst.
  inversion N2 as [| |? ? ? ? ? p3 r3 c3 ? ? ? M3 N3| | | | | | |]; subst.
  inversion N3 as [| |? ? ? ? ? p4 r4 c4 ? ? ? M4 N4| | | | | | |]; subst.
  assert (Hr4 : r4 = skipn p4 text).
  { eapply matches_skipn; [exact M4|].
    eapply matches_skipn; [exact M3|].
    eapply matches_skipn; [exact M2|].
    eapply matches_skipn; [exact M1|]. reflexivity. }
  inversion N4 as [| | | | | | |? ? ? ? ? p5 r5 c5 Mbody| |]; subst.
  match goal with
  | Heq : _ :: _ = mcaps m |- _ => rename Heq into Hcaps
  end.
  assert (Htok : exists tok, skipn p4 text = tok ++ rest' /\ sentinel tok
                             /\ mend m = p4 + length tok).
  { rewrite sentinelWords_unfold in Mbody.
    inversion Mbody as [| | |? ? ? ? ? ? ? ? A|? ? ? ? ? ? ? ? A| | | | |]; subst.
    - apply (matches_wordi_inv (lit "Present")) in A.
      destruct A as (tok & E & L & P & _).
      exists tok. split; [exact E|]. split; [left; exact L | exact P].
    - inversion A as [| | |? ? ? ? ? ? ? ? B|? ? ? ? ? ? ? ? B| | | | |]; subst.
      + apply (matches_wordi_inv (lit "Current")) in B.
        destruct B as (tok & E & L & P & _).
        exists tok. split; [exact E|]. split; [right; left; exact L | exact P].
      + apply (matches_wordi_inv (lit "Ongoing")) in B.
        destruct B as (tok & E & L & P & _).
        exists tok. split; [exact E|]. split; [right; right; exact L | exact P]. }
  destruct Htok as (tok & E & Hs & P).
  exists tok. split; [|exact Hs].
  unfold group. rewrite <- Hcaps. simpl getCap. unfold substr.
  rewrite E, P. replace (p4 + length tok - p4) with (length tok) by lia.
  rewrite firstn_app, firstn_all, Nat.sub_diag. simpl. rewrite app_nil_r. reflexivity.
Qed.

Lemma lowerAscii_ascii (x : N) : isAscii (lowerAscii x) = true -> isAscii x = true.
Proof.
  unfold lowerAscii, isAscii, isUpperAZ, inRange.
  destruct (N.leb 65 x && N.leb x 90) eqn:H; [|tauto].
  intros _. apply andb_true_iff in H. destruct H as [_ H].
  apply N.leb_le in H. apply N.ltb_lt. lia.
Qed.

Lemma lowered_ascii (tok low : jstr) :
  List.map lowerAscii tok = low -> forallb isAscii low = true -> forallb isAscii tok = true.
Proof.
  intros <-. induction tok as [|x tok IH]; simpl; [reflexivity|].
  intros H. apply andb_true_iff in H. destruct H as [Hx Ht].
  rewrite (lowerAscii_ascii _ Hx). simpl. apply IH. exact Ht.
Qed.

Lemma sentinel_isOpenEnd {E : Env} (tok : jstr) :
  sentinel tok -> Enhanced.isOpenEnd (Some tok) = true.
Proof.
  intros Hs.
  assert (Hlow : exists low, List.map lowerAscii tok = low
                             /\ forallb isAscii low = true
                             /\ (includes (lit "present") low
                                 || includes (lit "current") low
                                 || includes (lit "ongoing") low) = true).
  { destruct Hs as [H|[H|H]]; eexists; (split; [exact H|]); split; reflexivity. }
  destruct Hlow as (low & Hmap & Hascii & Hinc).
  destruct tok as [|x tok]; [subst low; discriminate|].
  unfold Enhanced.isOpenEnd, toLowerCase.
  rewrite (lowered_ascii _ Hmap Hascii), Hmap. exact Hinc.
Qed.

(** The date sentinel of extractDateRange: a fragment that contains a date
    range ending in present, current or ongoing, in any letter case, gets
    the literal Present as its endDate. *)
Theorem Enhanced_open_range_gives_Present {E : Env} (text : jstr) :
  containsOpenRange text ->
  endDate (Enhanced.extractDateRange text) = lit "Present".
Proof.
  intros (pre & w & post & -> & Hw).
  destruct (openRange_matches Hw (length pre) post) as [cs' M].
  destruct (exec_complete pre M) as [m Hm].
  destruct (openPattern_group2 _ Hm) as (tok & Hg & Hs).
  unfold Enhanced.extractDateRange, Enhanced.patterns.
  cbn [Enhanced.firstPattern]. fold openPattern. rewrite Hm.
  unfold Enhanced.rangeOf. cbn [endDate]. rewrite Hg, (sentinel_isOpenEnd Hs).
  reflexivity.
Qed.

Lemma Enhanced_open_range_witness :
  endDate (Enhanced.extractDateRange (E := Standin.env)
             (lit "Since Jan 2023 - Ongoing (remote)"))
  = lit "Present".
Proof.
  apply (@Enhanced_open_range_gives_Present Standin.env
           (lit "Since Jan 2023 - Ongoing (remote)")).
  exists (lit "Since "), (lit "Jan 2023 - Ongoing"), (lit " (remote)").
  split; [reflexivity|].
  exists (lit "Jan 2023"), (lit " "), (cu "-"), (lit " "), (lit "Ongoing").
  split; [reflexivity|]. split.
  { exists (lit "Jan"), (lit " "), (lit "2023").
    split; [reflexivity|]. split; [cbn; lia|]. split; [repeat constructor|].
    split; [discriminate|]. split; [repeat constructor|].
    split; [reflexivity | repeat constructor]. }
  split; [repeat constructor|]. split; [right; left; reflexivity|].
  split; [repeat constructor|]. right; right; reflexivity.
Defined.

(* ------------------------------------------------------------------ *)
(** ** Section boundaries *)

Section Boundaries.
Context {E : Env}.

(** The keyword loop of one type pushes at most once... *)
Lemma Strict_scanKeywords_cases (mk : Section_) (line : jstr) (kws : list jstr) :
  Strict.scanKeywords mk line kws
  = if existsb (Strict.qualifies line) kws then [mk] else [].
Proof.
  induction kws as [|kw kws IH]; simpl; [reflexivity|].
  destruct (Strict.qualifies line kw); simpl; [reflexivity | exact IH].
Qed.

Lemma Enhanced_scanKeywords_cases (mk : Section_) (line : jstr) (kws : list jstr) :
  Enhanced.scanKeywords mk line kws
  = if existsb (Enhanced.qualifies line) kws then [mk] else [].
Proof.
  induction kws as [|kw kws IH]; simpl; [reflexivity|].
  destruct (Enhanced.qualifies line kw); simpl; [reflexivity | exact IH].
Qed.

(** ... but the loop over the types goes on: a line gets one span for
    each type that has a qualifying keyword. *)
Lemma Strict_scanLine_In (i : nat) (raw : jstr) (ty : SectionType) (kws : list jstr) :
  In (ty, kws) Strict.sectionKeywords ->
  existsb (Strict.qualifies (toLowerCase (trim raw))) kws = true ->
  In {| type := ty; startIndex := i; header := trim raw; endIndex := 0 |}
     (Strict.scanLine i raw).
Proof.
  intros Hin Hq. unfold Strict.scanLine.
  apply in_flat_map. exists (ty, kws). split; [exact Hin|].
  rewrite Strict_scanKeywords_cases, Hq. left. reflexivity.
Qed.

Lemma Enhanced_scanLine_In (i : nat) (raw : jstr) (ty : SectionType) (kws : list jstr) :
  Enhanced.skipped (toLowerCase (trim raw)) = false ->
  In (ty, kws) Enhanced.sectionKeywords ->
  existsb (Enhanced.qualifies (toLowerCase (trim raw))) kws = true ->
  In {| type := ty; startIndex := i; header := trim raw; endIndex := 0 |}
     (Enhanced.scanLine i raw).
Proof.
  intros Hs Hin Hq. unfold Enhanced.scanLine. rewrite Hs.
  apply in_flat_map. exists (ty, kws). split; [exact Hin|].
  rewrite Enhanced_scanKeywords_cases, Hq. left. reflexivity.
Qed.

Lemma Strict_addEndIndices_In (n : nat) (ss : list Section_) (s : Section_) :
  In s ss -> exists t, In t (Strict.addEndIndices n ss) /\ sameSpan s t.
Proof.
  induction ss as [|a ss IH]; simpl; [tauto|].
  intros [->|Hin].
  - eexists. split; [left; reflexivity|]. repeat split.
  - destruct (IH Hin) as [t [Ht Hsame]]. exists t. split; [right; exact Ht | exact Hsame].
Qed.

Lemma Enhanced_addEndIndices_In (n : nat) (ss : list Section_) (s : Section_) :
  In s ss -> exists t, In t (Enhanced.addEndIndices n ss) /\ sameSpan s t.
Proof.
  induction ss as [|a ss IH]; simpl; [tauto|].
  intros [->|Hin].
  - eexists. split; [left; reflexivity|]. repeat split.
  - destruct (IH Hin) as [t [Ht Hsame]]. exists t. split; [right; exact Ht | exact Hsame].
Qed.

Lemma insertByStart_In (s x : Section_) (l : list Section_) :
  In x (Enhanced.insertByStart s l) <-> x = s \/ In x l.
Proof.
  induction l as [|t l IH]; simpl.
  - intuition congruence.
  - destruct (Nat.ltb (startIndex s) (startIndex t)); simpl.
    + intuition congruence.
    + rewrite IH. intuition congruence.
Qed.

Lemma sortByStart_In (x : Section_) (l : list Section_) :
  In x l -> In x (Enhanced.sortByStart l).
Proof.
  unfold Enhanced.sortByStart.
  assert (Hgen : forall acc, In x l \/ In x acc ->
                   In x (fold_left (fun acc s => Enhanced.insertByStart s acc) l acc)).
  { induction l as [|s l IH]; intros acc; simpl.
    - intros [[]|H]; exact H.
    - intros [[->|H]|H]; apply IH.
      + right. apply insertByStart_In. left. reflexivity.
      + left. exact H.
      + right. apply insertByStart_In. right. exact H. }
  intros H. apply Hgen. left. exact H.
Qed.

End Boundaries.

(** C4, on the one-line document Project Experience: both detectors
    record a span of type experience and a span of type projects at line 0,
    whatever the fuzzy score says; the break leaves the keyword loop of one
    type only. *)
Theorem C4_line_labelled_twice {E : Env} :
  doubleLabelled (Strict.detectSectionBoundaries projectExperience) 0
  /\ doubleLabelled (Enhanced.detectSections projectExperience) 0.
Proof.
  split.
  - destruct (Strict_addEndIndices_In 1 (Strict.scanLines 0 projectExperience)
                {| type := experience; startIndex := 0;
                   header := trim (lit "Project Experience"); endIndex := 0 |})
      as [s1 [H1 [T1 [I1 _]]]].
    { simpl. rewrite app_nil_r.
      eapply Strict_scanLine_In.
      - do 2 right. left. reflexivity.
      - reflexivity. }
    destruct (Strict_addEndIndices_In 1 (Strict.scanLines 0 projectExperience)
                {| type := projects; startIndex := 0;
                   header := trim (lit "Project Experience"); endIndex := 0 |})
      as [s2 [H2 [T2 [I2 _]]]].
    { simpl. rewrite app_nil_r.
      eapply Strict_scanLine_In.
      - do 5 right. left. reflexivity.
      - apply existsb_exists. exists (lit "project experience").
        split; [do 3 right; left; reflexivity | reflexivity]. }
    exists s1, s2. repeat split; assumption.
  - destruct (Enhanced_addEndIndices_In 1
                (Enhanced.sortByStart (Enhanced.scanLines 0 projectExperience))
                {| type := experience; startIndex := 0;
                   header := trim (lit "Project Experience"); endIndex := 0 |})
      as [s1 [H1 [T1 [I1 _]]]].
    { apply sortByStart_In. simpl. rewrite app_nil_r.
      eapply Enhanced_scanLine_In.
      - reflexivity.
      - do 2 right. left. reflexivity.
      - reflexivity. }
    destruct (Enhanced_addEndIndices_In 1
                (Enhanced.sortByStart (Enhanced.scanLines 0 projectExperience))
                {| type := projects; startIndex := 0;
                   header := trim (lit "Project Experience"); endIndex := 0 |})
      as [s2 [H2 [T2 [I2 _]]]].
    { apply sortByStart_In. simpl. rewrite app_nil_r.
      eapply Enhanced_scanLine_In.
      - reflexivity.
      - do 5 right. left. reflexivity.
      - apply existsb_exists. exists (lit "project experience").
        split; [do 3 right; left; reflexivity | reflexivity]. }
    exists s1, s2. repeat split; assumption.
Qed.

(** One type never labels a line twice: the keyword loop pushes at most
    one span. *)
Lemma scanKeywords_at_most_one {E : Env} (mk : Section_) (line : jstr) (kws : list jstr) :
  length (Strict.scanKeywords mk line kws) <= 1
  /\ length (Enhanced.scanKeywords mk line kws) <= 1.
Proof.
  rewrite Strict_scanKeywords_cases, Enhanced_scanKeywords_cases.
  split; [destruct (existsb (Strict.qualifies line) kws)
         | destruct (existsb (Enhanced.qualifies line) kws)]; simpl; lia.
Qed.

(* ------------------------------------------------------------------ *)
(** ** Section isolation in the two span-based slicers *)

Lemma In_firstn_nth {A : Type} (n : nat) (l : list A) (x : A) :
  In x (firstn n l) -> exists i, i < n /\ nth_error l i = Some x.
Proof.
  revert l. induction n as [|n IH]; intros l H; simpl in H; [destruct H|].
  destruct l as [|y l]; [destruct H|]. destruct H as [->|H].
  - exists 0. split; [lia | reflexivity].
  - destruct (IH l H) as [i [Hi Hx]]. exists (S i). split; [lia | exact Hx].
Qed.

(** The elements of [lines.slice(a, a + n)] sit at the indices from [a] on. *)
Lemma In_slice_nth {A : Type} (a n : nat) (l : list A) (x : A) :
  In x (firstn n (skipn a l)) -> exists i, a <= i < a + n /\ nth_error l i = Some x.
Proof.
  intros H. apply In_firstn_nth in H. destruct H as [k [Hk Hx]].
  rewrite nth_error_skipn in Hx. exists (a + k). split; [lia | exact Hx].
Qed.

Lemma addEndIndices_starts (n : nat) (ss : list Section_) (t : Section_) :
  In t (Strict.addEndIndices n ss) -> exists t0, In t0 ss /\ sameSpan t0 t.
Proof.
  induction ss as [|a ss IH]; simpl; [tauto|].
  intros [<-|H].
  - exists a. split; [left; reflexivity | repeat split].
  - destruct (IH H) as [t0 [H0 Hs]]. exists t0. split; [right; exact H0 | exact Hs].
Qed.

(** Filling in the ends of spans that are in line order isolates each. *)
Lemma addEndIndices_isolated (n : nat) (ss : list Section_) :
  StronglySorted byStart ss ->
  forall s, In s (Strict.addEndIndices n ss) -> isolated (Strict.addEndIndices n ss) s.
Proof.
  induction 1 as [|a ss Hsorted IH Hall]; intros s Hs t Ht [Hlo Hhi]; simpl in *.
  - destruct Hs.
  - rewrite Forall_forall in Hall.
    destruct Hs as [<-|Hs]; destruct Ht as [<-|Ht]; simpl in *.
    + lia.
    + destruct (addEndIndices_starts _ _ _ Ht) as [t0 [Ht0 [_ [Hst _]]]].
      destruct ss as [|next ss]; [destruct Ht0|].
      inversion Hsorted as [|? ? _ Hnext]; subst.
      rewrite Forall_forall in Hnext.
      destruct Ht0 as [<-|Ht0]; [lia|].
      specialize (Hnext _ Ht0). unfold byStart in Hnext. lia.
    + destruct (addEndIndices_starts _ _ _ Hs) as [s0 [Hs0 [_ [Hst _]]]].
      specialize (Hall _ Hs0). unfold byStart in Hall. lia.
    + exact (IH s Hs t Ht (conj Hlo Hhi)).
Qed.

Section IsolationProofs.
Context {E : Env}.

Lemma Strict_scanLine_start (i : nat) (raw : jstr) (s : Section_) :
  In s (Strict.scanLine i raw) -> startIndex s = i /\ header s = trim raw.
Proof.
  unfold Strict.scanLine. intros H. apply in_flat_map in H.
  destruct H as [[ty kws] [_ H]]. rewrite Strict_scanKeywords_cases in H.
  destruct (existsb _ kws); [|destruct H].
  destruct H as [<-|[]]. split; reflexivity.
Qed.

Lemma Enhanced_scanLine_start (i : nat) (raw : jstr) (s : Section_) :
  In s (Enhanced.scanLine i raw) -> startIndex s = i /\ header s = trim raw.
Proof.
  unfold Enhanced.scanLine. destruct (Enhanced.skipped _); [intros []|].
  intros H. apply in_flat_map in H.
  destruct H as [[ty kws] [_ H]]. rewrite Enhanced_scanKeywords_cases in H.
  destruct (existsb _ kws); [|destruct H].
  destruct H as [<-|[]]. split; reflexivity.
Qed.

(** Whether a line is a header depends on its trimmed text alone. *)
Lemma Strict_scanLine_text (i j : nat) (raw raw' : jstr) :
  trim raw = trim raw' -> Strict.scanLine j raw' <> [] -> Strict.scanLine i raw <> [].
Proof.
  unfold Strict.scanLine. intros ->.
  induction Strict.sectionKeywords as [|[ty kws] l IH]; simpl; [tauto|].
  rewrite !Strict_scanKeywords_cases.
  destruct (existsb _ kws); simpl; [discriminate | exact IH].
Qed.

Lemma Enhanced_scanLine_text (i j : nat) (raw raw' : jstr) :
  trim raw = trim raw' -> Enhanced.scanLine j raw' <> [] -> Enhanced.scanLine i raw <> [].
Proof.
  unfold Enhanced.scanLine. intros ->.
  destruct (Enhanced.skipped _); [tauto|].
  induction Enhanced.sectionKeywords as [|[ty kws] l IH]; simpl; [tauto|].
  rewrite !Enhanced_scanKeywords_cases.
  destruct (existsb _ kws); simpl; [discriminate | exact IH].
Qed.

Lemma Strict_scanLines_In (lines : list jstr) :
  forall k s,
    In s (Strict.scanLines k lines) <->
    exists i raw, nth_error lines i = Some raw /\ In s (Strict.scanLine (k + i) raw).
Proof.
  induction lines as [|raw0 lines IH]; intros k s; simpl.
  - split; [tauto|]. intros (i & raw & H & _). destruct i; discriminate.
  - rewrite in_app_iff, IH. split.
    + intros [H|(i & raw & Hn & H)].
      * exists 0, raw0. rewrite Nat.add_0_r. split; [reflexivity | exact H].
      * exists (S i), raw. replace (k + S i) with (S k + i) by lia.
        split; [exact Hn | exact H].
    + intros (i & raw & Hn & H). destruct i as [|i]; simpl in Hn.
      * injection Hn as ->. rewrite Nat.add_0_r in H. left. exact H.
      * right. exists i, raw. replace (S k + i) with (k + S i) by lia.
        split; [exact Hn | exact H].
Qed.

Lemma Enhanced_scanLines_In (lines : list jstr) :
  forall k s,
    In s (Enhanced.scanLines k lines) <->
    exists i raw, nth_error lines i = Some raw /\ In s (Enhanced.scanLine (k + i) raw).
Proof.
  induction lines as [|raw0 lines IH]; intros k s; simpl.
  - split; [tauto|]. intros (i & raw & H & _). destruct i; discriminate.
  - rewrite in_app_iff, IH. split.
    + intros [H|(i & raw & Hn & H)].
      * exists 0, raw0. rewrite Nat.add_0_r. split; [reflexivity | exact H].
      * exists (S i), raw. replace (k + S i) with (S k + i) by lia.
        split; [exact Hn | exact H].
    + intros (i & raw & Hn & H). destruct i as [|i]; simpl in Hn.
      * injection Hn as ->. rewrite Nat.add_0_r in H. left. exact H.
      * right. exists i, raw. replace (S k + i) with (k + S i) by lia.
        split; [exact Hn | exact H].
Qed.

Lemma Strict_scanLines_sorted (lines : list jstr) :
  forall k, StronglySorted byStart (Strict.scanLines k lines).
Proof.
  induction lines as [|raw lines IH]; intros k; simpl; [constructor|].
  assert (Hgen : forall l, (forall s, In s l -> startIndex s = k) ->
                           StronglySorted byStart (l ++ Strict.scanLines (S k) lines)).
  { induction l as [|a l IHl]; intros Hl; simpl; [apply IH|].
    constructor; [apply IHl; intros s Hs; apply Hl; right; exact Hs|].
    apply Forall_forall. intros t Ht. unfold byStart.
    rewrite (Hl a (or_introl eq_refl)).
    apply in_app_iff in Ht. destruct Ht as [Ht|Ht].
    - rewrite (Hl t (or_intror Ht)). lia.
    - apply Strict_scanLines_In in Ht. destruct Ht as (i & r & _ & Ht).
      apply Strict_scanLine_start in Ht. lia. }
  apply Hgen. intros s Hs. apply Strict_scanLine_start in Hs. tauto.
Qed.

Lemma insertByStart_sorted (s : Section_) (l : list Section_) :
  StronglySorted byStart l -> StronglySorted byStart (Enhanced.insertByStart s l).
Proof.
  induction 1 as [|t l Hl IH Hall]; simpl.
  - constructor; [constructor | constructor].
  - destruct (Nat.ltb (startIndex s) (startIndex t)) eqn:Hlt.
    + apply Nat.ltb_lt in Hlt. constructor; [constructor; assumption|].
      constructor; [unfold byStart; lia|].
      rewrite Forall_forall in *. intros u Hu. specialize (Hall u Hu).
      unfold byStart in *. lia.
    + apply Nat.ltb_ge in Hlt. constructor; [exact IH|].
      apply Forall_forall. intros u Hu. apply insertByStart_In in Hu.
      destruct Hu as [->|Hu]; [exact Hlt|].
      rewrite Forall_forall in Hall. exact (Hall u Hu).
Qed.

Lemma sortByStart_sorted (l : list Section_) :
  StronglySorted byStart (Enhanced.sortByStart l).
Proof.
  unfold Enhanced.sortByStart.
  assert (Hgen : forall acc, StronglySorted byStart acc ->
                   StronglySorted byStart
                     (fold_left (fun acc s => Enhanced.insertByStart s acc) l acc)).
  { induction l as [|s l IH]; intros acc Hacc; simpl; [exact Hacc|].
    apply IH. apply insertByStart_sorted. exact Hacc. }
  apply Hgen. constructor.
Qed.

Lemma sortByStart_In_inv (x : Section_) (l : list Section_) :
  In x (Enhanced.sortByStart l) -> In x l.
Proof.
  unfold Enhanced.sortByStart.
  assert (Hgen : forall acc,
             In x (fold_left (fun acc s => Enhanced.insertByStart s acc) l acc) ->
             In x l \/ In x acc).
  { induction l as [|s l IH]; intros acc H; simpl in *; [right; exact H|].
    apply IH in H. destruct H as [H|H]; [left; right; exact H|].
    apply insertByStart_In in H. destruct H as [->|H]; [left; left; reflexivity|].
    right. exact H. }
  intros H. apply Hgen in H. destruct H as [H|[]]. exact H.
Qed.

End IsolationProofs.

Lemma addEndIndices_same : Enhanced.addEndIndices = Strict.addEndIndices.
Proof. reflexivity. Qed.

Section Isolation.
Context {E : Env}.
Variable lines : list jstr.

Lemma slice_contentLine (s : Section_) (x : jstr) :
  In x (firstn (endIndex s - S (startIndex s)) (skipn (S (startIndex s)) lines)) ->
  contentLine lines s (trim x).
Proof.
  intros H. apply In_slice_nth in H. destruct H as [i [Hi Hx]].
  exists i, x. split; [lia | split; [exact Hx | reflexivity]].
Qed.

Lemma Strict_content_lines (T : SectionType) (c : jstr) :
  In c (Strict.getSectionContent (Strict.detectSectionBoundaries lines) lines T) ->
  exists s, In s (Strict.detectSectionBoundaries lines) /\ type s = T /\ contentLine lines s c.
Proof.
  unfold Strict.getSectionContent.
  destruct (find _ _) as [s|] eqn:Hfind; [|intros []].
  apply find_some in Hfind. destruct Hfind as [Hin Hty].
  unfold Strict.sliceContent. intros H.
  apply filter_In in H. destruct H as [H _].
  apply in_map_iff in H. destruct H as [x [<- Hx]].
  exists s. split; [exact Hin|]. split; [|apply slice_contentLine; exact Hx].
  destruct (type s), T; simpl in Hty; congruence.
Qed.

Lemma Enhanced_content_lines (T : SectionType) (c : jstr) :
  In c (Enhanced.getSectionLines (Enhanced.detectSections lines) lines T) ->
  exists s, In s (Enhanced.detectSections lines) /\ type s = T /\ contentLine lines s (trim c).
Proof.
  unfold Enhanced.getSectionLines.
  destruct (find _ _) as [s|] eqn:Hfind; [|intros []].
  apply find_some in Hfind. destruct Hfind as [Hin Hty].
  intros H. apply filter_In in H. destruct H as [H _].
  exists s. split; [exact Hin|]. split; [|apply slice_contentLine; exact H].
  destruct (type s), T; simpl in Hty; congruence.
Qed.

(** Every detected span is isolated, in both detectors. *)
Lemma Strict_detected_isolated (s : Section_) :
  In s (Strict.detectSectionBoundaries lines) ->
  isolated (Strict.detectSectionBoundaries lines) s.
Proof. apply addEndIndices_isolated, Strict_scanLines_sorted. Qed.

Lemma Enhanced_detected_isolated (s : Section_) :
  In s (Enhanced.detectSections lines) ->
  isolated (Enhanced.detectSections lines) s.
Proof.
  unfold Enhanced.detectSections. rewrite addEndIndices_same.
  apply addEndIndices_isolated, sortByStart_sorted.
Qed.

(** A detected span sits on a line that the scan takes for a header, and
    every such line carries a detected span. *)
Lemma Strict_detected_line (t : Section_) :
  In t (Strict.detectSectionBoundaries lines) ->
  exists raw, nth_error lines (startIndex t) = Some raw /\ header t = trim raw
              /\ Strict.scanLine (startIndex t) raw <> [].
Proof.
  intros H. apply addEndIndices_starts in H.
  destruct H as [t0 [H0 [_ [Hst Hh]]]].
  apply Strict_scanLines_In in H0. destruct H0 as (i & raw & Hn & Hin).
  simpl in Hin. destruct (Strict_scanLine_start _ _ _ Hin) as [Hi Hhd].
  exists raw. rewrite Hst, Hh, Hi. split; [exact Hn|]. split; [exact Hhd|].
  intros Hnil. rewrite Hnil in Hin. destruct Hin.
Qed.

Lemma Strict_header_line_detected (i : nat) (raw : jstr) :
  nth_error lines i = Some raw -> Strict.scanLine i raw <> [] ->
  exists t, In t (Strict.detectSectionBoundaries lines) /\ startIndex t = i.
Proof.
  intros Hn Hne. destruct (Strict.scanLine i raw) as [|s0 l] eqn:Hscan; [congruence|].
  assert (Hin : In s0 (Strict.scanLines 0 lines)).
  { apply Strict_scanLines_In. exists i, raw. split; [exact Hn|].
    simpl. rewrite Hscan. left. reflexivity. }
  destruct (Strict_addEndIndices_In (length lines) _ _ Hin) as [t [Ht [_ [Hst _]]]].
  exists t. split; [exact Ht|]. rewrite Hst.
  assert (Hs0 : In s0 (Strict.scanLine i raw)) by (rewrite Hscan; left; reflexivity).
  apply Strict_scanLine_start in Hs0. tauto.
Qed.

Lemma Enhanced_detected_line (t : Section_) :
  In t (Enhanced.detectSections lines) ->
  exists raw, nth_error lines (startIndex t) = Some raw /\ header t = trim raw
              /\ Enhanced.scanLine (startIndex t) raw <> [].
Proof.
  unfold Enhanced.detectSections. rewrite addEndIndices_same.
  intros H. apply addEndIndices_starts in H.
  destruct H as [t0 [H0 [_ [Hst Hh]]]].
  apply sortByStart_In_inv in H0.
  apply Enhanced_scanLines_In in H0. destruct H0 as (i & raw & Hn & Hin).
  simpl in Hin. destruct (Enhanced_scanLine_start _ _ _ Hin) as [Hi Hhd].
  exists raw. rewrite Hst, Hh, Hi. split; [exact Hn|]. split; [exact Hhd|].
  intros Hnil. rewrite Hnil in Hin. destruct Hin.
Qed.

Lemma Enhanced_header_line_detected (i : nat) (raw : jstr) :
  nth_error lines i = Some raw -> Enhanced.scanLine i raw <> [] ->
  exists t, In t (Enhanced.detectSections lines) /\ startIndex t = i.
Proof.
  intros Hn Hne. destruct (Enhanced.scanLine i raw) as [|s0 l] eqn:Hscan; [congruence|].
  assert (Hin : In s0 (Enhanced.sortByStart (Enhanced.scanLines 0 lines))).
  { apply sortByStart_In. apply Enhanced_scanLines_In. exists i, raw.
    split; [exact Hn|]. simpl. rewrite Hscan. left. reflexivity. }
  destruct (Enhanced_addEndIndices_In (length lines) _ _ Hin) as [t [Ht [_ [Hst _]]]].
  exists t. split; [exact Ht|]. rewrite Hst.
  assert (Hs0 : In s0 (Enhanced.scanLine i raw)) by (rewrite Hscan; left; reflexivity).
  apply Enhanced_scanLine_start in Hs0. tauto.
Qed.

End Isolation.

(** Section isolation in the two span-based slicers: a content line of a
    section, in getSectionContent of part_000 and in getSectionLines of
    resumeParser2.js, is never the header line of a detected section;
    neither its index nor its text is that of a header. *)
Theorem span_slicers_isolate_sections {E : Env} (lines : list jstr) (T : SectionType) :
  (forall c t,
      In c (Strict.getSectionContent (Strict.detectSectionBoundaries lines) lines T) ->
      In t (Strict.detectSectionBoundaries lines) ->
      header t <> c)
  /\ (forall c t,
         In c (Enhanced.getSectionLines (Enhanced.detectSections lines) lines T) ->
         In t (Enhanced.detectSections lines) ->
         header t <> trim c).
Proof.
  split; intros c t Hc Ht Heq.
  - destruct (@Strict_content_lines _ lines T c Hc) as (s & Hs & _ & i & raw & Hi & Hn & Hraw).
    destruct (@Strict_detected_line _ lines t Ht) as (raw' & _ & Hh & Hscan).
    assert (Htext : trim raw = trim raw') by congruence.
    assert (Hne : Strict.scanLine i raw <> [])
      by (eapply Strict_scanLine_text; eassumption).
    destruct (@Strict_header_line_detected _ lines i raw Hn Hne) as (t' & Ht' & Hst).
    apply (@Strict_detected_isolated _ lines s Hs t' Ht'). lia.
  - destruct (@Enhanced_content_lines _ lines T c Hc) as (s & Hs & _ & i & raw & Hi & Hn & Hraw).
    destruct (@Enhanced_detected_line _ lines t Ht) as (raw' & _ & Hh & Hscan).
    assert (Htext : trim raw = trim raw') by congruence.
    assert (Hne : Enhanced.scanLine i raw <> [])
      by (eapply Enhanced_scanLine_text; eassumption).
    destruct (@Enhanced_header_line_detected _ lines i raw Hn Hne) as (t' & Ht' & Hst).
    apply (@Enhanced_detected_isolated _ lines s Hs t' Ht'). lia.
Qed.

Lemma span_slicers_witness :
  let lines := List.map lit ["Education"; "State University"; "Skills"; "Rocq, OCaml"]%string in
  Strict.getSectionContent (Strict.detectSectionBoundaries (E := Standin.env) lines)
                           lines education
  = [lit "State University"]
  /\ Forall (fun t => header t <> lit "State University")
            (Strict.detectSectionBoundaries (E := Standin.env) lines).
Proof.
  cbv zeta. split; [reflexivity|].
  apply Forall_forall. intros t Ht.
  apply (proj1 (@span_slicers_isolate_sections Standin.env
                  (List.map lit ["Education"; "State University"; "Skills";
                                 "Rocq, OCaml"]%string) education)
               (lit "State University") t); [left; reflexivity | exact Ht].
Defined.

(* ------------------------------------------------------------------ *)
(** ** Section content *)

Section PrototypeSlices.
Context {E : Env}.

(** Once the header is found, the prototype stops only at a line that
    matches one of the keywords it was given: every other non-empty line
    is content, a header of another section included. *)
Lemma collect_all (kws : list jstr) (rest : list jstr) :
  Forall (fun line => existsb (Simple.sectionMatch line) kws = false
                      /\ line <> []) rest ->
  Simple.collect kws rest = rest.
Proof.
  induction 1 as [|line rest [Hm Hne] _ IH]; simpl; [reflexivity|].
  rewrite Hm. destruct line as [|c line]; [congruence|]. simpl.
  f_equal. exact IH.
Qed.

Lemma extractSection_head (kws : list jstr) (hdr : jstr) (rest : list jstr) :
  existsb (Simple.sectionMatch hdr) kws = true ->
  Simple.extractSection (hdr :: rest) kws = Simple.collect kws rest.
Proof. intros H. simpl. rewrite H. reflexivity. Qed.

End PrototypeSlices.

(** C6, on extractSection of the prototype: with a fuzzy matcher that
    recognises the two headers and nothing else, the education section is
    found by its header line Education, and the content of the summary
    section holds that header line and the education lines after it. *)
Theorem C6_prototype_content_includes_next_header {E : Env} :
  recognises summaryKeywords (lit "Summary") twoSections ->
  recognises educationKeywords (lit "Education") twoSections ->
  Simple.extractSection twoSections educationKeywords = [lit "State University"]
  /\ Simple.extractSection twoSections summaryKeywords
     = List.map lit ["Builds compilers"; "Education"; "State University"]%string
  /\ In (lit "Education") (Simple.extractSection twoSections summaryKeywords).
Proof.
  unfold recognises, twoSections. simpl List.map.
  intros Hsum Hedu.
  inversion Hsum as [|? ? S0 Hs1]; subst. inversion Hs1 as [|? ? S1 Hs2]; subst.
  inversion Hs2 as [|? ? S2 Hs3]; subst. inversion Hs3 as [|? ? S3 _]; subst.
  inversion Hedu as [|? ? E0 He1]; subst. inversion He1 as [|? ? E1 He2]; subst.
  inversion He2 as [|? ? E2 He3]; subst. inversion He3 as [|? ? E3 _]; subst.
  assert (Hsummary :
            Simple.extractSection
              [lit "Summary"; lit "Builds compilers"; lit "Education"; lit "State University"]
              summaryKeywords
            = [lit "Builds compilers"; lit "Education"; lit "State University"]).
  { rewrite extractSection_head by exact S0.
    apply collect_all. repeat constructor; try assumption; discriminate. }
  split; [|split].
  - cbn [Simple.extractSection]. rewrite E0, E1, E2.
    change (Js.eqb (lit "Summary") (lit "Education")) with false.
    change (Js.eqb (lit "Builds compilers") (lit "Education")) with false.
    change (Js.eqb (lit "Education") (lit "Education")) with true.
    cbv iota. apply collect_all. repeat constructor; [exact E3 | discriminate].
  - exact Hsummary.
  - rewrite Hsummary. right. left. reflexivity.
Qed.

(** The equality score recognises the two headers and no other line. *)
Lemma C6_prototype_witness :
  In (lit "Education")
     (Simple.extractSection (E := Standin.env) twoSections summaryKeywords).
Proof.
  apply (C6_prototype_content_includes_next_header (E := Standin.env)).
  - repeat constructor.
  - repeat constructor.
Defined.

(* ------------------------------------------------------------------ *)
(** ** Name extraction *)

(** C5, on resumeParser2.js: the search runs over all lines, not the first
    five, and tests the first letter of each token only.  The seventh line
    is returned as the name, and so is a line in capitals; extractName of
    part_000 falls back to the first line on both texts. *)
Theorem C5_enhanced_name_ignores_window_and_case {E : Env} :
  get "name" (Enhanced.parseResume lateName) = Some (FStr (lit "Software Engineer"))
  /\ get "name" (Enhanced.parseResumeSecondaryApproach lateName)
     = Some (FStr (lit "Software Engineer"))
  /\ Strict.extractName (normalize lateName) = lit "john.doe@example.com"
  /\ get "name" (Enhanced.parseResume shouting) = Some (FStr (lit "JOHN DOE"))
  /\ get "name" (Enhanced.parseResumeSecondaryApproach shouting) = Some (FStr (lit "JOHN DOE"))
  /\ Strict.extractName (normalize shouting) = lit "resume".
Proof. repeat split; reflexivity. Qed.

(* ------------------------------------------------------------------ *)
(** ** The name rules of extractName *)

Section NameRules.
Context {E : Env}.

Lemma Strict_notAName_unfold :
  Strict.notAName
  = Alt notANameChar
        (Alt (seqOf chi (lit "resume"))
             (Alt (seqOf chi (lit "cv")) (seqOf chi (lit "curriculum")))).
Proof. reflexivity. Qed.

Lemma notAName_char (line : jstr) (c : N) :
  In c line -> forbiddenChar c = true -> Regex.test Strict.notAName line = true.
Proof.
  intros Hin Hc. apply in_split in Hin. destruct Hin as (pre & post & ->).
  unfold Regex.test.
  assert (M : matches Strict.notAName (length pre) (c :: post) [] (S (length pre)) post []).
  { rewrite Strict_notAName_unfold. apply MAltL. constructor. exact Hc. }
  destruct (exec_complete pre M) as [m ->]. reflexivity.
Qed.

Lemma notAName_word (line : jstr) :
  mentions "resume" line \/ mentions "cv" line \/ mentions "curriculum" line ->
  Regex.test Strict.notAName line = true.
Proof.
  intros H. unfold Regex.test.
  assert (Hm : exists pre rest pos' rest' cs',
             line = pre ++ rest
             /\ matches Strict.notAName (length pre) rest [] pos' rest' cs').
  { rewrite Strict_notAName_unfold.
    destruct H as [(pre & tok & post & -> & Ht)|[(pre & tok & post & -> & Ht)
                                                |(pre & tok & post & -> & Ht)]];
      exists pre, (tok ++ post); do 3 eexists; (split; [reflexivity|]).
    - apply MAltR, MAltL. apply matches_wordi_intro. exact Ht.
    - apply MAltR, MAltR, MAltL. apply matches_wordi_intro. exact Ht.
    - apply MAltR, MAltR, MAltR. apply matches_wordi_intro. exact Ht. }
  destruct Hm as (pre & rest & pos' & rest' & cs' & -> & M).
  destruct (exec_complete pre M) as [m ->]. reflexivity.
Qed.

(** What a line must satisfy to be returned by the loop of extractName. *)
Lemma Strict_looksLikeName_rules (line : jstr) :
  Strict.looksLikeName line = true ->
  (forall c, In c line -> forbiddenChar c = false)
  /\ ~ mentions "resume" line /\ ~ mentions "cv" line
  /\ 2 <= length (Regex.split Pat.spaces line) <= 4
  /\ Forall (fun w => Strict.properCase w = true) (Regex.split Pat.spaces line).
Proof.
  unfold Strict.looksLikeName.
  destruct (Regex.test Strict.notAName line) eqn:Htest; [discriminate|].
  cbn [orb].
  destruct (Nat.ltb (length line) 3 || Nat.ltb 50 (length line)); [discriminate|].
  intros H.
  apply andb_true_iff in H. destruct H as [H Hcase].
  apply andb_true_iff in H. destruct H as [Hlo Hhi].
  apply Nat.leb_le in Hlo, Hhi.
  split; [|split; [|split; [|split]]].
  - intros c Hin. destruct (forbiddenChar c) eqn:Hc; [|reflexivity].
    rewrite (notAName_char _ _ Hin Hc) in Htest. discriminate.
  - intros Hm. rewrite notAName_word in Htest; [discriminate | tauto].
  - intros Hm. rewrite notAName_word in Htest; [discriminate | tauto].
  - lia.
  - apply Forall_forall. intros w Hw. rewrite forallb_forall in Hcase. auto.
Qed.

(** The first line of a window that looks like a name, if any. *)
Lemma firstName_spec (window : list jstr) :
  match Strict.firstName window with
  | Some x =>
      exists i raw,
        nth_error window i = Some raw /\ x = trim raw
        /\ Strict.looksLikeName (trim raw) = true
  | None => forall raw, In raw window -> Strict.looksLikeName (trim raw) = false
  end.
Proof.
  induction window as [|raw0 window IH]; simpl; [tauto|].
  destruct (Strict.looksLikeName (trim raw0)) eqn:H0.
  - exists 0, raw0. repeat split. exact H0.
  - destruct (Strict.firstName window) as [x|].
    + destruct IH as (i & raw & Hn & Hx & Hl). exists (S i), raw. repeat split; assumption.
    + intros raw [<-|Hin]; [exact H0 | apply IH; exact Hin].
Qed.

End NameRules.

(** The name rules of extractName in part_000: the name is a line among
    the first five that has no digit, at or plus sign, no resume or cv keyword,
    two to four tokens, each with an upper-case first letter and the rest
    in lower case; when no such line exists it is the first line. *)
Theorem Strict_extractName_rules {E : Env} (lines : list jstr) :
  (exists i raw,
      i < 5 /\ nth_error lines i = Some raw
      /\ Strict.extractName lines = trim raw
      /\ (forall c, In c (trim raw) -> forbiddenChar c = false)
      /\ ~ mentions "resume" (trim raw) /\ ~ mentions "cv" (trim raw)
      /\ 2 <= length (Regex.split Pat.spaces (trim raw)) <= 4
      /\ Forall (fun w => Strict.properCase w = true) (Regex.split Pat.spaces (trim raw)))
  \/ ((forall i raw, i < 5 -> nth_error lines i = Some raw ->
                     Strict.looksLikeName (trim raw) = false)
      /\ Strict.extractName lines = match lines with l0 :: _ => trim l0 | [] => [] end).
Proof.
  unfold Strict.extractName.
  pose proof (firstName_spec (firstn (Nat.min 5 (length lines)) lines)) as Hspec.
  destruct (Strict.firstName _) as [x|].
  - left. destruct Hspec as (i & raw & Hn & -> & Hl).
    rewrite nth_error_firstn in Hn.
    destruct (Nat.ltb i (Nat.min 5 (length lines))) eqn:Hi; [|discriminate].
    apply Nat.ltb_lt in Hi.
    exists i, raw. split; [lia|]. split; [exact Hn|]. split; [reflexivity|].
    apply Strict_looksLikeName_rules. exact Hl.
  - right. split; [|reflexivity].
    intros i raw Hi Hn. apply Hspec.
    apply nth_error_In with (n := i). rewrite nth_error_firstn.
    assert (Hlen : i < length lines) by (apply nth_error_Some; congruence).
    assert (Hlt : Nat.ltb i (Nat.min 5 (length lines)) = true)
      by (apply Nat.ltb_lt; lia).
    rewrite Hlt. exact Hn.
Qed.

(* ------------------------------------------------------------------ *)
(** ** The skills lists of resumeParser2.js *)

Section EnhancedSkills.
Context {E : Env}.

Lemma skillList_sized (x s : jstr) : In s (Enhanced.skillList x) -> skillSized s.
Proof.
  unfold Enhanced.skillList. intros H.
  apply filter_In in H. destruct H as [Hin Hlen].
  apply in_map_iff in Hin. destruct Hin as [y [<- _]].
  apply andb_true_iff in Hlen. destruct Hlen as [H1 H2].
  apply Nat.ltb_lt in H1, H2.
  unfold skillSized. rewrite trim_idempotent. split; assumption.
Qed.

Lemma primarySkills_sized (ls : list jstr) (s : jstr) :
  In s (Enhanced.primarySkills ls) -> skillSized s.
Proof.
  unfold Enhanced.primarySkills. intros H.
  apply in_flat_map in H. destruct H as [line [_ H]].
  unfold Enhanced.primarySkillsOfLine in H.
  eapply skillList_sized. exact H.
Qed.

Lemma secondarySkills_sized (rs : list (jstr * Enhanced.RawSection)) (s : jstr) :
  In s (Enhanced.secondarySkills rs) -> skillSized s.
Proof.
  unfold Enhanced.secondarySkills.
  destruct (Enhanced.rawSection "skills" rs) as [sec|]; [|intros []].
  intros H. apply in_flat_map in H. destruct H as [line [_ H]].
  destruct (nonEmpty (trim line)); [|destruct H].
  eapply skillList_sized. exact H.
Qed.

Lemma skillSized_not_single (c : N) : ~ skillSized [c].
Proof.
  unfold skillSized. intros [H _].
  assert (Hle : length (trim [c]) <= 1).
  { unfold trim, trimEnd. simpl.
    destruct (isSpace c) eqn:Hc; simpl; rewrite ?Hc; simpl; lia. }
  lia.
Qed.

End EnhancedSkills.

(** C9: in both parse functions of resumeParser2.js every element of the
    returned skills list has a trimmed length strictly between 1 and 50,
    so a one-character token such as C or R is never in the list. *)
Theorem C9_skills_length_bounds {E : Env} (text : jstr) :
  let primary := strings (get "skills" (Enhanced.parseResume text)) in
  let secondary := strings (get "skills" (Enhanced.parseResumeSecondaryApproach text)) in
  Forall skillSized primary /\ Forall skillSized secondary
  /\ (forall c : N, ~ In [c] primary /\ ~ In [c] secondary).
Proof.
  cbv zeta.
  assert (H1 : Forall skillSized (strings (get "skills" (Enhanced.parseResume text)))).
  { apply Forall_forall. intros s Hs. simpl in Hs.
    apply dedup_incl in Hs. eapply primarySkills_sized. exact Hs. }
  assert (H2 : Forall skillSized
                 (strings (get "skills" (Enhanced.parseResumeSecondaryApproach text)))).
  { apply Forall_forall. intros s Hs. simpl in Hs.
    apply dedup_incl in Hs. eapply secondarySkills_sized. exact Hs. }
  split; [exact H1|]. split; [exact H2|].
  intros c. rewrite Forall_forall in H1, H2.
  split; intros Hin; [apply H1 in Hin | apply H2 in Hin];
    exact (skillSized_not_single Hin).
Qed.

(* ------------------------------------------------------------------ *)
(** ** Labelled skills lines *)

Lemma indexOfFrom_first (c : N) (label rest : jstr) :
  ~ In c label ->
  forall k, indexOfFrom k [c] (label ++ c :: rest) = Some (k + length label).
Proof.
  induction label as [|x label IH]; intros Hnot k; simpl.
  - rewrite N.eqb_refl. simpl. f_equal. lia.
  - destruct (N.eqb c x) eqn:Hx.
    + apply N.eqb_eq in Hx. subst. exfalso. apply Hnot. left. reflexivity.
    + simpl. rewrite IH; [f_equal; lia|].
      intros Hin. apply Hnot. right. exact Hin.
Qed.

(** On a line with a label, the primary approach splits what follows the
    first colon and nothing else. *)
Lemma primarySkills_after_label {E : Env} (label rest : jstr) :
  ~ In (cu ":") label ->
  Enhanced.primarySkillsOfLine (label ++ cu ":" :: rest) = Enhanced.skillList rest.
Proof.
  intros Hnot. unfold Enhanced.primarySkillsOfLine, indexOf.
  change (lit ":") with [cu ":"].
  rewrite (indexOfFrom_first _ _ rest Hnot). simpl Nat.add.
  unfold substring.
  replace (length label + 1) with (length (label ++ [cu ":"])) by (rewrite length_app; reflexivity).
  replace (label ++ cu ":" :: rest) with ((label ++ [cu ":"]) ++ rest)
    by (rewrite <- app_assoc; reflexivity).
  rewrite skipn_app, skipn_all, Nat.sub_diag. reflexivity.
Qed.

Lemma primarySkills_after_label_witness :
  Enhanced.primarySkillsOfLine (lit "Tools: Git, Docker")
  = List.map lit ["Git"; "Docker"]%string.
Proof.
  change (lit "Tools: Git, Docker") with (lit "Tools" ++ cu ":" :: lit " Git, Docker").
  rewrite (@primarySkills_after_label Standin.env (lit "Tools") (lit " Git, Docker"));
    [reflexivity|].
  intros H. repeat (destruct H as [H|H]; [discriminate|]). exact H.
Defined.


(** C8, on the secondary approach of resumeParser2.js: the raw text of the
    skills section is split at colons as well as at line ends, so the label
    is a line of its own and lands in the list.  The primary approach and
    parseSkills of part_000 keep the text after the colon only. *)
Theorem C8_secondary_keeps_the_label {E : Env} :
  strings (get "skills"
             (Enhanced.parseResumeSecondaryApproach (lit "Skills" ++ [10%N] ++ labelled)))
  = List.map lit ["Languages"; "C++"; "Python"; "Go"]%string
  /\ Enhanced.primarySkills [labelled] = List.map lit ["C++"; "Python"; "Go"]%string
  /\ Strict.parseSkills [labelled] = List.map lit ["C++"; "Python"; "Go"]%string.
Proof. repeat split; reflexivity. Qed.

(* ------------------------------------------------------------------ *)
(** ** The experience parser of part_000 *)

Section StrictExperience.
Context {E : Env}.
Variable lines : list jstr.

Lemma flush_pushBullet (done : list Experience) (e : Experience) (b : jstr) (cb : bool) :
  List.map company
      (Strict.flush {| Strict.experiences := done;
                       Strict.currentExp := Some (Strict.pushBullet e b);
                       Strict.collectingBullets := cb |})
  = List.map company
        (Strict.flush {| Strict.experiences := done; Strict.currentExp := Some e;
                         Strict.collectingBullets := cb |}).
Proof. unfold Strict.flush. simpl. rewrite !map_app. reflexivity. Qed.

(** One turn of the loop adds the company of an anchor and leaves the
    companies of the earlier entries alone. *)
Lemma expStep_company (i : nat) (st : Strict.ExpState) :
  List.map company (Strict.flush (Strict.expStep lines i st))
  = List.map company (Strict.flush st)
    ++ (if isAnchor lines i then [precedingLine lines i] else []).
Proof.
  unfold Strict.expStep, isAnchor.
  set (line := trim (nth i lines [])).
  destruct (Regex.test Pat.dateRangePattern line).
  - unfold Strict.flush at 1.
    cbn [Strict.experiences Strict.currentExp]. rewrite map_app. reflexivity.
  - rewrite app_nil_r.
    destruct st as [done cur cb].
    cbn [Strict.experiences Strict.currentExp Strict.collectingBullets].
    destruct cb; [|reflexivity].
    destruct cur as [e|]; [|reflexivity].
    destruct (startsWith [bullet] line); [apply flush_pushBullet|].
    destruct (Nat.ltb 0 (length line) && negb (Regex.test Strict.headerLike line)).
    + destruct (Nat.ltb 0 (length (overview e))); [apply flush_pushBullet | reflexivity].
    + destruct (Regex.test Strict.headerLike line && Nat.ltb (length line) 30);
        reflexivity.
Qed.

Lemma expFold_company (idx : list nat) (st : Strict.ExpState) :
  List.map company
      (Strict.flush (fold_left (fun st i => Strict.expStep lines i st) idx st))
  = List.map company (Strict.flush st)
    ++ List.map (precedingLine lines) (filter (isAnchor lines) idx).
Proof.
  revert st. induction idx as [|i idx IH]; intros st; simpl.
  - rewrite app_nil_r. reflexivity.
  - rewrite IH, expStep_company.
    destruct (isAnchor lines i); simpl.
    + rewrite <- app_assoc. reflexivity.
    + rewrite app_nil_r. reflexivity.
Qed.

End StrictExperience.

(** C10: in parseWorkExperience the entries are the date-range lines, in
    order, and the company of each is the line just before its anchor,
    whatever that line is (a bullet, text of the entry before); an anchor
    on the first line of the section gets the empty string. *)
Theorem C10_company_is_preceding_line {E : Env} (lines : list jstr) :
  List.map company (Strict.parseWorkExperience lines)
  = List.map (precedingLine lines) (filter (isAnchor lines) (seq 0 (length lines)))
  /\ precedingLine lines 0 = []
  /\ (forall j, precedingLine lines (S j) = trim (nth j lines [])).
Proof.
  split; [|split; [reflexivity | intros j; reflexivity]].
  unfold Strict.parseWorkExperience, Strict.expLoop.
  rewrite expFold_company. reflexivity.
Qed.

(* ------------------------------------------------------------------ *)
(** ** Sets of skills *)

Lemma eqb_eq (a b : jstr) : Js.eqb a b = true <-> a = b.
Proof.
  revert b. induction a as [|x a IH]; intros [|y b]; simpl; split; intros H;
    try reflexivity; try discriminate.
  - apply andb_true_iff in H. destruct H as [Hx Ha].
    apply N.eqb_eq in Hx. apply IH in Ha. congruence.
  - injection H as -> ->. rewrite N.eqb_refl. simpl. apply IH. reflexivity.
Qed.

Lemma existsb_eqb_In (x : jstr) (seen : list jstr) :
  existsb (Js.eqb x) seen = true <-> In x seen.
Proof.
  rewrite existsb_exists. split.
  - intros [y [Hy Hxy]]. apply eqb_eq in Hxy. subst. exact Hy.
  - intros H. exists x. split; [exact H | apply eqb_eq; reflexivity].
Qed.

Lemma dedupAux_fresh (l seen : list jstr) (x : jstr) :
  In x (dedupAux seen l) -> ~ In x seen.
Proof.
  revert seen. induction l as [|y l IH]; intros seen; simpl; [tauto|].
  destruct (existsb (Js.eqb y) seen) eqn:Hy.
  - apply IH.
  - intros [<-|H].
    + intros Hin. apply existsb_eqb_In in Hin. congruence.
    + intros Hin. apply (IH _ H). right. exact Hin.
Qed.

Lemma dedupAux_NoDup (l seen : list jstr) : NoDup (dedupAux seen l).
Proof.
  revert seen. induction l as [|y l IH]; intros seen; simpl; [constructor|].
  destruct (existsb (Js.eqb y) seen); [apply IH|].
  constructor; [|apply IH].
  intros Hin. apply dedupAux_fresh in Hin. apply Hin. left. reflexivity.
Qed.

Lemma dedupAux_complete (l seen : list jstr) (x : jstr) :
  In x l -> In x seen \/ In x (dedupAux seen l).
Proof.
  revert seen. induction l as [|y l IH]; intros seen; simpl; [tauto|].
  intros [->|H].
  - destruct (existsb (Js.eqb x) seen) eqn:Hx.
    + left. apply existsb_eqb_In. exact Hx.
    + right. left. reflexivity.
  - destruct (existsb (Js.eqb y) seen).
    + apply IH. exact H.
    + destruct (IH (y :: seen) H) as [[->|Hs]|Hd].
      * right. left. reflexivity.
      * left. exact Hs.
      * right. right. exact Hd.
Qed.

(** [[...new Set(l)]] has the elements of [l], each once. *)
Lemma dedup_set (l : list jstr) :
  NoDup (dedup l) /\ (forall x, In x (dedup l) <-> In x l).
Proof.
  split; [apply dedupAux_NoDup|].
  intros x. split; [apply dedup_incl|].
  intros H. destruct (dedupAux_complete l [] x H) as [[]|Hd]. exact Hd.
Qed.

Lemma get_absent (k : string) (r : resume) :
  ~ In k (List.map fst r) -> get k r = None.
Proof.
  induction r as [|[k' v] r IH]; simpl; [reflexivity|].
  intros H. destruct (String.eqb k k') eqn:Hk.
  - apply String.eqb_eq in Hk. subst. exfalso. apply H. left. reflexivity.
  - apply IH. intros Hin. apply H. right. exact Hin.
Qed.

(** Reading a key after the clean-up, when no key is there twice. *)
Lemma get_cleanUp (k : string) (r : resume) :
  NoDup (List.map fst r) ->
  get k (Strict.cleanUp r)
  = match get k r with
    | Some v => if isEmptyArray v || isBlankString v then None else Some v
    | None => None
    end.
Proof.
  unfold Strict.cleanUp.
  induction r as [|[k' v] r IH]; simpl; [reflexivity|].
  intros Hnd. inversion Hnd as [|? ? Hnot Hrest]; subst.
  destruct (isEmptyArray v || isBlankString v) eqn:Hv; simpl.
  - destruct (String.eqb k k') eqn:Hk; [|apply IH; exact Hrest].
    apply String.eqb_eq in Hk. subst k'. rewrite Hv.
    apply get_absent. intros Hin. apply Hnot.
    apply in_map_iff in Hin. destruct Hin as [[k2 v2] [Hk2 Hin]].
    apply filter_In in Hin. destruct Hin as [Hin _].
    simpl in Hk2. subst k2. apply in_map_iff. exists (k, v2). split; [reflexivity | exact Hin].
  - destruct (String.eqb k k'); [rewrite Hv; reflexivity | apply IH; exact Hrest].
Qed.

Lemma filter_subseq {A : Type} (f : A -> bool) (l : list A) : subseq (filter f l) l.
Proof.
  induction l as [|x l IH]; simpl; [constructor|].
  destruct (f x); [apply subseq_keep | apply subseq_drop]; exact IH.
Qed.

Lemma subseq_map {A B : Type} (g : A -> B) (l m : list A) :
  subseq l m -> subseq (List.map g l) (List.map g m).
Proof. induction 1; simpl; constructor; assumption. Qed.

Lemma subseq_In {A : Type} (l m : list A) (x : A) : subseq l m -> In x l -> In x m.
Proof.
  induction 1 as [|y l m _ IH|y l m _ IH]; simpl; [tauto| |].
  - intros [->|H]; [left; reflexivity | right; apply IH; exact H].
  - intros H. right. apply IH. exact H.
Qed.

Lemma subseq_NoDup {A : Type} (l m : list A) : subseq l m -> NoDup m -> NoDup l.
Proof.
  induction 1 as [|y l m Hs IH|y l m Hs IH]; intros Hm; [constructor| |].
  - inversion Hm as [|? ? Hnot Hrest]; subst. constructor; [|apply IH; exact Hrest].
    intros Hin. apply Hnot. eapply subseq_In; eassumption.
  - inversion Hm; subst. apply IH. assumption.
Qed.

Lemma schemaKeys_NoDup : NoDup schemaKeys.
Proof.
  unfold schemaKeys.
  repeat (constructor; [simpl; intuition discriminate|]). constructor.
Qed.

Lemma assemble_keys {E : Env} (text : jstr) :
  List.map fst (Strict.assemble text) = schemaKeys.
Proof. reflexivity. Qed.

(** The record of part_000 after its clean-up: its keys are keys of the
    object literal, in that order and each at most once, and the address,
    for which nothing is ever extracted, is never among them. *)
Theorem Strict_record_keys {E : Env} (text : jstr) :
  subseq (List.map fst (Strict.parseResume text)) schemaKeys
  /\ NoDup (List.map fst (Strict.parseResume text))
  /\ get "address" (Strict.parseResume text) = None.
Proof.
  assert (Hsub : subseq (List.map fst (Strict.parseResume text)) schemaKeys).
  { rewrite <- (assemble_keys text). apply subseq_map. apply filter_subseq. }
  split; [exact Hsub|]. split; [exact (subseq_NoDup Hsub schemaKeys_NoDup)|].
  unfold Strict.parseResume. rewrite get_cleanUp.
  - reflexivity.
  - rewrite assemble_keys. apply schemaKeys_NoDup.
Qed.

Section SkillSets.
Context {E : Env}.

Lemma Strict_skillsOfLine_tokens (line s : jstr) :
  In s (Strict.skillsOfLine line) -> trimmedToken s.
Proof.
  unfold Strict.skillsOfLine.
  destruct (exec Strict.categoryPattern line) as [m|]; intros H;
    apply filter_In in H; destruct H as [Hin Hlen];
    apply in_map_iff in Hin; destruct Hin as [y [<- _]];
    (split; [|apply trim_idempotent]).
  - intros Hnil. rewrite Hnil in Hlen. discriminate.
  - intros Hnil. rewrite Hnil in Hlen. discriminate.
Qed.

End SkillSets.

(** parseSkills of part_000 returns non-empty, trimmed tokens, each once,
    and the token of every line is in the result. *)
Theorem Strict_parseSkills_is_a_set {E : Env} (lines : list jstr) :
  NoDup (Strict.parseSkills lines)
  /\ Forall trimmedToken (Strict.parseSkills lines)
  /\ (forall line s, In line lines -> In s (Strict.skillsOfLine line) ->
                     In s (Strict.parseSkills lines)).
Proof.
  unfold Strict.parseSkills.
  destruct (dedup_set (flat_map Strict.skillsOfLine lines)) as [Hnd Hiff].
  split; [exact Hnd|]. split.
  - apply Forall_forall. intros s Hs. apply Hiff in Hs.
    apply in_flat_map in Hs. destruct Hs as [line [_ Hs]].
    eapply Strict_skillsOfLine_tokens. exact Hs.
  - intros line s Hl Hs. apply Hiff. apply in_flat_map. exists line. split; assumption.
Qed.

(** The skills field never holds a skill twice, in any of the three
    assemblers that build one with a Set. *)
Theorem skills_have_no_duplicates {E : Env} (text : jstr) :
  NoDup (strings (get "skills" (Strict.parseResume text)))
  /\ NoDup (strings (get "skills" (Enhanced.parseResume text)))
  /\ NoDup (strings (get "skills" (Enhanced.parseResumeSecondaryApproach text))).
Proof.
  split; [|split].
  - unfold Strict.parseResume. rewrite get_cleanUp
      by (rewrite assemble_keys; apply schemaKeys_NoDup).
    cbn [get Strict.assemble String.eqb Ascii.eqb Bool.eqb andb strings].
    match goal with
    | |- NoDup (strings (if ?b then None else Some (FStrs ?l))) =>
        destruct b; simpl; [constructor|]
    end.
    unfold Strict.parseSkills. apply dedupAux_NoDup.
  - simpl. apply dedupAux_NoDup.
  - simpl. apply dedupAux_NoDup.
Qed.

(* ------------------------------------------------------------------ *)
(** ** The shape of the detected spans *)

Lemma addEndIndices_sorted (n : nat) (ss : list Section_) :
  StronglySorted byStart ss -> StronglySorted byStart (Strict.addEndIndices n ss).
Proof.
  induction 1 as [|a ss Hs IH Hall]; simpl; constructor; [exact IH|].
  apply Forall_forall. intros t Ht.
  destruct (addEndIndices_starts _ _ _ Ht) as [t0 [Ht0 [_ [Hst _]]]].
  rewrite Forall_forall in Hall. specialize (Hall _ Ht0).
  unfold byStart in *. simpl. lia.
Qed.

Lemma addEndIndices_chained (n : nat) (ss : list Section_) :
  chained n (Strict.addEndIndices n ss).
Proof.
  induction ss as [|a ss IH]; simpl; [exact I|].
  split; [|exact IH]. destruct ss as [|t ss]; reflexivity.
Qed.

Lemma addEndIndices_inBounds (n : nat) (ss : list Section_) :
  StronglySorted byStart ss ->
  Forall (fun s => startIndex s < n) ss ->
  Forall (inBounds n) (Strict.addEndIndices n ss).
Proof.
  induction 1 as [|a ss Hs IH Hall]; intros Hlt; simpl; [constructor|].
  inversion Hlt as [|? ? Ha Hrest]; subst.
  constructor; [|apply IH; exact Hrest].
  unfold inBounds. simpl. split; [exact Ha|].
  destruct ss as [|t ss]; [lia|].
  inversion Hall as [|? ? Hat _]; subst. inversion Hrest as [|? ? Ht _]; subst.
  unfold byStart in Hat. lia.
Qed.

Lemma addEndIndices_wellFormed (n : nat) (ss : list Section_) :
  StronglySorted byStart ss ->
  Forall (fun s => startIndex s < n) ss ->
  wellFormedSpans n (Strict.addEndIndices n ss).
Proof.
  intros Hs Hlt. split; [apply addEndIndices_sorted; exact Hs|].
  split; [apply addEndIndices_chained | apply addEndIndices_inBounds; assumption].
Qed.

(** Both detectors return spans in line order; each span ends where the
    next begins and the last at the end of the document; every span starts
    on a line of the document. *)
Theorem detected_spans_are_chained {E : Env} (lines : list jstr) :
  wellFormedSpans (length lines) (Strict.detectSectionBoundaries lines)
  /\ wellFormedSpans (length lines) (Enhanced.detectSections lines).
Proof.
  split.
  - apply addEndIndices_wellFormed; [apply Strict_scanLines_sorted|].
    apply Forall_forall. intros s Hs.
    apply Strict_scanLines_In in Hs. destruct Hs as (i & raw & Hn & Hs).
    apply Strict_scanLine_start in Hs. destruct Hs as [-> _].
    assert (i < length lines) by (apply nth_error_Some; congruence). lia.
  - unfold Enhanced.detectSections. rewrite addEndIndices_same.
    apply addEndIndices_wellFormed; [apply sortByStart_sorted|].
    apply Forall_forall. intros s Hs. apply sortByStart_In_inv in Hs.
    apply Enhanced_scanLines_In in Hs. destruct Hs as (i & raw & Hn & Hs).
    apply Enhanced_scanLine_start in Hs. destruct Hs as [-> _].
    assert (i < length lines) by (apply nth_error_Some; congruence). lia.
Qed.

(** In detectSections a line whose lowered text has fewer than three
    units, or begins with a bullet or a digit, starts no span. *)
Theorem Enhanced_skipped_line_starts_no_span {E : Env}
        (lines : list jstr) (i : nat) (raw : jstr) (s : Section_) :
  nth_error lines i = Some raw ->
  Enhanced.skipped (toLowerCase (trim raw)) = true ->
  In s (Enhanced.detectSections lines) ->
  startIndex s <> i.
Proof.
  intros Hn Hskip Hs Heq.
  destruct (@Enhanced_detected_line _ lines s Hs) as (raw' & Hn' & _ & Hscan).
  rewrite Heq, Hn in Hn'. injection Hn' as <-.
  apply Hscan. unfold Enhanced.scanLine. rewrite Hskip. reflexivity.
Qed.

Lemma Enhanced_skipped_line_witness :
  Forall (fun s => startIndex s <> 1)
         (Enhanced.detectSections (E := Standin.env)
            [lit "Skills"; lit "2 years of experience"]).
Proof.
  apply Forall_forall. intros s Hs.
  apply (@Enhanced_skipped_line_starts_no_span Standin.env
           [lit "Skills"; lit "2 years of experience"] 1
           (lit "2 years of experience") s); [reflexivity | reflexivity | exact Hs].
Defined.

(** In detectSectionBoundaries a span of type [T] starts at a line exactly
    when the lowered, trimmed line qualifies for a keyword of [T]. *)
Theorem Strict_span_iff_keyword {E : Env}
        (lines : list jstr) (i : nat) (raw : jstr) (T : SectionType) :
  nth_error lines i = Some raw ->
  ((exists s, In s (Strict.detectSectionBoundaries lines)
              /\ startIndex s = i /\ type s = T)
   <->
   (exists kws kw, In (T, kws) Strict.sectionKeywords /\ In kw kws
                   /\ Strict.qualifies (toLowerCase (trim raw)) kw = true)).
Proof.
  intros Hn. split.
  - intros (s & Hs & Hi & HT).
    apply addEndIndices_starts in Hs. destruct Hs as (t0 & H0 & HT0 & Hst & _).
    apply Strict_scanLines_In in H0. destruct H0 as (j & raw' & Hn' & Hin).
    simpl in Hin. destruct (Strict_scanLine_start _ _ _ Hin) as [Hj _].
    assert (Hji : j = i) by congruence.
    rewrite Hji, Hn in Hn'. rewrite Hji in Hin. injection Hn' as <-.
    unfold Strict.scanLine in Hin. apply in_flat_map in Hin.
    destruct Hin as [[ty kws] [Hkw Hin]].
    rewrite Strict_scanKeywords_cases in Hin.
    destruct (existsb _ kws) eqn:Hex; [|destruct Hin].
    destruct Hin as [<-|[]]. simpl in HT0.
    apply existsb_exists in Hex. destruct Hex as [kw [Hkw' Hq]].
    exists kws, kw. split; [congruence|]. split; assumption.
  - intros (kws & kw & Hkws & Hkw & Hq).
    assert (Hin : In {| type := T; startIndex := i; header := trim raw; endIndex := 0 |}
                     (Strict.scanLines 0 lines)).
    { apply Strict_scanLines_In. exists i, raw. split; [exact Hn|]. simpl.
      apply Strict_scanLine_In with (kws := kws); [exact Hkws|].
      apply existsb_exists. exists kw. split; assumption. }
    destruct (Strict_addEndIndices_In (length lines) _ _ Hin) as [t [Ht [HT [Hst _]]]].
    exists t. split; [exact Ht|]. split; assumption.
Qed.

Lemma Strict_span_iff_keyword_witness :
  exists s, In s (Strict.detectSectionBoundaries (E := Standin.env) [lit "Work Experience"])
            /\ startIndex s = 0 /\ type s = experience.
Proof.
  apply (proj2 (@Strict_span_iff_keyword Standin.env [lit "Work Experience"] 0
                  (lit "Work Experience") experience eq_refl)).
  exists (List.map lit ["experience"; "work experience"; "employment";
                        "professional experience"; "career history";
                        "work history"]%string), (lit "experience").
  split; [do 2 right; left; reflexivity|]. split; [left; reflexivity | reflexivity].
Defined.

(* ------------------------------------------------------------------ *)
(** ** The raw sections of the secondary approach *)

Section RawSections.
Context {E : Env}.

Lemma boundaryOf_cases (i : nat) (raw line : jstr) (secs : list jstr) (b : Enhanced.Boundary) :
  In b (Enhanced.boundaryOf i raw line secs) ->
  Enhanced.index b = i /\ Enhanced.originalName b = raw /\ In (Enhanced.bname b) secs.
Proof.
  induction secs as [|sec secs IH]; simpl; [tauto|].
  destruct (includes sec line && Nat.ltb (length line) (length sec + 20)).
  - intros [<-|[]]. simpl. repeat split. left. reflexivity.
  - intros H. destruct (IH H) as (Hi & Ho & Hn). repeat split; try assumption.
    right. exact Hn.
Qed.

Lemma boundaryOf_at_most_one (i : nat) (raw line : jstr) (secs : list jstr) :
  length (Enhanced.boundaryOf i raw line secs) <= 1.
Proof.
  induction secs as [|sec secs IH]; simpl; [lia|].
  destruct (includes sec line && Nat.ltb (length line) (length sec + 20)); simpl; lia.
Qed.

Lemma boundaries_In (lines : list jstr) :
  forall k b, In b (Enhanced.boundaries k lines) ->
              k <= Enhanced.index b < k + length lines
              /\ In (Enhanced.bname b) Enhanced.commonSections
              /\ nth_error lines (Enhanced.index b - k) = Some (Enhanced.originalName b).
Proof.
  induction lines as [|raw lines IH]; intros k b;
    cbn [Enhanced.boundaries length]; [intros []|].
  rewrite in_app_iff. intros [H|H].
  - apply boundaryOf_cases in H. destruct H as (Hi & Ho & Hn).
    rewrite Hi, Ho, Nat.sub_diag. split; [lia|]. split; [exact Hn | reflexivity].
  - destruct (IH _ _ H) as (Hi & Hn & Hnth). split; [lia|]. split; [exact Hn|].
    replace (Enhanced.index b - k) with (S (Enhanced.index b - S k)) by lia.
    exact Hnth.
Qed.

Lemma boundaries_sorted (lines : list jstr) :
  forall k, StronglySorted byIndex (Enhanced.boundaries k lines).
Proof.
  induction lines as [|raw lines IH]; intros k;
    cbn [Enhanced.boundaries]; [constructor|].
  pose proof (boundaryOf_at_most_one k raw (toLowerCase raw) Enhanced.commonSections) as Hlen.
  destruct (Enhanced.boundaryOf k raw (toLowerCase raw) Enhanced.commonSections)
    as [|b [|b' l]] eqn:Hb; cbn [app length] in *; [apply IH| |lia].
  constructor; [apply IH|].
  assert (Hbi : Enhanced.index b = k).
  { eapply boundaryOf_cases. rewrite Hb. left. reflexivity. }
  apply Forall_forall. intros t Ht. apply boundaries_In in Ht.
  unfold byIndex. lia.
Qed.

Lemma rawSection_filter_ne (nm : string) (key : jstr) (acc : list (jstr * Enhanced.RawSection)) :
  key <> lit nm ->
  Enhanced.rawSection nm (filter (fun kv => negb (Js.eqb (fst kv) key)) acc)
  = Enhanced.rawSection nm acc.
Proof.
  intros Hne. induction acc as [|[k v] acc IH]; simpl; [reflexivity|].
  destruct (Js.eqb k key) eqn:Hk; simpl.
  - apply eqb_eq in Hk. subst k.
    destruct (Js.eqb key (lit nm)) eqn:Hkn; [apply eqb_eq in Hkn; congruence | exact IH].
  - rewrite IH. reflexivity.
Qed.

Lemma fillRaw_other_names (lines : list jstr) (nm : string) (bs : list Enhanced.Boundary) :
  Forall (fun b => Enhanced.bname b <> lit nm) bs ->
  forall acc, Enhanced.rawSection nm (Enhanced.fillRaw lines bs acc)
              = Enhanced.rawSection nm acc.
Proof.
  induction 1 as [|b bs Hb _ IH]; intros acc; simpl; [reflexivity|].
  rewrite IH. simpl.
  destruct (Js.eqb (Enhanced.bname b) (lit nm)) eqn:Hk;
    [apply eqb_eq in Hk; congruence|].
  apply rawSection_filter_ne. exact Hb.
Qed.

Lemma fillRaw_app (lines : list jstr) (pre l : list Enhanced.Boundary) :
  forall acc, exists acc',
      Enhanced.fillRaw lines (pre ++ l) acc = Enhanced.fillRaw lines l acc'.
Proof.
  induction pre as [|a pre IH]; intros acc; simpl; [exists acc; reflexivity|].
  apply IH.
Qed.

Lemma fillRaw_keys (lines : list jstr) (bs : list Enhanced.Boundary) :
  forall acc,
    NoDup (List.map fst acc) ->
    NoDup (List.map fst (Enhanced.fillRaw lines bs acc))
    /\ (forall k, In k (List.map fst (Enhanced.fillRaw lines bs acc)) ->
                  In k (List.map fst acc) \/ In k (List.map Enhanced.bname bs)).
Proof.
  induction bs as [|b bs IH]; intros acc Hnd; simpl; [split; [exact Hnd | tauto]|].
  set (acc' := filter (fun kv => negb (Js.eqb (fst kv) (Enhanced.bname b))) acc).
  assert (Hsub : forall k, In k (List.map fst acc') ->
                           In k (List.map fst acc) /\ k <> Enhanced.bname b).
  { intros k Hk. apply in_map_iff in Hk. destruct Hk as [[k' v] [<- Hin]].
    apply filter_In in Hin. destruct Hin as [Hin Hne]. simpl in *. split.
    - apply in_map_iff. exists (k', v). split; [reflexivity | exact Hin].
    - intros ->. rewrite (proj2 (eqb_eq _ _) eq_refl) in Hne. discriminate. }
  assert (Hnd' : NoDup (List.map fst acc')).
  { eapply subseq_NoDup; [|exact Hnd]. apply subseq_map, filter_subseq. }
  match goal with
  | |- context [Enhanced.fillRaw lines bs ?a] =>
      destruct (IH a) as [H1 H2]
  end.
  { simpl. constructor; [|exact Hnd']. intros Hin. apply Hsub in Hin. tauto. }
  split; [exact H1|].
  intros k Hk. apply H2 in Hk. simpl in Hk.
  destruct Hk as [[<-|Hk]|Hk]; [right; left; reflexivity | | right; right; exact Hk].
  apply Hsub in Hk. left. tauto.
Qed.

End RawSections.

(** extractRawSections labels every line at most once, with one of its six
    section names, and stores at most one raw section under each name. *)
Theorem Enhanced_raw_sections_shape {E : Env} (text : jstr) :
  StronglySorted byIndex (Enhanced.boundaries 0 (normalize text))
  /\ NoDup (List.map fst (Enhanced.extractRawSections text))
  /\ (forall k, In k (List.map fst (Enhanced.extractRawSections text)) ->
                In k Enhanced.commonSections).
Proof.
  split; [apply boundaries_sorted|].
  unfold Enhanced.extractRawSections.
  destruct (@fillRaw_keys (normalize text) (Enhanced.boundaries 0 (normalize text))
                          [] (NoDup_nil _)) as [Hnd Hk].
  split; [exact Hnd|].
  intros k Hin. apply Hk in Hin. destruct Hin as [[]|Hin].
  apply in_map_iff in Hin. destruct Hin as [b [<- Hb]].
  apply boundaries_In in Hb. tauto.
Qed.

(** When a section name labels several lines, the raw section under that
    name is the one of the last such line: what follows the earlier
    headers of that name is dropped. *)
Theorem Enhanced_last_header_wins {E : Env} (text : jstr) (nm : string)
        (pre post : list Enhanced.Boundary) (b : Enhanced.Boundary) :
  Enhanced.boundaries 0 (normalize text) = pre ++ b :: post ->
  Enhanced.bname b = lit nm ->
  Forall (fun b' => Enhanced.bname b' <> lit nm) post ->
  Enhanced.rawSection nm (Enhanced.extractRawSections text)
  = Some (rawSectionOf (normalize text) b post).
Proof.
  intros Hbs Hname Hpost. unfold Enhanced.extractRawSections. rewrite Hbs.
  destruct (fillRaw_app (normalize text) pre (b :: post) []) as [acc' ->].
  cbn [Enhanced.fillRaw].
  rewrite (@fillRaw_other_names (normalize text) nm post Hpost).
  cbn [Enhanced.rawSection].
  rewrite Hname, (proj2 (eqb_eq _ _) eq_refl). reflexivity.
Qed.

Lemma Enhanced_last_header_wins_witness :
  option_map Enhanced.content
             (Enhanced.rawSection "experience"
                (Enhanced.extractRawSections (E := Standin.env)
                   (text_of_lines ["Work Experience"; "Acme Corp"; "Project Experience";
                                   "Parser"]%string)))
  = Some [lit "Parser"].
Proof.
  rewrite (@Enhanced_last_header_wins Standin.env _ "experience"
             [{| Enhanced.bname := lit "experience"; Enhanced.index := 0;
                 Enhanced.originalName := lit "Work Experience" |}]
             []
             {| Enhanced.bname := lit "experience"; Enhanced.index := 2;
                Enhanced.originalName := lit "Project Experience" |});
    [reflexivity | reflexivity | reflexivity | constructor].
Defined.

(* ------------------------------------------------------------------ *)
(** ** The block that the prototype slices *)

Section PrototypeBlock.
Context {E : Env}.
Variable kws : list jstr.

Lemma collect_block (rest : list jstr) :
  exists post,
    rest = Simple.collect kws rest ++ post
    /\ Forall (fun l => headerFor kws l = false /\ l <> []) (Simple.collect kws rest)
    /\ (post = [] \/ exists l post', post = l :: post' /\ stops kws l).
Proof.
  induction rest as [|line rest (post & Hrest & Hall & Hpost)]; simpl.
  - exists []. split; [reflexivity|]. split; [constructor | left; reflexivity].
  - fold (headerFor kws line).
    destruct (headerFor kws line) eqn:Hh; simpl.
    + exists (line :: rest). split; [reflexivity|]. split; [constructor|].
      right. exists line, rest. split; [reflexivity | left; exact Hh].
    + destruct line as [|c line]; simpl.
      * exists ([] :: rest). split; [reflexivity|]. split; [constructor|].
        right. exists [], rest. split; [reflexivity | right; reflexivity].
      * exists post. split; [f_equal; exact Hrest|]. split; [|exact Hpost].
        constructor; [split; [exact Hh | discriminate] | exact Hall].
Qed.

End PrototypeBlock.

(** extractSection returns the block of lines right after the first line
    that matches one of the keywords it was given: none of its lines is
    empty or matches these keywords, and the block ends at the end of the
    document or before a line that does.  Without a matching line the
    result is empty. *)
Theorem Simple_extractSection_block {E : Env} (lines kws : list jstr) :
  (Forall (fun l => headerFor kws l = false) lines
   /\ Simple.extractSection lines kws = [])
  \/ (exists pre hdr post,
         lines = pre ++ hdr :: Simple.extractSection lines kws ++ post
         /\ Forall (fun l => headerFor kws l = false) pre
         /\ headerFor kws hdr = true
         /\ Forall (fun l => headerFor kws l = false /\ l <> [])
                   (Simple.extractSection lines kws)
         /\ (post = [] \/ exists l post', post = l :: post' /\ stops kws l)).
Proof.
  induction lines as [|line lines IH]; simpl.
  - left. split; [constructor | reflexivity].
  - fold (headerFor kws line). destruct (headerFor kws line) eqn:Hh.
    + right. destruct (collect_block kws lines) as (post & Hrest & Hall & Hpost).
      exists [], line, post. simpl. split; [f_equal; exact Hrest|].
      split; [constructor|]. split; [exact Hh|]. split; [exact Hall | exact Hpost].
    + destruct IH as [[Hnone Hnil]|(pre & hdr & post & Hl & Hpre & Hhdr & Hall & Hpost)].
      * left. split; [constructor; assumption | exact Hnil].
      * right. exists (line :: pre), hdr, post. simpl.
        split; [f_equal; exact Hl|]. split; [constructor; assumption|].
        split; [exact Hhdr|]. split; [exact Hall | exact Hpost].
Qed.

(* ------------------------------------------------------------------ *)
(** ** The loose experience parser *)

Lemma takeBullets_rest (rest : list jstr) :
  incl (snd (Enhanced.takeBullets rest)) rest
  /\ length (snd (Enhanced.takeBullets rest)) <= length rest.
Proof.
  induction rest as [|raw tl [IHi IHl]]; cbn [Enhanced.takeBullets];
    [split; [apply incl_refl | cbn; lia]|].
  destruct (startsWith [bullet] raw).
  - destruct (Enhanced.takeBullets tl) as [bs others]. cbn [snd length] in *.
    split; [apply incl_tl; exact IHi | lia].
  - cbn [snd]. split; [apply incl_refl | lia].
Qed.

Lemma takeTitle_rest (after : list jstr) :
  incl (snd (Enhanced.takeTitle after)) after
  /\ length (snd (Enhanced.takeTitle after)) <= length after
  /\ length (snd (fst (Enhanced.takeTitle after))) < 30.
Proof.
  unfold Enhanced.takeTitle.
  destruct after as [|p a1]; [cbn; repeat split; [apply incl_refl | lia | lia]|].
  destruct (negb (startsWith [bullet] p));
    [|cbn [snd fst length]; repeat split; [apply incl_refl | lia | lia]].
  destruct a1 as [|q a2];
    [cbn [snd fst length]; repeat split; [apply incl_tl, incl_refl | lia | lia]|].
  destruct (negb (startsWith [bullet] q) && Nat.ltb (length (trim q)) 30) eqn:Hq;
    cbn [snd fst length].
  - apply andb_true_iff in Hq. destruct Hq as [_ Hq]. apply Nat.ltb_lt in Hq.
    repeat split; [apply incl_tl, incl_tl, incl_refl | lia | exact Hq].
  - repeat split; [apply incl_tl, incl_refl | lia | lia].
Qed.

Section LooseExperience.
Context {E : Env}.

(** The fuel of the model is enough: more of it changes nothing. *)
Lemma rawExperience_fuel (f1 : nat) :
  forall f2 rest,
    length rest <= f1 -> length rest <= f2 ->
    Enhanced.rawExperience f1 rest = Enhanced.rawExperience f2 rest.
Proof.
  induction f1 as [|f1 IH]; intros f2 rest H1 H2.
  - destruct rest; [|simpl in H1; lia]. destruct f2; reflexivity.
  - destruct rest as [|raw tl]; [destruct f2; reflexivity|].
    destruct f2 as [|f2]; [simpl in H2; lia|].
    simpl in H1, H2. cbn [Enhanced.rawExperience].
    destruct tl as [|next after]; [apply IH; simpl; lia|].
    destruct (Enhanced.companyLike (trim raw)
              && Regex.test Pat.dateRangePattern (trim next));
      [|apply IH; simpl in *; lia].
    pose proof (takeTitle_rest after) as (_ & Ht & _).
    destruct (Enhanced.takeTitle after) as [[position location] after2].
    pose proof (takeBullets_rest after2) as (_ & Hb).
    destruct (Enhanced.takeBullets after2) as [bullets after3].
    simpl in *. f_equal. apply IH; lia.
Qed.

Lemma rawExperience_entries (lines : list jstr) (fuel : nat) :
  forall rest, incl rest lines ->
               Forall (looseEntry lines) (Enhanced.rawExperience fuel rest).
Proof.
  induction fuel as [|fuel IH]; intros rest Hincl; [constructor|].
  destruct rest as [|raw tl]; [constructor|].
  cbn [Enhanced.rawExperience].
  assert (Htl : incl tl lines) by (intros x Hx; apply Hincl; right; exact Hx).
  destruct tl as [|next after]; [apply IH; exact Htl|].
  destruct (Enhanced.companyLike (trim raw)
            && Regex.test Pat.dateRangePattern (trim next)) eqn:Hc;
    [|apply IH; exact Htl].
  apply andb_true_iff in Hc. destruct Hc as [Hc _].
  pose proof (takeTitle_rest after) as (Hti & _ & Hloc).
  destruct (Enhanced.takeTitle after) as [[position location] after2].
  pose proof (takeBullets_rest after2) as (Hbi & _).
  destruct (Enhanced.takeBullets after2) as [bullets after3].
  simpl in Hti, Hloc, Hbi.
  constructor.
  - unfold looseEntry. simpl. split; [exact Hc|]. split.
    + exists raw. split; [apply Hincl; left; reflexivity | reflexivity].
    + exists location. split; [reflexivity | exact Hloc].
  - apply IH. intros x Hx. apply Htl. right. apply Hti, Hbi. exact Hx.
Qed.

End LooseExperience.

(** Every entry of parseRawExperience has as company a line of the section
    that is longer than two units, is not a bullet and holds no run of four
    digits; its location is shorter than thirty units. *)
Theorem Enhanced_experience_entries {E : Env} (lines : list jstr) :
  Forall (looseEntry lines) (Enhanced.parseRawExperience lines).
Proof. apply rawExperience_entries. apply incl_refl. Qed.

(* ------------------------------------------------------------------ *)
(** ** Project titles and certifications *)

Lemma In_firstn_incl {A : Type} (n : nat) (l : list A) (x : A) :
  In x (firstn n l) -> In x l.
Proof.
  intros H. apply In_firstn_nth in H. destruct H as [i [_ Hi]].
  eapply nth_error_In. exact Hi.
Qed.

Lemma In_skipn_incl {A : Type} (n : nat) (l : list A) (x : A) :
  In x (skipn n l) -> In x l.
Proof.
  revert l. induction n as [|n IH]; intros l; simpl; [tauto|].
  destruct l as [|y l]; [tauto|]. intros H. right. apply IH. exact H.
Qed.

Lemma trimStart_incl (s : jstr) (x : N) : In x (trimStart s) -> In x s.
Proof.
  destruct (trimStart_suffix s) as [p Hp]. intros H.
  rewrite Hp. apply in_or_app. right. exact H.
Qed.

(** Trimming adds no unit. *)
Lemma trim_incl (s : jstr) (x : N) : In x (trim s) -> In x s.
Proof.
  unfold trim, trimEnd. intros H.
  apply in_rev in H. apply trimStart_incl in H. apply in_rev in H.
  apply trimStart_incl. exact H.
Qed.

(** The pieces of [s.split(c)] hold no [c]. *)
Lemma splitOnAux_pieces (c : N) (fuel : nat) :
  forall s cur,
    length s < fuel -> ~ In c cur ->
    Forall (fun piece => ~ In c piece) (splitOnAux fuel [c] s cur).
Proof.
  induction fuel as [|fuel IH]; intros s cur Hlen Hcur; [lia|].
  destruct s as [|x s]; cbn [splitOnAux].
  - constructor; [|constructor]. intros H. apply in_rev in H. exact (Hcur H).
  - cbn [startsWith]. destruct (N.eqb c x) eqn:Hx; cbn [andb].
    + constructor.
      * intros H. apply in_rev in H. exact (Hcur H).
      * apply IH; [simpl in *; lia | tauto].
    + apply IH; [simpl in *; lia|].
      intros [->|H]; [rewrite N.eqb_refl in Hx; discriminate | exact (Hcur H)].
Qed.

Lemma splitOn_pieces (c : N) (s : jstr) :
  Forall (fun piece => ~ In c piece) (splitOn [c] s).
Proof. apply splitOnAux_pieces; [lia | tauto]. Qed.

Lemma removeSpans_incl (ms : list matched) (s : jstr) (x : N) :
  forall pos, In x (removeSpans ms s pos) -> In x s.
Proof.
  induction ms as [|m ms IH]; intros pos; simpl.
  - apply In_skipn_incl.
  - rewrite in_app_iff. intros [H|H]; [|eapply IH; exact H].
    unfold substr in H. apply In_firstn_incl, In_skipn_incl in H. exact H.
Qed.

Section Projects.
Context {E : Env}.

Lemma parts_separator_free (line : jstr) :
  ~ In (cu "|") (trim (hd [] (splitOn (lit "|") line)))
  /\ ~ In (cu "|") (Strict.secondPart (splitOn (lit "|") line)).
Proof.
  pose proof (splitOn_pieces (cu "|") line) as Hall.
  change [cu "|"] with (lit "|") in Hall. rewrite Forall_forall in Hall.
  split; intros H.
  - apply trim_incl in H.
    destruct (splitOn (lit "|") line) as [|p0 ps]; [destruct H|].
    exact (Hall p0 (or_introl eq_refl) H).
  - unfold Strict.secondPart in H.
    destruct (nth_error (splitOn (lit "|") line) 1) as [[|c p]|] eqn:Hn;
      try destruct H.
    apply trim_incl in H. apply nth_error_In in Hn. exact (Hall _ Hn H).
Qed.

Lemma Strict_newProject_free (line : jstr) : separatorFree (Strict.newProject line).
Proof. exact (parts_separator_free line). Qed.

Lemma Enhanced_rawProject_free (line : jstr) (bullets : list jstr) :
  separatorFree (Enhanced.rawProject line bullets).
Proof.
  destruct (parts_separator_free line) as [Ht Hs].
  split; [exact Ht|]. simpl. intros H.
  apply trim_incl in H. unfold removeAll in H. apply removeSpans_incl in H.
  exact (Hs H).
Qed.

Lemma projStep_free (st : list Project * option Project) (raw : jstr) :
  Forall separatorFree (fst st) ->
  (forall p, snd st = Some p -> separatorFree p) ->
  Forall separatorFree (fst (Strict.projStep st raw))
  /\ (forall p, snd (Strict.projStep st raw) = Some p -> separatorFree p).
Proof.
  destruct st as [done current]. cbn [fst snd]. intros Hd Hc. unfold Strict.projStep.
  destruct (Strict.isProjectTitle (trim raw)).
  - cbn [fst snd]. split.
    + destruct current as [p|]; [|exact Hd].
      apply Forall_app. split; [exact Hd|]. constructor; [|constructor]. apply Hc. reflexivity.
    + intros p Hp. injection Hp as <-. apply Strict_newProject_free.
  - destruct current as [p|]; [|split; [exact Hd | exact Hc]].
    destruct (startsWith [bullet] (trim raw)); cbn [fst snd];
      [|split; [exact Hd | exact Hc]].
    split; [exact Hd|]. intros q Hq. injection Hq as <-.
    exact (Hc p eq_refl).
Qed.

Lemma projFold_free (lines : list jstr) :
  forall st,
    Forall separatorFree (fst st) ->
    (forall p, snd st = Some p -> separatorFree p) ->
    Forall separatorFree (fst (fold_left Strict.projStep lines st))
    /\ (forall p, snd (fold_left Strict.projStep lines st) = Some p -> separatorFree p).
Proof.
  induction lines as [|raw lines IH]; intros st Hd Hc; simpl; [split; assumption|].
  destruct (projStep_free st raw Hd Hc) as [Hd' Hc']. apply IH; assumption.
Qed.

Lemma rawProjects_free (fuel : nat) :
  forall rest, Forall separatorFree (Enhanced.rawProjects fuel rest).
Proof.
  induction fuel as [|fuel IH]; intros rest; [constructor|].
  destruct rest as [|raw tl]; [constructor|]. cbn [Enhanced.rawProjects].
  destruct (includes (lit "|") (trim raw) && negb (startsWith [bullet] (trim raw)));
    [|apply IH].
  destruct (Enhanced.takeBullets tl) as [bullets after].
  constructor; [apply Enhanced_rawProject_free | apply IH].
Qed.

End Projects.

(** In both project parsers the title and the technologies of a project
    never hold the separator they were split at: a second separator on the
    title line cuts the technologies short. *)
Theorem project_fields_hold_no_separator {E : Env} (lines : list jstr) :
  Forall separatorFree (Strict.parseProjects lines)
  /\ Forall separatorFree (Enhanced.parseRawProjects lines).
Proof.
  split; [|apply rawProjects_free].
  unfold Strict.parseProjects.
  destruct (projFold_free lines ([], None)) as [Hd Hc];
    [constructor | discriminate|].
  destruct (fold_left Strict.projStep lines ([], None)) as [done current].
  simpl in *. destruct current as [p|]; [|exact Hd].
  apply Forall_app. split; [exact Hd|]. constructor; [|constructor]. apply Hc. reflexivity.
Qed.

(** parseCertifications of part_000 emits only certifications with a
    non-empty, trimmed name, and never an issuer or a date. *)
Theorem Strict_certifications_are_bare {E : Env} (lines : list jstr) :
  Forall bareCertification (Strict.parseCertifications lines).
Proof.
  apply Forall_forall. intros c Hc. unfold Strict.parseCertifications in Hc.
  apply in_flat_map in Hc. destruct Hc as [line [_ Hc]].
  unfold Strict.certificationOf in Hc.
  destruct (startsWith [bullet] line || Nat.ltb 10 (length (trim line))); [|destruct Hc].
  destruct (Nat.ltb 0 (length (trim (removeFirst Pat.leadingBullet line)))) eqn:Hlen;
    [|destruct Hc].
  destruct Hc as [<-|[]]. unfold bareCertification, trimmedToken. simpl.
  repeat split; [|apply trim_idempotent].
  intros Hnil. rewrite Hnil in Hlen. discriminate.
Qed.

(* ------------------------------------------------------------------ *)
(** ** Contact fields *)

(** What [s.match(r)[0]] is: a piece of [s] that the pattern matches. *)
Lemma firstMatch_occurs (r : regex) (s w : jstr) :
  firstMatch r s = Some w ->
  exists pre post cs,
    s = pre ++ w ++ post
    /\ matches r (length pre) (w ++ post) [] (length pre + length w) post cs.
Proof.
  unfold firstMatch. destruct (exec r s) as [m|] eqn:Hm; [|discriminate].
  intros H. injection H as <-.
  apply exec_sound in Hm. destruct Hm as (rest' & Hle & M).
  destruct (matches_span M) as [w [Hw Hend]].
  assert (Hwhole : whole s m = w).
  { unfold whole, substr. rewrite Hw, Hend.
    replace (mstart m + length w - mstart m) with (length w) by lia.
    rewrite firstn_app, firstn_all, Nat.sub_diag. simpl. apply app_nil_r. }
  exists (firstn (mstart m) s), rest', (mcaps m).
  assert (Hpre : length (firstn (mstart m) s) = mstart m)
    by (rewrite length_firstn; lia).
  rewrite Hwhole, Hpre, <- Hw, <- Hend. split; [|exact M].
  symmetry. apply firstn_skipn.
Qed.

Lemma firstOrEmpty_cases (r : regex) (text : jstr) :
  firstOrEmpty r text = []
  \/ firstMatch r text = Some (firstOrEmpty r text).
Proof.
  unfold firstOrEmpty, orEmpty, orStr.
  destruct (firstMatch r text) as [[|c w]|]; [left | right | left]; reflexivity.
Qed.

Lemma firstOrEmpty_found (r : regex) (text : jstr) :
  foundIn text (fun _ => True) (firstOrEmpty r text).
Proof.
  destruct (firstOrEmpty_cases r text) as [H|H]; [left; exact H|].
  right. split; [|exact I].
  apply firstMatch_occurs in H. destruct H as (pre & post & _ & Hs & _).
  exists pre, post. exact Hs.
Qed.

(** A match of a pattern that begins with a character class begins with
    a unit of that class, and consumes it. *)
Lemma matches_head (p : N -> bool) (r : regex) rest pos pos' rest' cs cs' :
  matches (Seq (Chr p) r) pos rest cs pos' rest' cs' ->
  pos < pos' /\ exists x t, rest = x :: t /\ p x = true.
Proof.
  intros M.
  inversion M as [| |? ? ? ? ? p1 r1 c1 ? ? ? M1 M2| | | | | | |]; subst.
  inversion M1 as [|? x ? t ? Hx| | | | | | | |]; subst.
  destruct (matches_span M2) as [w2 [_ Hp2]].
  split; [lia|]. do 2 eexists. split; [reflexivity | eassumption].
Qed.

Lemma email_has_at (w post : jstr) pos cs :
  matches Pat.emailRegex pos (w ++ post) [] (pos + length w) post cs ->
  In (cu "@") w.
Proof.
  intros M.
  change Pat.emailRegex with
    (Seq (Plus (Chr (fun c => isAlpha c || isDigit c || existsb (N.eqb c) (lit "._%+-"))))
         (Seq (ch (cu "@"))
              (seqs [Plus (Chr (fun c => isAlpha c || isDigit c
                                         || existsb (N.eqb c) (lit ".-")));
                     ch (cu "."); AtLeast 2 alpha]))) in M.
  inversion M as [| |? ? ? ? ? p1 r1 c1 ? ? ? M1 M2| | | | | | |]; subst.
  inversion M2 as [| |? ? ? ? ? p2 r2 c2 ? ? ? Mat M3| | | | | | |]; subst.
  unfold ch in Mat. inversion Mat as [|? x ? rest ? Hx| | | | | | | |]; subst.
  apply N.eqb_eq in Hx. subst x.
  destruct (matches_span M1) as [w1 [Hw1 Hp1]].
  destruct (matches_span M3) as [w3 [Hw3 Hp3]].
  assert (Heq : w ++ post = (w1 ++ cu "@" :: w3) ++ post).
  { rewrite Hw1, Hw3, <- app_assoc. reflexivity. }
  apply app_inv_tail in Heq. rewrite Heq. apply in_or_app. right. left. reflexivity.
Qed.

Lemma phone_has_plus (w post : jstr) pos cs :
  matches Pat.phoneRegex pos (w ++ post) [] (pos + length w) post cs ->
  hd_error w = Some (cu "+").
Proof.
  intros M. unfold Pat.phoneRegex in M.
  assert (Hhead : 0 < length w
                  /\ exists x t, w ++ post = x :: t /\ N.eqb (cu "+") x = true).
  { inversion M as [| | |? ? ? ? ? ? ? ? A|? ? ? ? ? ? ? ? A| | | | |]; subst.
    - inversion A as [| |? ? ? ? ? p1 r1 c1 ? ? ? A1 A2| | | | | | |]; subst.
      change (word "+91")
        with (Seq (Chr (N.eqb (cu "+"))) (Seq (ch (cu "9")) (ch (cu "1")))) in A1.
      destruct (matches_head A1) as [Hlt Hx].
      destruct (matches_span A2) as [w2 [_ Hp2]].
      split; [lia | exact Hx].
    - change (seqs [ch (cu "+"); Rep 1 3 digit; Opt Pat.dashOrSpace; Rep 8 15 digit])
        with (Seq (Chr (N.eqb (cu "+")))
                  (seqs [Rep 1 3 digit; Opt Pat.dashOrSpace; Rep 8 15 digit])) in A.
      destruct (matches_head A) as [Hlt Hx]. split; [lia | exact Hx]. }
  destruct Hhead as (Hlen & x & t & Heq & Hx).
  destruct w as [|y w]; [simpl in Hlen; lia|].
  simpl in Heq. injection Heq as -> _.
  apply N.eqb_eq in Hx. subst x. reflexivity.
Qed.

(** Every contact field is empty or a piece of the text; an e-mail address
    holds an at sign and a phone number begins with a plus sign. *)
Theorem contact_fields_come_from_the_text (text : jstr) :
  foundIn text (fun w => In (cu "@") w) (email (extractContactInfo text))
  /\ foundIn text (fun w => hd_error w = Some (cu "+")) (phone (extractContactInfo text))
  /\ foundIn text (fun _ => True) (linkedin (extractContactInfo text))
  /\ foundIn text (fun _ => True) (github (extractContactInfo text)).
Proof.
  simpl. split; [|split; [|split; apply firstOrEmpty_found]].
  - destruct (firstOrEmpty_cases Pat.emailRegex text) as [H|H]; [left; exact H|].
    right. apply firstMatch_occurs in H. destruct H as (pre & post & cs & Hs & M).
    split; [exists pre, post; exact Hs | eapply email_has_at; exact M].
  - destruct (firstOrEmpty_cases Pat.phoneRegex text) as [H|H]; [left; exact H|].
    right. apply firstMatch_occurs in H. destruct H as (pre & post & cs & Hs & M).
    split; [exists pre, post; exact Hs | eapply phone_has_plus; exact M].
Qed.

(* ------------------------------------------------------------------ *)
(** ** Normalized lines and the name *)

Lemma normalize_lines (text line : jstr) :
  In line (normalize text) -> trimmedToken line.
Proof.
  unfold normalize. intros H. apply filter_In in H. destruct H as [Hin Hne].
  apply in_map_iff in Hin. destruct Hin as [raw [<- _]].
  split; [|apply trim_idempotent].
  intros Hnil. rewrite Hnil in Hne. discriminate.
Qed.

Section Names.
Context {E : Env}.

Lemma firstName_In (window : list jstr) (x : jstr) :
  Strict.firstName window = Some x -> exists raw, In raw window /\ x = trim raw.
Proof.
  induction window as [|raw window IH]; simpl; [discriminate|].
  destruct (Strict.looksLikeName (trim raw)).
  - intros H. injection H as <-. exists raw. split; [left; reflexivity | reflexivity].
  - intros H. destruct (IH H) as [r [Hr Hx]]. exists r. split; [right; exact Hr | exact Hx].
Qed.

End Names.

(** The name is always one of the normalized lines, in extractName of
    part_000 and in the search of resumeParser2.js; it is empty only for a
    text without any such line. *)
Theorem name_is_a_normalized_line {E : Env} (text : jstr) :
  (normalize text = []
   /\ Strict.extractName (normalize text) = []
   /\ Enhanced.findName (normalize text) = [])
  \/ (In (Strict.extractName (normalize text)) (normalize text)
      /\ In (Enhanced.findName (normalize text)) (normalize text)).
Proof.
  pose proof (normalize_lines text) as Hnorm.
  destruct (normalize text) as [|l0 lines] eqn:Hl; [left; repeat split|].
  right. split.
  - unfold Strict.extractName.
    destruct (Strict.firstName _) as [x|] eqn:Hx.
    + apply firstName_In in Hx. destruct Hx as [raw [Hraw ->]].
      apply In_firstn_incl in Hraw.
      rewrite (proj2 (Hnorm raw Hraw)). exact Hraw.
    + rewrite (proj2 (Hnorm l0 (or_introl eq_refl))). left. reflexivity.
  - unfold Enhanced.findName.
    destruct (find Enhanced.looksLikeName (l0 :: lines)) as [x|] eqn:Hx.
    + apply find_some in Hx. destruct Hx as [Hx _].
      destruct (Hnorm x Hx) as [Hne _].
      destruct x as [|c x]; [congruence|]. exact Hx.
    + cbn [nth_error orStr].
      destruct (Hnorm l0 (or_introl eq_refl)) as [Hne _].
      destruct l0 as [|c l0]; [congruence|]. left. reflexivity.
Qed.

(* ------------------------------------------------------------------ *)
(** ** Education entries *)

Lemma seq_inv a b pos rest c pos2 rest2 c2 :
  matches (Seq a b) pos rest c pos2 rest2 c2 ->
  exists pos1 rest1 c1,
    matches a pos rest c pos1 rest1 c1 /\ matches b pos1 rest1 c1 pos2 rest2 c2.
Proof.
  intros M.
  inversion M as [| |? ? ? ? ? p1 r1 c1 ? ? ? M1 M2| | | | | | |]; subst.
  exists p1, r1, c1. split; assumption.
Qed.

Lemma grp_inv n a pos rest c pos1 rest1 c' :
  matches (Grp n a) pos rest c pos1 rest1 c' ->
  exists c1, c' = (n, (pos, pos1)) :: c1 /\ matches a pos rest c pos1 rest1 c1.
Proof.
  intros M. inversion M; subst. eexists. split; [reflexivity | eassumption].
Qed.

Lemma chr_inv (p : N -> bool) pos rest c pos1 rest1 c1 :
  matches (Chr p) pos rest c pos1 rest1 c1 ->
  exists x, rest = x :: rest1 /\ p x = true /\ pos1 = S pos /\ c1 = c.
Proof.
  intros M. inversion M; subst. eexists. split; [reflexivity|].
  repeat split. assumption.
Qed.

(** [p{n}] consumes exactly [n] units of the class. *)
Lemma times_chr_inv (p : N -> bool) (n : nat) :
  forall pos rest c pos' rest' c',
    matches (Times n (Chr p)) pos rest c pos' rest' c' ->
    exists w, rest = w ++ rest' /\ length w = n /\ allOf p w
              /\ c' = c /\ pos' = pos + n.
Proof.
  induction n as [|n IH]; intros pos rest c pos' rest' c' M; cbn [Times] in M.
  - inversion M; subst. exists []. repeat split; [constructor | lia].
  - apply seq_inv in M. destruct M as (p1 & r1 & c1 & M1 & M2).
    apply chr_inv in M1. destruct M1 as (x & Hr & Hx & Hp & Hc).
    apply IH in M2. destruct M2 as (w & Hw & Hl & Ha & Hc' & Hp').
    exists (x :: w). rewrite Hr, Hw, Hc', Hc, Hp', Hp. cbn [app length].
    repeat split; [congruence | constructor; assumption | lia].
Qed.

Lemma matches_capfree r pos rest c pos' rest' c' :
  matches r pos rest c pos' rest' c' -> capfree r = true -> c' = c.
Proof.
  induction 1 as
      [pos rest c | p x pos rest c Hp
      | a b pos rest c pos1 rest1 c1 pos2 rest2 c2 _ IH1 _ IH2
      | a b pos rest c pos1 rest1 c1 _ IH
      | a b pos rest c pos1 rest1 c1 _ IH
      | a pos rest c
      | a pos rest c pos1 rest1 c1 pos2 rest2 c2 _ IH1 Hne _ IH2
      | n a pos rest c pos1 rest1 c1 _ IH
      | rest c | pos c]; cbn [capfree]; intros Hf; try reflexivity.
  - apply andb_true_iff in Hf. destruct Hf as [Ha Hb].
    rewrite (IH2 Hb). apply IH1. exact Ha.
  - apply andb_true_iff in Hf. apply IH. apply Hf.
  - apply andb_true_iff in Hf. apply IH. apply Hf.
  - rewrite (IH2 Hf). apply IH1. exact Hf.
  - discriminate.
Qed.

(** Every element of [s.match(/.../g)] is a match of the pattern in [s]. *)
Lemma allFrom_sound (r : regex) (s : jstr) :
  forall fuel pos m,
    In m (allFrom fuel r s pos) ->
    exists rest', matches r (mstart m) (skipn (mstart m) s) [] (mend m) rest' (mcaps m).
Proof.
  induction fuel as [|f IH]; intros pos m H; cbn [allFrom] in H; [contradiction|].
  destruct (searchFrom r pos (skipn pos s)) as [m0|] eqn:Hs; [|contradiction].
  destruct H as [<-|H]; [|eapply IH; exact H].
  apply searchFrom_sound in Hs. destruct Hs as (i & rest' & _ & Hst & M).
  exists rest'. rewrite skipn_skipn in M. rewrite Hst.
  replace (i + pos) with (pos + i) in M by lia. exact M.
Qed.

Lemma skipn_at (s pre r : jstr) (i : nat) :
  skipn i s = pre ++ r -> skipn (i + length pre) s = r.
Proof.
  intros H. rewrite Nat.add_comm, <- skipn_skipn, H, skipn_app, skipn_all, Nat.sub_diag.
  reflexivity.
Qed.

Lemma substr_at (s w r : jstr) (i : nat) :
  skipn i s = w ++ r -> substr i (i + length w) s = w.
Proof.
  intros H. unfold substr. rewrite H.
  replace (i + length w - i) with (length w) by lia.
  rewrite firstn_app, firstn_all, Nat.sub_diag. cbn [firstn]. apply app_nil_r.
Qed.

Lemma Enhanced_yearPattern_unfold :
  Enhanced.yearPattern
  = Seq (Grp 1 (Times 4 (Chr isDigit)))
        (Seq (Star space) (Seq Pat.dash (Seq (Star space) (Grp 2 (Times 4 (Chr isDigit)))))).
Proof. reflexivity. Qed.

Lemma orStr_nonempty (x y : jstr) : y <> [] -> orStr (Some x) y <> [].
Proof. unfold orStr. destruct x; [tauto | discriminate]. Qed.

(** The institution of an education entry is never empty: the whole line
    stands in when nothing is left of it.  parseRawEducation skips blank
    lines itself; parseEducation relies on getSectionContent, which hands
    over trimmed, non-empty lines. *)
Theorem education_names_an_institution
        (sections : list Section_) (lines : list jstr) (T : SectionType) :
  Forall (fun e => institution e <> []) (Enhanced.parseRawEducation lines)
  /\ Forall (fun e => institution e <> [])
            (Strict.parseEducation (Strict.getSectionContent sections lines T)).
Proof.
  split; apply Forall_forall; intros e He; apply in_map_iff in He;
    destruct He as (line & <- & Hline); apply filter_In in Hline;
    destruct Hline as [Hin Hf].
  - unfold Enhanced.rawEducationEntry; cbn [institution].
    apply orStr_nonempty.
    apply andb_true_iff in Hf. destruct Hf as [Hne _].
    destruct (trim line); [discriminate | discriminate].
  - unfold Strict.educationEntry; cbn [institution].
    apply orStr_nonempty.
    unfold Strict.getSectionContent in Hin.
    destruct (find _ sections) as [s|]; [|contradiction].
    unfold Strict.sliceContent in Hin. apply filter_In in Hin.
    destruct Hin as [Hin Hne]. apply in_map_iff in Hin.
    destruct Hin as (raw & <- & _). rewrite trim_idempotent.
    destruct (trim raw); [discriminate | discriminate].
Qed.

(* ------------------------------------------------------------------ *)
(** ** The entries of parseWorkExperience *)

Section StrictEntries.
Context {E : Env}.
Variable lines : list jstr.
Variable A : Type.
Variable f : Experience -> A.
Hypothesis f_pushBullet : forall e b, f (Strict.pushBullet e b) = f e.

Lemma flush_push (done : list Experience) (e : Experience) (b : jstr) (cb : bool) :
  List.map f
      (Strict.flush {| Strict.experiences := done;
                       Strict.currentExp := Some (Strict.pushBullet e b);
                       Strict.collectingBullets := cb |})
  = List.map f
        (Strict.flush {| Strict.experiences := done; Strict.currentExp := Some e;
                         Strict.collectingBullets := cb |}).
Proof.
  unfold Strict.flush. cbn [Strict.experiences Strict.currentExp].
  rewrite !map_app. cbn [List.map]. rewrite f_pushBullet. reflexivity.
Qed.

Lemma expStep_header (i : nat) (st : Strict.ExpState) :
  List.map f (Strict.flush (Strict.expStep lines i st))
  = List.map f (Strict.flush st)
    ++ (if isAnchor lines i then [f (entryAt lines i)] else []).
Proof.
  unfold Strict.expStep, isAnchor.
  set (line := trim (nth i lines [])).
  destruct (Regex.test Pat.dateRangePattern line).
  - unfold Strict.flush at 1.
    cbn [Strict.experiences Strict.currentExp]. rewrite map_app. reflexivity.
  - rewrite app_nil_r.
    destruct st as [done cur cb].
    cbn [Strict.experiences Strict.currentExp Strict.collectingBullets].
    destruct cb; [|reflexivity].
    destruct cur as [e|]; [|reflexivity].
    destruct (startsWith [bullet] line); [apply flush_push|].
    destruct (Nat.ltb 0 (length line) && negb (Regex.test Strict.headerLike line)).
    + destruct (Nat.ltb 0 (length (overview e))); [apply flush_push | reflexivity].
    + destruct (Regex.test Strict.headerLike line && Nat.ltb (length line) 30);
        reflexivity.
Qed.

Lemma expFold_header (idx : list nat) (st : Strict.ExpState) :
  List.map f
      (Strict.flush (fold_left (fun st i => Strict.expStep lines i st) idx st))
  = List.map f (Strict.flush st)
    ++ List.map (fun i => f (entryAt lines i)) (filter (isAnchor lines) idx).
Proof.
  revert st. induction idx as [|i idx IH]; intros st; cbn [fold_left filter].
  - rewrite app_nil_r. reflexivity.
  - rewrite IH, expStep_header.
    destruct (isAnchor lines i); cbn [List.map].
    + rewrite <- app_assoc. reflexivity.
    + rewrite app_nil_r. reflexivity.
Qed.

End StrictEntries.

(** parseWorkExperience of part_000: the position of an entry is the line
    after its date-range line, trimmed, unless that line is a bullet, blank
    or past the end (then the empty string); its dates are what
    extractDatesFromText makes of the date-range line itself; a location
    is never stored.  Lines collected afterwards change none of these. *)
Theorem Strict_experience_headers {E : Env} (lines : list jstr) :
  List.map (fun e => (position e, expStart e, expEnd e, location e))
           (Strict.parseWorkExperience lines)
  = List.map (fun i =>
                let dates := Strict.extractDatesFromText (trim (nth i lines [])) in
                (followingLine lines i, startDate dates, endDate dates, None))
             (filter (isAnchor lines) (seq 0 (length lines))).
Proof.
  unfold Strict.parseWorkExperience, Strict.expLoop.
  rewrite (@expFold_header E lines _
             (fun e => (position e, expStart e, expEnd e, location e))
             (fun e b => eq_refl)).
  reflexivity.
Qed.

Section StrictOverview.
Context {E : Env}.
Variable lines : list jstr.

Lemma opensWithBullet_push (e : Experience) (b : jstr) :
  opensWithBullet lines e ->
  overview e <> [] ->
  opensWithBullet lines (Strict.pushBullet e b).
Proof.
  intros [H|(raw & Hin & Hb & Hhd)] Hne; [contradiction|].
  right. exists raw. split; [exact Hin|]. split; [exact Hb|].
  unfold Strict.pushBullet; cbn [overview].
  destruct (overview e) as [|x o]; [contradiction|]. exact Hhd.
Qed.

Lemma opensWithBullet_bullet (e : Experience) (i : nat) :
  opensWithBullet lines e ->
  startsWith [bullet] (trim (nth i lines [])) = true ->
  opensWithBullet lines
      (Strict.pushBullet e (trim (substring 1 (trim (nth i lines []))))).
Proof.
  intros He Hb.
  destruct (overview e) as [|x o] eqn:Ho.
  - right. exists (nth i lines []). split; [|split; [exact Hb|]].
    + destruct (Nat.lt_ge_cases i (length lines)) as [Hlt|Hge]; [apply nth_In; exact Hlt|].
      rewrite (nth_overflow _ _ Hge) in Hb. discriminate.
    + unfold Strict.pushBullet; cbn [overview]. rewrite Ho. reflexivity.
  - apply opensWithBullet_push; [exact He | congruence].
Qed.

Lemma expStep_overview (i : nat) (st : Strict.ExpState) :
  Forall (opensWithBullet lines) (Strict.flush st) ->
  Forall (opensWithBullet lines) (Strict.flush (Strict.expStep lines i st)).
Proof.
  intros H. unfold Strict.expStep.
  set (line := trim (nth i lines [])).
  destruct (Regex.test Pat.dateRangePattern line).
  - unfold Strict.flush at 1. cbn [Strict.experiences Strict.currentExp].
    apply Forall_app. split; [exact H|]. constructor; [|constructor].
    left. reflexivity.
  - destruct st as [done cur cb].
    cbn [Strict.experiences Strict.currentExp Strict.collectingBullets].
    destruct cb; [|exact H].
    destruct cur as [e|]; [|exact H].
    unfold Strict.flush in H |- *. cbn [Strict.experiences Strict.currentExp] in H.
    apply Forall_app in H. destruct H as [Hd He].
    apply Forall_inv in He.
    destruct (startsWith [bullet] line) eqn:Hb.
    { cbn [Strict.experiences Strict.currentExp].
      apply Forall_app. split; [exact Hd|]. constructor; [|constructor].
      apply opensWithBullet_bullet; assumption. }
    destruct (Nat.ltb 0 (length line) && negb (Regex.test Strict.headerLike line)).
    + destruct (Nat.ltb 0 (length (overview e))) eqn:Ho;
        cbn [Strict.experiences Strict.currentExp];
        (apply Forall_app; split; [exact Hd|]; constructor; [|constructor]);
        [|exact He].
      apply opensWithBullet_push; [exact He|].
      apply Nat.ltb_lt in Ho. intros Hnil. rewrite Hnil in Ho. cbn [length] in Ho. lia.
    + destruct (Regex.test Strict.headerLike line && Nat.ltb (length line) 30);
        cbn [Strict.experiences Strict.currentExp];
        (apply Forall_app; split; [exact Hd|]; constructor; [exact He | constructor]).
Qed.

Lemma expFold_overview (idx : list nat) (st : Strict.ExpState) :
  Forall (opensWithBullet lines) (Strict.flush st) ->
  Forall (opensWithBullet lines)
         (Strict.flush (fold_left (fun st i => Strict.expStep lines i st) idx st)).
Proof.
  revert st. induction idx as [|i idx IH]; intros st H; cbn [fold_left]; [exact H|].
  apply IH. apply expStep_overview. exact H.
Qed.

End StrictOverview.

(** parseWorkExperience of part_000: a description never opens with plain
    text.  Its first item, if any, is the text of a bullet line with the
    bullet removed; plain lines between the date-range line and the first
    bullet of an entry are dropped, and kept only once a bullet has been
    collected. *)
Theorem Strict_description_opens_with_a_bullet {E : Env} (lines : list jstr) :
  Forall (opensWithBullet lines) (Strict.parseWorkExperience lines).
Proof.
  unfold Strict.parseWorkExperience, Strict.expLoop.
  apply expFold_overview. constructor.
Qed.

(* ------------------------------------------------------------------ *)
(** ** The words of a line *)

Lemma runLen_le (p : N -> bool) (s : jstr) : runLen p s <= length s.
Proof.
  induction s as [|x t IH]; cbn [runLen length]; [lia|].
  destruct (p x); lia.
Qed.

Lemma runLen_all (p : N -> bool) (s : jstr) :
  runLen p s = length s -> Forall (fun x => p x = true) s.
Proof.
  induction s as [|x t IH]; cbn [runLen length]; intros H; [constructor|].
  destruct (p x) eqn:Hx; [|discriminate].
  constructor; [exact Hx | apply IH; lia].
Qed.

Lemma runLen_clean (s : jstr) : clean (skipn (runLen isSpace s) s).
Proof.
  induction s as [|x t IH]; cbn [runLen]; [exact I|].
  destruct (isSpace x) eqn:Hx; [exact IH | exact Hx].
Qed.

(** The greedy loop of a class takes the whole run. *)
Lemma starLoop_chr (p : N -> bool) (q0 : nat) :
  forall fuel pos rest c,
    length rest <= fuel ->
    starLoop (@run matched (Chr p))
             (fun pos' _ c' => Some {| mstart := q0; mend := pos'; mcaps := c' |})
             fuel pos rest c
    = Some {| mstart := q0; mend := pos + runLen p rest; mcaps := c |}.
Proof.
  induction fuel as [|f IH]; intros pos rest c Hl.
  - destruct rest; [|cbn [length] in Hl; lia].
    cbn [starLoop runLen]. rewrite Nat.add_0_r. reflexivity.
  - cbn [starLoop run]. destruct rest as [|x t]; cbn [runLen].
    + rewrite Nat.add_0_r. reflexivity.
    + destruct (p x).
      * replace (Nat.eqb (S pos) pos) with false by (symmetry; apply Nat.eqb_neq; lia).
        rewrite IH by (cbn [length] in Hl; lia).
        replace (pos + S (runLen p t)) with (S pos + runLen p t) by lia. reflexivity.
      * rewrite Nat.add_0_r. reflexivity.
Qed.

(** [/\s+/] anchored at [q]: the run of white space that starts there. *)
Lemma matchAt_spaces (q : nat) (rest : jstr) :
  matchAt Pat.spaces q rest
  = match rest with
    | x :: t =>
        if isSpace x
        then Some {| mstart := q; mend := S q + runLen isSpace t; mcaps := [] |}
        else None
    | [] => None
    end.
Proof.
  unfold matchAt, Pat.spaces, Plus, space. cbn [run].
  destruct rest as [|x t]; [reflexivity|]. destruct (isSpace x); [|reflexivity].
  apply starLoop_chr. apply Nat.le_refl.
Qed.

Lemma ends_in_space (pre t : jstr) (x : N) :
  isSpace x = true -> Forall (fun y => isSpace y = true) t ->
  clean (rev (pre ++ x :: t)) -> False.
Proof.
  intros Hx Ht. rewrite rev_app_distr. cbn [rev].
  destruct (rev t) as [|y u] eqn:Hr; cbn [app clean]; intros Hc.
  - congruence.
  - assert (Hy : In y t) by (apply in_rev; rewrite Hr; left; reflexivity).
    rewrite (proj1 (Forall_forall _ _) Ht y Hy) in Hc. discriminate.
Qed.

(** Splitting at white space, from a piece that starts at [p]: no piece
    is empty when the line neither ends in white space nor has white
    space at [p]. *)
Lemma splitLoop_words (s : jstr) :
  clean (rev s) ->
  forall fuel p q,
    length s - q < fuel -> p <= q -> p < length s ->
    (q = p -> clean (skipn p s)) ->
    Forall (fun w => w <> []) (splitLoop fuel Pat.spaces s p q).
Proof.
  intros Hend. induction fuel as [|f IH]; intros p q Hf Hpq Hp Hc; [lia|].
  assert (Hlast : skipn p s <> []).
  { intros Hnil. apply (f_equal (@length N)) in Hnil.
    rewrite length_skipn in Hnil. cbn [length] in Hnil. lia. }
  cbn [splitLoop]. destruct (Nat.ltb q (length s)) eqn:Hq;
    [|constructor; [exact Hlast | constructor]].
  apply Nat.ltb_lt in Hq. rewrite matchAt_spaces.
  destruct (skipn q s) as [|x t] eqn:Hsk; [apply IH; [lia | lia | lia | intros; lia]|].
  destruct (isSpace x) eqn:Hx; [|apply IH; [lia | lia | lia | intros; lia]].
  cbn [mend].
  assert (Hlen : length s - q = S (length t)).
  { rewrite <- length_skipn, Hsk. reflexivity. }
  pose proof (runLen_le isSpace t) as Hrun.
  rewrite Nat.min_l by lia.
  destruct (Nat.eqb (S q + runLen isSpace t) p) eqn:He;
    [apply Nat.eqb_eq in He; lia|].
  assert (Hqp : q <> p).
  { intros ->. specialize (Hc eq_refl). rewrite Hsk in Hc. cbn [clean] in Hc. congruence. }
  constructor.
  - intros Hnil. apply (f_equal (@length N)) in Hnil. unfold substr in Hnil.
    rewrite length_firstn, length_skipn in Hnil. cbn [length] in Hnil. lia.
  - assert (Hrest : skipn (S q + runLen isSpace t) s = skipn (runLen isSpace t) t).
    { replace (S q + runLen isSpace t) with (runLen isSpace t + (1 + q)) by lia.
      rewrite <- skipn_skipn. f_equal.
      rewrite <- skipn_skipn, Hsk. reflexivity. }
    apply IH; [lia | lia | | intros _; rewrite Hrest; apply runLen_clean].
    destruct (Nat.lt_ge_cases (S q + runLen isSpace t) (length s)) as [Hlt|Hge];
      [exact Hlt|].
    exfalso. apply (@ends_in_space (firstn q s) t x Hx).
    + apply runLen_all. lia.
    + rewrite <- Hsk, firstn_skipn. exact Hend.
Qed.

(** The name search of resumeParser2.js reads [w[0]] of every word of a
    line without a guard.  Its lines are trimmed and not empty, so no
    word of [line.split(/\s+/)] is the empty string and [w[0]] is always
    a character. *)
Theorem Enhanced_name_words_are_never_empty (text line : jstr) :
  In line (normalize text) ->
  Forall (fun w => w <> []) (Regex.split Pat.spaces line).
Proof.
  intros Hin. apply normalize_lines in Hin. destruct Hin as [Hne Htrim].
  destruct (trim_clean_both line) as [H1 H2]. rewrite Htrim in H1, H2.
  unfold Regex.split. destruct line as [|c line]; [congruence|].
  apply splitLoop_words; [exact H2 | cbn [length]; lia | lia | cbn [length]; lia|].
  intros _. exact H1.
Qed.

Lemma Enhanced_name_words_witness :
  In (lit "Jane Doe") (normalize (lit "  Jane Doe  "))
  /\ Forall (fun w => w <> []) (Regex.split Pat.spaces (lit "Jane Doe")).
Proof.
  assert (H : In (lit "Jane Doe") (normalize (lit "  Jane Doe  ")))
    by (left; reflexivity).
  split; [exact H|].
  exact (@Enhanced_name_words_are_never_empty (lit "  Jane Doe  ") (lit "Jane Doe") H).
Defined.

(* ------------------------------------------------------------------ *)
(** ** The years of an education line *)

Lemma yearAtHead_spec (s y r : jstr) :
  yearAtHead s = Some (y, r) -> s = y ++ r /\ isYear y.
Proof.
  unfold yearAtHead.
  destruct s as [|a [|b [|c [|d rest]]]]; try discriminate.
  destruct (isDigit a) eqn:Ha; [|discriminate].
  destruct (isDigit b) eqn:Hb; [|discriminate].
  destruct (isDigit c) eqn:Hc; [|discriminate].
  destruct (isDigit d) eqn:Hd; [|discriminate].
  cbn [andb]. intros H. injection H as <- <-.
  split; [reflexivity|]. split; [reflexivity|]. repeat constructor; assumption.
Qed.

Lemma nextYear_spec (s y r : jstr) :
  nextYear s = Some (y, r) -> exists pre, s = pre ++ y ++ r /\ isYear y.
Proof.
  induction s as [|c t IH]; cbn [nextYear]; [discriminate|].
  destruct (yearAtHead (c :: t)) as [[y' r']|] eqn:Hh.
  - intros H. injection H as <- <-. apply yearAtHead_spec in Hh.
    exists []. exact Hh.
  - intros H. destruct (IH H) as (pre & -> & Hy). exists (c :: pre). split; [reflexivity | exact Hy].
Qed.

(** [\d{4}] at the head of the input. *)
Lemma run_year (R : Type) (k : nat -> jstr -> caps -> option R) pos rest c :
  run (Times 4 (Chr isDigit)) pos rest c k
  = match yearAtHead rest with
    | Some (_, r) => k (4 + pos) r c
    | None => None
    end.
Proof.
  cbn [Times run]. unfold yearAtHead.
  destruct rest as [|a [|b [|c0 [|d r]]]];
    repeat match goal with
           | |- context [isDigit ?x] => destruct (isDigit x)
           end; reflexivity.
Qed.

Lemma matchAt_year (pos : nat) (rest : jstr) :
  matchAt Strict.yearPattern pos rest
  = match yearAtHead rest with
    | Some _ => Some {| mstart := pos; mend := 4 + pos; mcaps := [] |}
    | None => None
    end.
Proof.
  unfold matchAt, Strict.yearPattern, digit. rewrite run_year.
  destruct (yearAtHead rest) as [[y r]|]; reflexivity.
Qed.

Lemma skipn_cons_tail (A : Type) (s t : list A) (c : A) (pos : nat) :
  skipn pos s = c :: t -> skipn (S pos) s = t /\ pos < length s.
Proof.
  intros H. split.
  - change (S pos) with (1 + pos). rewrite <- skipn_skipn, H. reflexivity.
  - apply (f_equal (@length A)) in H. rewrite length_skipn in H. cbn [length] in H. lia.
Qed.

Section YearsOfALine.
Variable s : jstr.

(** The leftmost [\d{4}] at or after [pos] is the next year token. *)
Lemma searchFrom_year :
  forall rest pos,
    skipn pos s = rest ->
    searchFrom Strict.yearPattern pos rest
    = match nextYear rest with
      | Some (_, r) =>
          Some {| mstart := length s - length r - 4; mend := length s - length r;
                  mcaps := [] |}
      | None => None
      end.
Proof.
  induction rest as [|c t IH]; intros pos Hs; cbn [searchFrom nextYear].
  - rewrite matchAt_year. reflexivity.
  - rewrite matchAt_year.
    destruct (yearAtHead (c :: t)) as [[y r]|] eqn:Hh.
    + apply yearAtHead_spec in Hh. destruct Hh as [Hyr [Hl _]].
      apply (f_equal (@length N)) in Hs. rewrite length_skipn, Hyr, length_app in Hs.
      f_equal. f_equal; lia.
    + apply skipn_cons_tail in Hs. apply IH. apply Hs.
Qed.

(** [line.match(/\d{4}/g)] lists the year tokens of the line. *)
Lemma allFrom_years :
  forall fuel pos,
    pos <= length s ->
    List.map (whole s) (allFrom fuel Strict.yearPattern s pos) = yearsOf fuel (skipn pos s).
Proof.
  induction fuel as [|f IH]; intros pos Hpos; cbn [allFrom yearsOf]; [reflexivity|].
  rewrite (@searchFrom_year (skipn pos s) pos eq_refl).
  destruct (nextYear (skipn pos s)) as [[y r]|] eqn:Hn; [|reflexivity].
  apply nextYear_spec in Hn. destruct Hn as (pre & Hs & Hl & _).
  assert (Hlen : length s - pos = length pre + (4 + length r)).
  { rewrite <- length_skipn, Hs, !length_app, Hl. reflexivity. }
  cbn [mstart mend List.map].
  replace (Nat.eqb (length s - length r) (length s - length r - 4)) with false
    by (symmetry; apply Nat.eqb_neq; lia).
  assert (Hat : skipn (length s - length r - 4) s = y ++ r).
  { replace (length s - length r - 4) with (pos + length pre) by lia.
    apply skipn_at. exact Hs. }
  set (p := length s - length r - 4) in *.
  replace (length s - length r) with (p + length y) by (subst p; lia).
  f_equal.
  - unfold whole. cbn [mstart mend]. exact (@substr_at _ _ _ _ Hat).
  - rewrite IH by (subst p; lia). f_equal. apply skipn_at. exact Hat.
Qed.

End YearsOfALine.

Lemma Strict_matchG_years (line : jstr) :
  matchG Strict.yearPattern line
  = match yearsOf (S (length line)) line with
    | [] => None
    | ys => Some ys
    end.
Proof.
  unfold matchG, matchAll.
  pose proof (@allFrom_years line (S (length line)) 0 (Nat.le_0_l _)) as H.
  change (skipn 0 line) with line in H. rewrite <- H.
  destruct (allFrom (S (length line)) Strict.yearPattern line 0); reflexivity.
Qed.

Lemma nextYear_length (s y r : jstr) : nextYear s = Some (y, r) -> 4 <= length s.
Proof.
  intros H. apply nextYear_spec in H. destruct H as (pre & -> & Hl & _).
  rewrite !length_app, Hl. lia.
Qed.

Lemma Strict_educationEntry_dates (line : jstr) :
  eduDates (Strict.educationEntry line) = yearDates (firstTwoYears line).
Proof.
  unfold eduDates, Strict.educationEntry; cbn [eduStart eduEnd].
  rewrite Strict_matchG_years. unfold firstTwoYears, Strict.yearField.
  cbn [yearsOf].
  destruct (nextYear line) as [[y0 r0]|] eqn:H0; [|reflexivity].
  pose proof (nextYear_length _ H0) as Hlen.
  destruct (length line) as [|n] eqn:Hn; [lia|]. cbn [yearsOf].
  destruct (nextYear r0) as [[y1 r1]|]; reflexivity.
Qed.

Lemma space_is_no_digit (x : N) : isSpace x = true -> isDigit x = false.
Proof.
  unfold isSpace, isDigit, inRange. intros H.
  destruct (N.leb 48 x) eqn:H1; [|reflexivity].
  destruct (N.leb x 57) eqn:H2; [|reflexivity].
  apply N.leb_le in H1. apply N.leb_le in H2. exfalso.
  repeat rewrite orb_true_iff in H. repeat rewrite andb_true_iff in H.
  repeat rewrite N.leb_le in H. repeat rewrite N.eqb_eq in H. lia.
Qed.

Lemma space_is_no_dash (x : N) : isSpace x = true -> isDashUnit x = false.
Proof.
  unfold isDashUnit, enDash, emDash. intros H.
  destruct (N.eqb_spec x 8211) as [->|_]; [discriminate H|].
  destruct (N.eqb_spec x (cu "-")) as [->|_]; [discriminate H|].
  destruct (N.eqb_spec x 8212) as [->|_]; [discriminate H|].
  reflexivity.
Qed.

Lemma trimStart_runLen (r : jstr) : skipn (runLen isSpace r) r = trimStart r.
Proof.
  induction r as [|x t IH]; cbn [runLen trimStart]; [reflexivity|].
  destruct (isSpace x); [exact IH | reflexivity].
Qed.

(** The greedy [\s*] before something that cannot begin with white space
    takes the whole run of white space. *)
Lemma starLoop_spaces (R : Type) (k : nat -> jstr -> caps -> option R) :
  (forall pos x t c, isSpace x = true -> k pos (x :: t) c = None) ->
  forall fuel pos rest c,
    length rest <= fuel ->
    starLoop (run (Chr isSpace)) k fuel pos rest c
    = k (runLen isSpace rest + pos) (trimStart rest) c.
Proof.
  intros Hk. induction fuel as [|f IH]; intros pos rest c Hl.
  - destruct rest; [reflexivity | cbn [length] in Hl; lia].
  - cbn [starLoop run]. destruct rest as [|x t]; cbn [runLen trimStart]; [reflexivity|].
    destruct (isSpace x) eqn:Hx; [|reflexivity].
    replace (Nat.eqb (S pos) pos) with false by (symmetry; apply Nat.eqb_neq; lia).
    rewrite IH by (cbn [length] in Hl; lia).
    replace (runLen isSpace t + S pos) with (S (runLen isSpace t) + pos) by lia.
    destruct (k (S (runLen isSpace t) + pos) (trimStart t) c) eqn:Hres; [reflexivity|].
    apply Hk. exact Hx.
Qed.

(** Where the year range of resumeParser2.js ends and what it captures,
    anchored at [pos]. *)
Lemma matchAt_yearRange (pos : nat) (rest : jstr) :
  matchAt Enhanced.yearPattern pos rest
  = match yearAtHead rest with
    | Some (_, r1) =>
        match trimStart r1 with
        | d :: r3 =>
            if isDashUnit d then
              let p4 := runLen isSpace r3 + S (runLen isSpace r1 + (4 + pos)) in
              match yearAtHead (trimStart r3) with
              | Some _ =>
                  Some {| mstart := pos; mend := 4 + p4;
                          mcaps := [(2, (p4, 4 + p4)); (1, (pos, 4 + pos))] |}
              | None => None
              end
            else None
        | [] => None
        end
    | None => None
    end.
Proof.
  unfold matchAt. rewrite Enhanced_yearPattern_unfold. cbn [run].
  rewrite run_year. destruct (yearAtHead rest) as [[y0 r1]|]; [|reflexivity].
  rewrite starLoop_spaces; [|intros p x t c Hx; cbn [run]; unfold Pat.dash; cbn [run];
                             change (N.eqb x enDash || N.eqb x (cu "-") || N.eqb x emDash)
                               with (isDashUnit x);
                             rewrite (space_is_no_dash _ Hx); reflexivity
                            |apply Nat.le_refl].
  unfold Pat.dash. cbn [run].
  destruct (trimStart r1) as [|d r3]; [reflexivity|].
  change (N.eqb d enDash || N.eqb d (cu "-") || N.eqb d emDash) with (isDashUnit d).
  destruct (isDashUnit d); [|reflexivity].
  rewrite starLoop_spaces; [|intros p x t c Hx; rewrite run_year; unfold yearAtHead;
                             destruct t as [|b [|c0 [|d0 t]]]; try reflexivity;
                             rewrite (space_is_no_digit _ Hx); reflexivity
                            |apply Nat.le_refl].
  rewrite run_year. cbv zeta.
  destruct (yearAtHead (trimStart r3)) as [[y1 r5]|]; reflexivity.
Qed.

Lemma trimStart_split (r : jstr) : r = firstn (runLen isSpace r) r ++ trimStart r.
Proof. rewrite <- trimStart_runLen. symmetry. apply firstn_skipn. Qed.

Lemma length_firstn_runLen (r : jstr) : length (firstn (runLen isSpace r) r) = runLen isSpace r.
Proof. rewrite length_firstn. pose proof (runLen_le isSpace r). lia. Qed.

(** The leftmost year range and its two groups. *)
Lemma searchFrom_yearRange (line : jstr) :
  forall rest pos,
    skipn pos line = rest ->
    match searchFrom Enhanced.yearPattern pos rest with
    | Some m =>
        exists y0 y1,
          firstYearRange rest = Some (y0, y1)
          /\ group 1 line m = Some y0 /\ group 2 line m = Some y1
          /\ isYear y0 /\ isYear y1
    | None => firstYearRange rest = None
    end.
Proof.
  assert (Hhere : forall rest pos,
             skipn pos line = rest ->
             match matchAt Enhanced.yearPattern pos rest with
             | Some m =>
                 exists y0 y1,
                   yearRangeAtHead rest = Some (y0, y1)
                   /\ group 1 line m = Some y0 /\ group 2 line m = Some y1
                   /\ isYear y0 /\ isYear y1
             | None => yearRangeAtHead rest = None
             end).
  { intros rest pos Hs. rewrite matchAt_yearRange. unfold yearRangeAtHead.
    destruct (yearAtHead rest) as [[y0 r1]|] eqn:H0; [|reflexivity].
    destruct (trimStart r1) as [|d r3] eqn:H1; [reflexivity|].
    destruct (isDashUnit d); [|reflexivity]. cbv zeta.
    destruct (yearAtHead (trimStart r3)) as [[y1 r5]|] eqn:H2; [|reflexivity].
    apply yearAtHead_spec in H0. destruct H0 as [Hr [L0 D0]].
    apply yearAtHead_spec in H2. destruct H2 as [Hr3 [L1 D1]].
    exists y0, y1. split; [reflexivity|].
    assert (S0 : skipn pos line = y0 ++ r1) by (rewrite Hs; exact Hr).
    assert (S1 : skipn (4 + pos) line = r1).
    { rewrite Nat.add_comm, <- L0. apply skipn_at. exact S0. }
    assert (S2 : skipn (runLen isSpace r1 + (4 + pos)) line = d :: r3).
    { rewrite Nat.add_comm, <- (length_firstn_runLen r1). apply skipn_at.
      rewrite S1, <- H1. apply trimStart_split. }
    assert (S3 : skipn (S (runLen isSpace r1 + (4 + pos))) line = r3).
    { apply skipn_cons_tail in S2. apply S2. }
    assert (S4 : skipn (runLen isSpace r3 + S (runLen isSpace r1 + (4 + pos))) line
                 = y1 ++ r5).
    { rewrite Nat.add_comm, <- (length_firstn_runLen r3). apply skipn_at.
      rewrite S3, <- Hr3. apply trimStart_split. }
    unfold group. cbn [mcaps getCap Nat.eqb].
    set (p4 := runLen isSpace r3 + S (runLen isSpace r1 + (4 + pos))) in *.
    split; [|split; [|split; split; assumption]]; f_equal.
    - replace (4 + pos) with (pos + length y0) by lia. exact (@substr_at _ _ _ _ S0).
    - replace (4 + p4) with (p4 + length y1) by lia. exact (@substr_at _ _ _ _ S4). }
  induction rest as [|c t IH]; intros pos Hs; cbn [searchFrom firstYearRange].
  - specialize (Hhere [] pos Hs).
    destruct (matchAt Enhanced.yearPattern pos []) as [m|]; [|reflexivity].
    destruct Hhere as (y0 & y1 & H & _). discriminate H.
  - specialize (Hhere (c :: t) pos Hs).
    destruct (matchAt Enhanced.yearPattern pos (c :: t)) as [m|].
    + destruct Hhere as (y0 & y1 & H & G1 & G2 & Y0 & Y1).
      exists y0, y1. rewrite H. repeat split; assumption || apply Y0 || apply Y1.
    + rewrite Hhere. apply IH. apply skipn_cons_tail in Hs. apply Hs.
Qed.

Lemma Enhanced_rawEducationEntry_dates (line : jstr) :
  eduDates (Enhanced.rawEducationEntry line) = yearDates (firstYearRange line).
Proof.
  unfold eduDates, Enhanced.rawEducationEntry; cbn [eduStart eduEnd].
  pose proof (@searchFrom_yearRange line line 0 eq_refl) as H.
  unfold exec.
  destruct (searchFrom Enhanced.yearPattern 0 line) as [m|]; [|rewrite H; reflexivity].
  destruct H as (y0 & y1 & -> & -> & -> & [L0 _] & [L1 _]).
  destruct y0 as [|a0 y0]; [discriminate|]. destruct y1 as [|a1 y1]; [discriminate|].
  reflexivity.
Qed.

(** The dates of the education entries are the years of their lines.  In
    parseEducation of part_000 an entry gets the first two year tokens of
    its line (runs of four digits, left to right, not overlapping) as
    YYYY-01-01 and YYYY-12-31, and two empty strings when the line has
    fewer than two.  In parseRawEducation of resumeParser2.js it gets the
    two years of the first year range of its line (four digits, dash, four
    digits, white space allowed around the dash), and two empty strings
    when the line has no such range.  The entries are those of the lines
    that pass the degree test, in order. *)
Theorem education_dates_are_the_years_of_the_line (lines : list jstr) :
  List.map eduDates (Strict.parseEducation lines)
  = List.map (fun line => yearDates (firstTwoYears line))
             (filter (Regex.test Strict.degreePattern) lines)
  /\ List.map eduDates (Enhanced.parseRawEducation lines)
     = List.map (fun line => yearDates (firstYearRange line))
                (filter (fun line => negb (Nat.eqb (length (trim line)) 0)
                                     && Regex.test Enhanced.degreePattern line) lines).
Proof.
  unfold Strict.parseEducation, Enhanced.parseRawEducation. rewrite !map_map. split.
  - apply map_ext. intros line. apply Strict_educationEntry_dates.
  - apply map_ext. intros line. apply Enhanced_rawEducationEntry_dates.
Qed.

(** Example 2 of the spec and its neighbours: two years give both dates,
    one year gives none, and the years are those of the line. *)
Example education_years_examples :
  yearDates (firstTwoYears (lit "B.Tech Computer Science 2018 2022 CGPA: 8.5"))
  = (lit "2018-01-01", lit "2022-12-31")
  /\ yearDates (firstTwoYears (lit "B.Tech Computer Science 2022")) = ([], [])
  /\ yearDates (firstYearRange (lit "MIT B.Sc 2018 - 2022")) = (lit "2018-01-01", lit "2022-12-31")
  /\ yearDates (firstYearRange (lit "MIT B.Sc 2018 2022")) = ([], []).
Proof. repeat split; reflexivity. Qed.

(* ------------------------------------------------------------------ *)
(** ** Two runs on the same text *)

Section QuietScores.
Context {E : Env}.

Lemma Strict_qualifies_mute (line kw : jstr) :
  ((85 < fuzz_ratio line kw)%Z -> line = kw) ->
  Strict.qualifies line kw = Strict.qualifies (E := mute E) line kw.
Proof.
  intros H. unfold Strict.qualifies. cbn [fuzz_ratio mute].
  destruct (Z.gtb (fuzz_ratio line kw) 85) eqn:Hg.
  - assert (Heq : Js.eqb line kw = true).
    { apply eqb_eq. apply H. apply Z.gtb_lt. exact Hg. }
    rewrite Heq. reflexivity.
  - reflexivity.
Qed.

Lemma Enhanced_qualifies_mute (line kw : jstr) :
  ((85 < fuzz_ratio line kw)%Z -> line = kw) ->
  Enhanced.qualifies line kw = Enhanced.qualifies (E := mute E) line kw.
Proof.
  intros H. unfold Enhanced.qualifies, Enhanced.isFuzzyMatch, Enhanced.isExactMatch.
  cbn [fuzz_ratio mute].
  destruct (Z.gtb (fuzz_ratio line kw) 90) eqn:Hg.
  - assert (Heq : Js.eqb line kw = true).
    { apply eqb_eq. apply H. apply Z.gtb_lt in Hg. lia. }
    rewrite Heq. reflexivity.
  - reflexivity.
Qed.

Lemma Strict_scanKeywords_mute (mk : Section_) (line : jstr) (kws : list jstr) :
  (forall kw, (85 < fuzz_ratio line kw)%Z -> line = kw) ->
  Strict.scanKeywords mk line kws = Strict.scanKeywords (E := mute E) mk line kws.
Proof.
  intros H. induction kws as [|kw kws IH]; cbn [Strict.scanKeywords]; [reflexivity|].
  rewrite <- (Strict_qualifies_mute (H kw)), IH. reflexivity.
Qed.

Lemma Enhanced_scanKeywords_mute (mk : Section_) (line : jstr) (kws : list jstr) :
  (forall kw, (85 < fuzz_ratio line kw)%Z -> line = kw) ->
  Enhanced.scanKeywords mk line kws = Enhanced.scanKeywords (E := mute E) mk line kws.
Proof.
  intros H. induction kws as [|kw kws IH]; cbn [Enhanced.scanKeywords]; [reflexivity|].
  rewrite <- (Enhanced_qualifies_mute (H kw)), IH. reflexivity.
Qed.

Lemma Strict_scanLines_mute (lines : list jstr) :
  Forall (fun raw => forall kw,
              (85 < fuzz_ratio (toLowerCase (trim raw)) kw)%Z ->
              toLowerCase (trim raw) = kw) lines ->
  forall i, Strict.scanLines i lines = Strict.scanLines (E := mute E) i lines.
Proof.
  induction 1 as [|raw lines Hraw _ IH]; intros i; cbn [Strict.scanLines]; [reflexivity|].
  rewrite IH. f_equal. unfold Strict.scanLine.
  apply flat_map_ext. intros [T kws]. apply Strict_scanKeywords_mute. exact Hraw.
Qed.

Lemma Enhanced_scanLines_mute (lines : list jstr) :
  Forall (fun raw => forall kw,
              (85 < fuzz_ratio (toLowerCase (trim raw)) kw)%Z ->
              toLowerCase (trim raw) = kw) lines ->
  forall i, Enhanced.scanLines i lines = Enhanced.scanLines (E := mute E) i lines.
Proof.
  induction 1 as [|raw lines Hraw _ IH]; intros i; cbn [Enhanced.scanLines]; [reflexivity|].
  rewrite IH. f_equal. unfold Enhanced.scanLine.
  change (toLowerCase (E := mute E) (trim raw)) with (toLowerCase (trim raw)).
  destruct (Enhanced.skipped (toLowerCase (trim raw))); [reflexivity|].
  apply flat_map_ext. intros [T kws]. apply Enhanced_scanKeywords_mute. exact Hraw.
Qed.

(** What the record holds as work experience. *)
Lemma Strict_experienceOf (text : jstr) :
  experienceOf (Strict.parseResume text)
  = Strict.parseWorkExperience
      (Strict.getSectionContent (Strict.detectSectionBoundaries (normalize text))
                                (normalize text) experience).
Proof.
  unfold experienceOf, Strict.parseResume.
  rewrite get_cleanUp by (rewrite assemble_keys; apply schemaKeys_NoDup).
  change (get "workExperience" (Strict.assemble text))
    with (Some (FExp (Strict.parseWorkExperience
                        (Strict.getSectionContent
                           (Strict.detectSectionBoundaries (normalize text))
                           (normalize text) experience)))).
  cbn [isBlankString isEmptyArray orb].
  destruct (Strict.parseWorkExperience _); reflexivity.
Qed.

Lemma Enhanced_experienceOf (text : jstr) :
  experienceOf (Enhanced.parseResume text)
  = Enhanced.parseRawExperience
      (Enhanced.getSectionLines (Enhanced.detectSections (normalize text))
                                (normalize text) experience).
Proof. reflexivity. Qed.

(** The start date of the one job of [datedResume] is what chrono makes of
    its month, in the three parsers. *)
Lemma dated_start :
  fuzzyOnEqualOnly datedResume ->
  List.map expStart (experienceOf (Strict.parseResume datedResume))
  = [isoOrEmpty (chrono_parseDate (lit "Jan 2023"))]
  /\ List.map expStart (experienceOf (Enhanced.parseResume datedResume))
     = [isoOrEmpty (chrono_parseDate (lit "Jan 2023"))]
  /\ List.map expStart (experienceOf (Enhanced.parseResumeSecondaryApproach datedResume))
     = [isoOrEmpty (chrono_parseDate (lit "Jan 2023"))].
Proof.
  intros H. unfold fuzzyOnEqualOnly in H. split; [|split].
  - rewrite Strict_experienceOf. unfold Strict.detectSectionBoundaries.
    rewrite (Strict_scanLines_mute H). reflexivity.
  - rewrite Enhanced_experienceOf. unfold Enhanced.detectSections.
    rewrite (Enhanced_scanLines_mute H). reflexivity.
  - reflexivity.
Qed.

End QuietScores.


Lemma Standin_fuzzyOnEqualOnly (c : Clock) (text : jstr) :
  fuzzyOnEqualOnly (E := Standin.envAt c) text.
Proof.
  apply Forall_forall. intros raw _ kw.
  change (fuzz_ratio (Env := Standin.envAt c)) with Standin.score.
  unfold Standin.score.
  destruct (Js.eqb (toLowerCase (trim raw)) kw) eqn:He; [intros _; apply eqb_eq; exact He|].
  intros Hlt. exfalso. revert Hlt. apply Z.le_ngt. discriminate.
Qed.


(* ------------------------------------------------------------------ *)
(** ** What the date extractors return, and that they return *)

Lemma matches_sets (n : nat) r pos rest c pos' rest' c' :
  matches r pos rest c pos' rest' c' ->
  sets n r = true \/ getCap n c <> None ->
  getCap n c' <> None.
Proof.
  induction 1 as
      [pos rest c | p x pos rest c Hp
      | a b pos rest c pos1 rest1 c1 pos2 rest2 c2 _ IH1 _ IH2
      | a b pos rest c pos1 rest1 c1 _ IH
      | a b pos rest c pos1 rest1 c1 _ IH
      | a pos rest c
      | a pos rest c pos1 rest1 c1 pos2 rest2 c2 _ IH1 Hne _ IH2
      | n0 a pos rest c pos1 rest1 c1 _ IH
      | rest c | pos c]; cbn [sets]; intros [Hs|Hc];
    try discriminate; try exact Hc.
  - apply orb_true_iff in Hs. destruct Hs as [Hs|Hs].
    + apply IH2. right. apply IH1. left. exact Hs.
    + apply IH2. left. exact Hs.
  - apply IH2. right. apply IH1. right. exact Hc.
  - apply andb_true_iff in Hs. apply IH. left. apply Hs.
  - apply IH. right. exact Hc.
  - apply andb_true_iff in Hs. apply IH. left. apply Hs.
  - apply IH. right. exact Hc.
  - apply IH2. right. apply IH1. right. exact Hc.
  - cbn [getCap]. destruct (Nat.eqb n n0) eqn:Hn; [discriminate|].
    apply IH. left. cbn [orb] in Hs. exact Hs.
  - cbn [getCap]. destruct (Nat.eqb n n0); [discriminate|].
    apply IH. right. exact Hc.
Qed.

(** A group that every match of the pattern sets is never [undefined]. *)
Lemma group_is_set (n : nat) (r : regex) (s : jstr) (m : matched) :
  exec r s = Some m -> sets n r = true -> exists g, group n s m = Some g.
Proof.
  intros H Hs. apply exec_sound in H. destruct H as (rest' & _ & M).
  pose proof (matches_sets n M (or_introl Hs)) as Hc.
  unfold group. destruct (getCap n (mcaps m)) as [[i j]|]; [eauto | contradiction].
Qed.

Lemma orEmpty_Some (g : jstr) : orEmpty (Some g) = g.
Proof. destruct g; reflexivity. Qed.

Section Degrading.
Context {E : Env}.

Lemma isoOrEmpty_dateField (text token : jstr) :
  occursIn token text -> dateField text (isoOrEmpty (chrono_parseDate token)).
Proof.
  intros Hin. destruct (chrono_parseDate token) as [t|] eqn:Ht; [|left; reflexivity].
  right. exists token, t. split; [exact Hin|]. split; [exact Ht | reflexivity].
Qed.

(** A capture group is a piece of the text. *)
Lemma group_occurs (n : nat) (text g : jstr) (m : matched) :
  group n text m = Some g -> occursIn g text.
Proof.
  unfold group. destruct (getCap n (mcaps m)) as [[i j]|]; [|discriminate].
  intros H. injection H as <-. unfold substr.
  exists (firstn i text), (skipn (j - i) (skipn i text)).
  rewrite firstn_skipn, firstn_skipn. reflexivity.
Qed.

Lemma orEmpty_group_occurs (n : nat) (text : jstr) (m : matched) :
  occursIn (orEmpty (group n text m)) text.
Proof.
  destruct (group n text m) as [g|] eqn:Hg.
  - rewrite orEmpty_Some. eapply group_occurs. exact Hg.
  - exists [], text. reflexivity.
Qed.

Lemma Strict_fields (text : jstr) :
  dateField text (startDate (Strict.extractDatesFromText text))
  /\ endField text (endDate (Strict.extractDatesFromText text)).
Proof.
  unfold Strict.extractDatesFromText.
  destruct (exec Pat.dateRangePattern text) as [m|]; cbn [startDate endDate].
  - split; [apply isoOrEmpty_dateField, orEmpty_group_occurs|].
    destruct (Strict.isOpenEnd _);
      [left; reflexivity | right; apply isoOrEmpty_dateField, orEmpty_group_occurs].
  - destruct (exec Pat.singleDatePattern text) as [m|]; cbn [startDate endDate].
    + split; [apply isoOrEmpty_dateField, orEmpty_group_occurs | right; left; reflexivity].
    + split; [left; reflexivity | right; left; reflexivity].
Qed.

Lemma resolve_dateField (n : nat) (text : jstr) (m : matched) :
  dateField text (isoOrEmpty (Enhanced.resolve (group n text m))).
Proof.
  destruct (group n text m) as [token|] eqn:Hg; cbn [Enhanced.resolve];
    [|left; reflexivity].
  apply isoOrEmpty_dateField. eapply group_occurs. exact Hg.
Qed.

Lemma Enhanced_fields (text : jstr) :
  dateField text (startDate (Enhanced.extractDateRange text))
  /\ endField text (endDate (Enhanced.extractDateRange text)).
Proof.
  unfold Enhanced.extractDateRange.
  induction Enhanced.patterns as [|p ps IH]; cbn [Enhanced.firstPattern].
  - split; [left; reflexivity | right; left; reflexivity].
  - destruct (exec p text) as [m|]; [|exact IH].
    unfold Enhanced.rangeOf; cbn [startDate endDate].
    split; [apply resolve_dateField|].
    destruct (Enhanced.isOpenEnd _); [left; reflexivity | right; apply resolve_dateField].
Qed.

Lemma Enhanced_unmatched (text : jstr) :
  Forall (fun p => exec p text = None) Enhanced.patterns ->
  Enhanced.extractDateRange text = {| startDate := []; endDate := [] |}.
Proof.
  unfold Enhanced.extractDateRange.
  induction Enhanced.patterns as [|p ps IH]; intros Hall; cbn [Enhanced.firstPattern];
    [reflexivity|].
  inversion Hall as [|? ? Hp Hps]; subst.
  rewrite Hp. apply IH. exact Hps.
Qed.

(** Where chrono parses no token of the text, the fields are empty. *)
Lemma fields_degrade (text : jstr) :
  (forall token, occursIn token text -> chrono_parseDate token = None) ->
  (forall v, dateField text v -> v = [])
  /\ (forall v, endField text v -> v = [] \/ v = lit "Present").
Proof.
  intros Hnone.
  assert (Hd : forall v, dateField text v -> v = []).
  { intros v [H|(token & t & Hin & Ht & _)]; [exact H|].
    rewrite (Hnone token Hin) in Ht. discriminate Ht. }
  split; [exact Hd|].
  intros v [H|H]; [right; exact H | left; apply Hd; exact H].
Qed.

Hypothesis contract : chronoContract.

Lemma isoOrEmpty_returns (token : jstr) :
  Throwing.isoOrEmpty (chrono_parseDate token)
  = Throwing.Returns (isoOrEmpty (chrono_parseDate token)).
Proof.
  destruct (chrono_parseDate token) as [t|] eqn:Ht; [|reflexivity].
  cbn [Throwing.isoOrEmpty isoOrEmpty]. unfold Throwing.isoDay.
  rewrite (proj1 contract token t Ht). reflexivity.
Qed.

Lemma Strict_returns (text : jstr) :
  Throwing.extractDatesFromText text = Throwing.Returns (Strict.extractDatesFromText text).
Proof.
  unfold Throwing.extractDatesFromText, Strict.extractDatesFromText.
  destruct (exec Pat.dateRangePattern text) as [m|] eqn:Hm.
  - destruct (@group_is_set 1 _ _ _ Hm eq_refl) as [g1 H1].
    destruct (@group_is_set 2 _ _ _ Hm eq_refl) as [g2 H2].
    rewrite H1, H2, !orEmpty_Some. cbn [Throwing.defined Throwing.bind].
    rewrite isoOrEmpty_returns. cbn [Throwing.bind].
    destruct (Strict.isOpenEnd g2); [reflexivity|].
    rewrite isoOrEmpty_returns. reflexivity.
  - destruct (exec Pat.singleDatePattern text) as [m|] eqn:Hs; [|reflexivity].
    destruct (@group_is_set 1 _ _ _ Hs eq_refl) as [g1 H1].
    rewrite H1, orEmpty_Some. cbn [Throwing.defined Throwing.bind].
    rewrite isoOrEmpty_returns. reflexivity.
Qed.

Lemma firstPattern_returns (text : jstr) (ps : list regex) :
  forallb (fun p => sets 1 p && sets 2 p) ps = true ->
  Throwing.firstPattern ps text = Throwing.Returns (Enhanced.firstPattern ps text).
Proof.
  induction ps as [|p ps IH]; cbn [forallb Throwing.firstPattern Enhanced.firstPattern];
    [reflexivity|].
  intros H. apply andb_true_iff in H. destruct H as [Hp Hps].
  apply andb_true_iff in Hp. destruct Hp as [S1 S2].
  destruct (exec p text) as [m|] eqn:Hm; [|apply IH; exact Hps].
  destruct (@group_is_set 1 _ _ _ Hm S1) as [g1 H1].
  destruct (@group_is_set 2 _ _ _ Hm S2) as [g2 H2].
  unfold Throwing.rangeOf, Enhanced.rangeOf. rewrite H1, H2.
  cbn [Throwing.defined Throwing.bind Enhanced.resolve].
  rewrite isoOrEmpty_returns. cbn [Throwing.bind].
  destruct (Enhanced.isOpenEnd (Some g2)); [reflexivity|].
  cbn [Throwing.bind]. rewrite isoOrEmpty_returns. reflexivity.
Qed.

Lemma Enhanced_returns (text : jstr) :
  Throwing.extractDateRange text = Throwing.Returns (Enhanced.extractDateRange text).
Proof. apply firstPattern_returns. vm_compute. reflexivity. Qed.

Lemma dayOf_returns (text : jstr) (r : option Z) :
  In r (chrono_parse text) ->
  exists t, r = Some t
            /\ Throwing.dayOf r = Throwing.Returns (Some (IsoDate.isoDay t))
            /\ foundDate text (IsoDate.isoDay t).
Proof.
  intros Hin. destruct (proj2 contract text r Hin) as (t & -> & Hv).
  exists t. split; [reflexivity|]. split.
  - cbn [Throwing.dayOf]. unfold Throwing.isoDay. rewrite Hv. reflexivity.
  - right. exists t. split; [exact Hin | reflexivity].
Qed.

Lemma Simple_returns (text : jstr) :
  Throwing.extractDates text = Throwing.Returns (Simple.extractDates text)
  /\ exists s e,
      Simple.extractDates text = {| Simple.startOf := Some s; Simple.endOf := Some e |}
      /\ foundDate text s /\ foundDate text e.
Proof.
  unfold Throwing.extractDates, Simple.extractDates.
  pose proof (@dayOf_returns text) as Hday.
  destruct (chrono_parse text) as [|r0 [|r1 rest]].
  - split; [reflexivity|]. exists [], []. repeat split; left; reflexivity.
  - destruct (Hday r0 (or_introl eq_refl)) as (t0 & -> & D0 & F0).
    rewrite D0. cbn [Throwing.bind option_map].
    split; [reflexivity|]. exists (IsoDate.isoDay t0), [].
    repeat split; [exact F0 | left; reflexivity].
  - destruct (Hday r0 (or_introl eq_refl)) as (t0 & -> & D0 & F0).
    destruct (Hday r1 (or_intror (or_introl eq_refl))) as (t1 & -> & D1 & F1).
    rewrite D0, D1. cbn [Throwing.bind option_map].
    split; [reflexivity|]. exists (IsoDate.isoDay t0), (IsoDate.isoDay t1).
    repeat split; assumption.
Qed.

Lemma Simple_unmatched (text : jstr) :
  length (chrono_parse text) < 2 ->
  Simple.extractDates text
  = {| Simple.startOf := Some (match chrono_parse text with
                               | Some t :: _ => IsoDate.isoDay t
                               | _ => []
                               end);
       Simple.endOf := Some [] |}.
Proof.
  intros Hlen. unfold Simple.extractDates.
  pose proof (proj2 contract text) as Hstart.
  destruct (chrono_parse text) as [|r0 [|r1 rest]]; [reflexivity | | cbn [length] in Hlen; lia].
  destruct (Hstart r0 (or_introl eq_refl)) as (t0 & -> & _). reflexivity.
Qed.

End Degrading.



(* ------------------------------------------------------------------ *)
(** ** The stand-in keeps to the interface of chrono *)

Lemma monthYearToken_unfold :
  Standin.monthYearToken
  = Seq Bol (Seq (Grp 1 (Rep 3 9 alpha))
                 (Seq (Plus space) (Seq (Grp 2 (Times 4 (Chr isDigit))) Eol))).
Proof. reflexivity. Qed.

Lemma Standin_year_group (token : jstr) (m : matched) :
  exec Standin.monthYearToken token = Some m ->
  exists w, group 2 token m = Some w /\ isYear w.
Proof.
  intros H. apply exec_sound in H. destruct H as (rest' & _ & M).
  rewrite monthYearToken_unfold in M.
  apply seq_inv in M. destruct M as (p1 & r1 & c1 & M0 & M).
  apply seq_inv in M. destruct M as (p2 & r2 & c2 & M1 & M).
  apply seq_inv in M. destruct M as (p3 & r3 & c3 & M2 & M).
  apply seq_inv in M. destruct M as (p4 & r4 & c4 & M3 & M4).
  apply grp_inv in M3. destruct M3 as (d & Hc4 & B).
  apply times_chr_inv in B. destruct B as (w & Hr3 & Hl & Ha & _ & Hp4).
  pose proof (matches_capfree M4 eq_refl) as Hcaps.
  assert (S3 : r3 = skipn p3 token).
  { eapply matches_skipn; [exact M2|].
    eapply matches_skipn; [exact M1|].
    eapply matches_skipn; [exact M0|]. reflexivity. }
  exists w. split; [|split; assumption].
  unfold group. rewrite Hcaps, Hc4. cbn [getCap Nat.eqb].
  f_equal. rewrite Hp4, <- Hl. apply (@substr_at _ _ r4). rewrite <- S3. exact Hr3.
Qed.

Lemma decimal_year (w : jstr) : isYear w -> (0 <= Standin.decimal w <= 9999)%Z.
Proof.
  intros [Hl Ha].
  destruct w as [|a [|b [|c [|d [|e w]]]]]; try discriminate Hl.
  inversion Ha as [|? ? Da Ha1]; subst. inversion Ha1 as [|? ? Db Ha2]; subst.
  inversion Ha2 as [|? ? Dc Ha3]; subst. inversion Ha3 as [|? ? Dd _]; subst.
  unfold isDigit, inRange in Da, Db, Dc, Dd.
  apply andb_true_iff in Da. apply andb_true_iff in Db.
  apply andb_true_iff in Dc. apply andb_true_iff in Dd.
  rewrite !N.leb_le in Da, Db, Dc, Dd.
  unfold Standin.decimal. cbn [fold_left]. lia.
Qed.

Lemma monthOf_month (w : jstr) (mo : Z) :
  Standin.monthOf w Standin.months = Some mo -> (1 <= mo <= 12)%Z.
Proof.
  unfold Standin.months. cbn [Standin.monthOf]. intros H.
  repeat match type of H with
         | context [if ?b then _ else _] =>
             destruct b; [injection H as <-; lia|]
         end.
  discriminate H.
Qed.

Lemma daysFromCivil_bounds (y mo : Z) :
  (0 <= y <= 9999)%Z -> (1 <= mo <= 12)%Z ->
  (-1000000 <= Standin.daysFromCivil y mo 1 <= 4000000)%Z.
Proof.
  intros Hy Hmo. unfold Standin.daysFromCivil.
  destruct (Z.leb_spec mo 2); destruct (Z.ltb_spec 2 mo); try lia;
    cbv zeta; Z.div_mod_to_equations; lia.
Qed.

Lemma Standin_parseMonthYear_valid (token : jstr) (t : Z) :
  Standin.parseMonthYear token = Some t -> Throwing.validTime t = true.
Proof.
  unfold Standin.parseMonthYear.
  destruct (exec Standin.monthYearToken token) as [m|] eqn:Hm; [|discriminate].
  destruct (Standin.monthOf _ Standin.months) as [mo|] eqn:Hmo; [|discriminate].
  intros H. injection H as <-.
  destruct (Standin_year_group _ Hm) as (w & Hw & Hy).
  rewrite Hw, orEmpty_Some.
  pose proof (daysFromCivil_bounds (decimal_year Hy) (monthOf_month _ Hmo)) as Hd.
  unfold Throwing.validTime, IsoDate.msPerDay.
  apply andb_true_iff. split; apply Z.leb_le; lia.
Qed.

Lemma Standin_contract : chronoContract (E := Standin.env).
Proof.
  split.
  - exact Standin_parseMonthYear_valid.
  - intros text r. change (chrono_parse (Env := Standin.env) text) with (Standin.parseAll text).
    unfold Standin.parseAll.
    destruct (exec Pat.singleDatePattern text) as [m|]; [|intros []].
    destruct (Standin.parseMonthYear (whole text m)) as [t|] eqn:Ht; [|intros []].
    intros [<-|[]]. exists t. split; [reflexivity|].
    eapply Standin_parseMonthYear_valid. exact Ht.
Qed.

